(** * BackendApp_CS409: the query interpreter and the relationship synchronizer

    A shallow embedding of [routes/tasks.js] and of the module of the user
    routes: the function [parseQueryParams] (the same text in both), the GET list
    handlers that apply its result to a mongoose query, and the POST, PUT and
    DELETE handlers that keep [User.pendingTasks] and [Task.assignedUser]
    in step. *)

From Stdlib Require Import ZArith Ascii String List Bool.
From stdpp Require Import base option list strings gmap fin_maps.

#[local] Set Warnings "-register-all".

Local Open Scope string_scope.
Local Open Scope Z_scope.

(* ===================================================================== *)
(** ** JavaScript values *)
(* ===================================================================== *)

(** What [JSON.parse] can return.  An object keeps its own properties in
    insertion order.  Numbers are the integers: the code only ever compares
    a number with [1] and [0], and a fraction behaves there like any integer
    other than these two. *)
Inductive json : Type :=
| JNull
| JBool (b : bool)
| JNum (n : Z)
| JStr (s : string)
| JArr (xs : list json)
| JObj (fs : list (string * json)).

(** [!!v] of JavaScript, on JSON values. *)
Definition truthy (v : json) : bool :=
  match v with
  | JNull => false
  | JBool b => b
  | JNum n => negb (n =? 0)
  | JStr s => negb (String.eqb s "")
  | JArr _ | JObj _ => true
  end.

(** A query-string value as express hands it over in [req.query]: a string,
    or (for [where[a]=1] and the like) an already nested value. *)
Inductive qvalue : Type :=
| QStr (s : string)
| QParsed (v : json).

Definition truthy_q (p : option qvalue) : bool :=
  match p with
  | None => false
  | Some (QStr s) => negb (String.eqb s "")
  | Some (QParsed _) => true
  end.

Definition truthy_s (p : option string) : bool :=
  match p with
  | None => false
  | Some s => negb (String.eqb s "")
  end.

(** [x || d] on an optional string. *)
Definition or_default (p : option string) (d : string) : string :=
  match p with
  | Some s => if String.eqb s "" then d else s
  | None => d
  end.

(* --------------------------------------------------------------------- *)
(** *** [parseInt] *)
(* --------------------------------------------------------------------- *)

(** A JavaScript string is written here by the bytes of its UTF-8 encoding,
    which is also how a string literal of this file is read: the characters
    up to U+007F are one byte each, and [skip=%C2%A05], which express
    decodes to a no-break space and the digit 5, is the three bytes 194,
    160 and 53.  A sequence of bytes that is not UTF-8 stands for no string
    the code can meet. *)
Definition byte_of (c : ascii) : Z := Z.of_nat (nat_of_ascii c).

(** The white space and the line terminators that [parseInt] skips
    (StrWhiteSpaceChar of the language): U+0009 to U+000D, U+0020, U+00A0,
    U+1680, U+2000 to U+200A, U+2028, U+2029, U+202F, U+205F, U+3000 and
    U+FEFF.  In UTF-8 the first six are one byte, U+00A0 is C2 A0, and the
    others are three bytes: E1 9A 80; E2 80 80 to E2 80 8A; E2 80 A8;
    E2 80 A9; E2 80 AF; E2 81 9F; E3 80 80; EF BB BF. *)
Definition is_white_space1 (c : ascii) : bool :=
  let n := byte_of c in ((9 <=? n) && (n <=? 13)) || (n =? 32).

Definition is_white_space2 (c c1 : ascii) : bool :=
  (byte_of c =? 194) && (byte_of c1 =? 160).

Definition is_white_space3 (c c1 c2 : ascii) : bool :=
  let n := byte_of c in
  let n1 := byte_of c1 in
  let n2 := byte_of c2 in
  ((n =? 225) && (n1 =? 154) && (n2 =? 128))
  || ((n =? 226) && (n1 =? 128)
      && (((128 <=? n2) && (n2 <=? 138))
          || (n2 =? 168) || (n2 =? 169) || (n2 =? 175)))
  || ((n =? 226) && (n1 =? 129) && (n2 =? 159))
  || ((n =? 227) && (n1 =? 128) && (n2 =? 128))
  || ((n =? 239) && (n1 =? 187) && (n2 =? 191)).

Definition digit_value (c : ascii) : option Z :=
  let n := byte_of c in
  if (48 <=? n) && (n <=? 57) then Some (n - 48)
  else if (97 <=? n) && (n <=? 102) then Some (n - 87)
  else if (65 <=? n) && (n <=? 70) then Some (n - 55)
  else None.

Fixpoint skip_white_space (s : string) : string :=
  match s with
  | String c r =>
      if is_white_space1 c then skip_white_space r
      else
        match r with
        | String c1 r1 =>
            if is_white_space2 c c1 then skip_white_space r1
            else
              match r1 with
              | String c2 r2 =>
                  if is_white_space3 c c1 c2 then skip_white_space r2 else s
              | EmptyString => s
              end
        | EmptyString => s
        end
  | EmptyString => s
  end.

Fixpoint read_digits (radix : Z) (s : string) (acc : option Z) : option Z :=
  match s with
  | String c r =>
      match digit_value c with
      | Some d =>
          if d <? radix
          then read_digits radix r (Some (radix * default 0 acc + d))
          else acc
      | None => acc
      end
  | EmptyString => acc
  end.

Definition strip_sign (s : string) : bool * string :=
  match s with
  | String "-" r => (true, r)
  | String "+" r => (false, r)
  | _ => (false, s)
  end.

Definition strip_radix (s : string) : Z * string :=
  match s with
  | String "0" (String "x" r) => (16, r)
  | String "0" (String "X" r) => (16, r)
  | _ => (10, s)
  end.

(** The Number value of an integer: the nearest double, ties going to the
    even significand.  A double has 53 significant bits, so an integer of
    more bits loses the low ones; from 2^1024 - 2^970 on, the result is
    [Infinity].  A double that is an integer is written as that integer, and
    2^1024, which is no double, stands for [Infinity] (with its sign); the
    sign of a zero is not kept, [-0] being as falsy as [0]. *)
Definition to_double (n : Z) : Z :=
  let a := Z.abs n in
  let e := Z.log2 a - 52 in
  if e <=? 0 then n
  else
    let q := Z.shiftr a e in
    let rest := a - Z.shiftl q e in
    let half := Z.shiftl 1 (e - 1) in
    let q' := if (half <? rest) || ((rest =? half) && Z.odd q)
              then q + 1 else q in
    let v := Z.min (Z.shiftl q' e) (2 ^ 1024) in
    if n <? 0 then - v else v.

(** The builtin [parseInt(string)] with no radix argument: leading white
    space is dropped, then an optional sign, then an optional [0x] prefix
    selects radix 16; the longest run of digits is read and everything after
    it ignored; no digit at all gives [NaN], here [None]; otherwise the
    result is the Number value of the integer that was read. *)
Definition parseInt (s : string) : option Z :=
  let '(neg, s1) := strip_sign (skip_white_space s) in
  let '(radix, s2) := strip_radix s1 in
  match read_digits radix s2 None with
  | Some n => Some (to_double (if neg then - n else n))
  | None => None
  end.

(** A string that is an integer numeral and nothing else: an optional sign
    and then decimal digits only, at least one. *)
Definition is_decimal_digit (c : ascii) : bool :=
  let n := nat_of_ascii c in ((48 <=? n) && (n <=? 57))%nat.

Fixpoint all_digits (s : string) : bool :=
  match s with
  | String c r => is_decimal_digit c && all_digits r
  | EmptyString => true
  end.

Definition numeric_string (s : string) : bool :=
  let body := snd (strip_sign s) in
  negb (String.eqb body "") && all_digits body.

(* ===================================================================== *)
(** ** The query interpreter: [parseQueryParams] *)
(* ===================================================================== *)

(** [req.query], with the keys the interpreter reads. *)
Record Query : Type := mkQuery {
  q_where : option qvalue;
  q_filter : option qvalue;
  q_sort : option string;
  q_select : option string;
  q_skip : option string;
  q_limit : option string;
  q_count : option string
}.

(** The [options] object; an absent key is [None]. *)
Record Options : Type := mkOptions {
  opt_sort : option json;
  opt_select : option json;
  opt_skip : option Z;
  opt_limit : option Z
}.

Definition no_options : Options := mkOptions None None None None.

(** The value returned without an [error] key: [{ query, options, count }]. *)
Record Parsed : Type := mkParsed {
  query : json;
  options : Options;
  count : bool
}.

(** [inl msg] is [{ error: msg }]. *)
Definition ParseResult : Type := string + Parsed.

(** Is [v] the number [1] or the number [0]?
    ([typeof val !== 'number' || (val !== 1 && val !== 0)], negated.) *)
Definition is_zero_or_one (v : json) : bool :=
  match v with
  | JNum n => (n =? 1) || (n =? 0)
  | _ => false
  end.

(** The values of the own enumerable properties that [for (key in v)]
    visits: the fields of an object, the elements of an array, the
    characters of a string; nothing for [null], a number or a boolean. *)
Definition own_values (v : json) : list json :=
  match v with
  | JObj fs => map snd fs
  | JArr xs => xs
  | JStr s => map (fun c => JStr (String c EmptyString)) (list_ascii_of_string s)
  | _ => []
  end.

(** [filterParam.hasOwnProperty] is looked up on the value itself.  A parsed
    object that has an own property of that name hides the inherited method
    behind a JSON value, and calling it throws a [TypeError]. *)
Definition hasOwnProperty_callable (v : json) : bool :=
  match v with
  | JObj fs => negb (existsb (fun kv => String.eqb (fst kv) "hasOwnProperty") fs)
  | _ => true
  end.

(** The [for ... in] loop computing [isProjection]; [None] when the call of
    [hasOwnProperty] throws.  A key that is visited is an own key, so the
    call answers [true] whenever it answers. *)
Fixpoint scan_projection (callable : bool) (vals : list json) : option bool :=
  match vals with
  | [] => Some true
  | val :: rest =>
      if callable
      then if is_zero_or_one val then scan_projection callable rest
           else Some false
      else None
  end.

(** [Object.keys(v).length]; [Object.keys(null)] throws. *)
Definition Object_keys_length (v : json) : option nat :=
  match v with
  | JNull => None
  | JObj fs => Some (length fs)
  | JArr xs => Some (length xs)
  | JStr s => Some (String.length s)
  | JBool _ | JNum _ => Some 0%nat
  end.

(** Lines 26-40, from [var isProjection = true] to the assignment: the pair
    of the new [query] and the new [options.select]; [None] when something
    in between throws. *)
Definition interpret_filter (filterParam : json) : option (json * option json) :=
  match scan_projection (hasOwnProperty_callable filterParam) (own_values filterParam) with
  | None => None
  | Some false => Some (filterParam, None)
  | Some true =>
      match Object_keys_length filterParam with
      | None => None
      | Some n =>
          if (0 <? n)%nat then Some (JObj [], Some filterParam)
          else Some (filterParam, None)
      end
  end.

Section Interpreter.

(** The two JSON builtins.  [JSON_parse s = None] when [JSON.parse(s)]
    throws. *)
Variable JSON_parse : string -> option json.
Variable JSON_stringify : json -> string.

(** Lines 10-44: the [where] / [filter] block. *)
Definition parse_where_filter (q : Query) : string + (json * Options) :=
  if truthy_q (q_where q) then
    let whereParam :=
      match q_where q with
      | Some (QStr s) => s
      | Some (QParsed v) => JSON_stringify v
      | None => ""
      end in
    match JSON_parse whereParam with
    | Some v => inr (v, no_options)
    | None => inl "Invalid where parameter. Must be valid JSON."
    end
  else if truthy_q (q_filter q) then
    let filterParam :=
      match q_filter q with
      | Some (QStr s) => JSON_parse s
      | Some (QParsed v) => Some v
      | None => None
      end in
    match filterParam ≫= interpret_filter with
    | Some (qry, sel) => inr (qry, mkOptions None sel None None)
    | None => inl "Invalid filter parameter. Must be valid JSON."
    end
  else inr (JObj [], no_options).

(** Lines 47-53. *)
Definition parse_sort (q : Query) (o : Options) : string + Options :=
  if truthy_s (q_sort q) then
    match JSON_parse (default "" (q_sort q)) with
    | Some v => inr (mkOptions (Some v) (opt_select o) (opt_skip o) (opt_limit o))
    | None => inl "Invalid sort parameter. Must be valid JSON."
    end
  else inr o.

(** Lines 56-62. *)
Definition parse_select (q : Query) (o : Options) : string + Options :=
  if truthy_s (q_select q) then
    match JSON_parse (default "" (q_select q)) with
    | Some v => inr (mkOptions (opt_sort o) (Some v) (opt_skip o) (opt_limit o))
    | None => inl "Invalid select parameter. Must be valid JSON."
    end
  else inr o.

(** Lines 65-70. *)
Definition parse_skip (q : Query) (o : Options) : string + Options :=
  if truthy_s (q_skip q) then
    match parseInt (default "" (q_skip q)) with
    | Some n => inr (mkOptions (opt_sort o) (opt_select o) (Some n) (opt_limit o))
    | None => inl "Invalid skip parameter. Must be a number."
    end
  else inr o.

(** Lines 73-80. *)
Definition parse_limit (q : Query) (defaultLimit : option Z) (o : Options)
  : string + Options :=
  if truthy_s (q_limit q) then
    match parseInt (default "" (q_limit q)) with
    | Some n => inr (mkOptions (opt_sort o) (opt_select o) (opt_skip o) (Some n))
    | None => inl "Invalid limit parameter. Must be a number."
    end
  else
    match defaultLimit with
    | Some d => inr (mkOptions (opt_sort o) (opt_select o) (opt_skip o) (Some d))
    | None => inr o
    end.

(** Line 83: [req.query.count === 'true']. *)
Definition parse_count (q : Query) : bool :=
  match q_count q with
  | Some s => String.eqb s "true"
  | None => false
  end.

Definition parseQueryParams (q : Query) (defaultLimit : option Z) : ParseResult :=
  match parse_where_filter q with
  | inl e => inl e
  | inr (qry, o0) =>
      match parse_sort q o0 with
      | inl e => inl e
      | inr o1 =>
          match parse_select q o1 with
          | inl e => inl e
          | inr o2 =>
              match parse_skip q o2 with
              | inl e => inl e
              | inr o3 =>
                  match parse_limit q defaultLimit o3 with
                  | inl e => inl e
                  | inr o4 => inr (mkParsed qry o4 (parse_count q))
                  end
              end
          end
      end
  end.

End Interpreter.

(* ===================================================================== *)
(** ** Documents, responses and the store *)
(* ===================================================================== *)

(** Modelled from the spec: the mongoose schemas [models/user.js] and
    [models/task.js] are not among the sources.  The fields are those of the
    data model in the specification; ids are kept as the strings that
    [_id.toString()] gives, and the empty string is the "unassigned"
    sentinel of [assignedUser]. *)
Record User : Type := mkUser {
  u_id : string;
  u_name : string;
  email : string;
  pendingTasks : list string;
  u_dateCreated : Z
}.

(** Modelled from the spec: [models/task.js], as for [User]; [assignedUser]
    is the id of a user or the empty string, [assignedUserName] the cached
    name or "unassigned". *)
Record Task : Type := mkTask {
  t_id : string;
  t_name : string;
  description : string;
  deadline : string;
  completed : bool;
  assignedUser : string;
  assignedUserName : string;
  t_dateCreated : Z
}.

(** [res.status(c).json({ message, data })] and [res.status(c).send()]. *)
Inductive Payload : Type :=
| PNull
| PString (s : string)
| PTask (t : Task)
| PUser (u : User).

Inductive Response : Type :=
| Json (status : nat) (message : string) (data : Payload)
| Send (status : nat).

Definition status_of (r : Response) : nat :=
  match r with
  | Json c _ _ => c
  | Send c => c
  end.

Definition sendSuccess (statusCode : nat) (message : string) (data : Payload) : Response :=
  Json statusCode message data.

(** [data || null]: a missing or empty [err.message] is sent as [null]. *)
Definition sendError (statusCode : nat) (message : string) (data : option string) : Response :=
  Json statusCode message
       (match data with
        | Some s => if String.eqb s "" then PNull else PString s
        | None => PNull
        end).

(* --------------------------------------------------------------------- *)
(** *** The GET list handlers *)
(* --------------------------------------------------------------------- *)

Inductive Model : Type := UserModel | TaskModel.

(** The mongoose query object the handler builds before it hands it to the
    store with [exec()] or [countDocuments()]. *)
Record MongooseQuery : Type := mkMongooseQuery {
  mq_model : Model;
  mq_conditions : json;
  mq_sort : option json;
  mq_select : option json;
  mq_skip : option Z;
  mq_limit : option Z;
  mq_countDocuments : bool
}.

(** [if (x) mongooseQuery.f(x)]: the setter runs only on a truthy value. *)
Definition if_truthy {A} (t : A -> bool) (x : option A) : option A :=
  match x with
  | Some a => if t a then Some a else None
  | None => None
  end.

Definition nonzero (n : Z) : bool := negb (n =? 0).

Definition build_query (m : Model) (p : Parsed) : MongooseQuery :=
  {| mq_model := m;
     mq_conditions := query p;
     mq_sort := if_truthy truthy (opt_sort (options p));
     mq_select := if_truthy truthy (opt_select (options p));
     mq_skip := if_truthy nonzero (opt_skip (options p));
     mq_limit := if_truthy nonzero (opt_limit (options p));
     mq_countDocuments := count p |}.

Section ListHandlers.

Variable JSON_parse : string -> option json.
Variable JSON_stringify : json -> string.

(** [GET /api/tasks], up to the query it runs: a 400 answer, or the query
    given to the store. *)
Definition get_tasks (q : Query) : Response + MongooseQuery :=
  match parseQueryParams JSON_parse JSON_stringify q (Some 100) with
  | inl e => inl (sendError 400 e None)
  | inr parsed => inr (build_query TaskModel parsed)
  end.

(** [GET /api/users]: the same with [defaultLimit] undefined. *)
Definition get_users (q : Query) : Response + MongooseQuery :=
  match parseQueryParams JSON_parse JSON_stringify q None with
  | inl e => inl (sendError 400 e None)
  | inr parsed => inr (build_query UserModel parsed)
  end.

End ListHandlers.

(* --------------------------------------------------------------------- *)
(** *** The store and its promises *)
(* --------------------------------------------------------------------- *)

(** What a store call rejects with: [err.code] and [err.message]. *)
Record StoreError : Type := mkStoreError {
  code : option Z;
  message : string
}.

(** The two collections, and what the store is going to do with the calls
    to come: the head of [faults] decides the next call ([Some e] rejects it
    with [e]); once the list is used up every call succeeds. *)
Record World : Type := mkWorld {
  users : gmap string User;
  tasks : gmap string Task;
  faults : list (option StoreError)
}.

Inductive Outcome (A : Type) : Type :=
| Resolved (a : A)
| Rejected (e : StoreError).
Arguments Resolved {A} a.
Arguments Rejected {A} e.

(** A promise chain, run to its settlement against the store. *)
Definition Promise (A : Type) : Type := World -> Outcome A * World.

Definition resolve {A} (a : A) : Promise A := fun w => (Resolved a, w).

(** [p.then(k)] *)
Definition then_ {A B} (p : Promise A) (k : A -> Promise B) : Promise B :=
  fun w =>
    match p w with
    | (Resolved a, w') => k a w'
    | (Rejected e, w') => (Rejected e, w')
    end.

(** [p.catch(h)] *)
Definition catch_ {A} (p : Promise A) (h : StoreError -> Promise A) : Promise A :=
  fun w =>
    match p w with
    | (Resolved a, w') => (Resolved a, w')
    | (Rejected e, w') => h e w'
    end.

Declare Scope promise_scope.
Delimit Scope promise_scope with promise.
Notation "x <- p ;; k" := (then_ p (fun x => k))
  (at level 100, p at next level, right associativity) : promise_scope.
Notation "p ;; k" := (then_ p (fun _ => k))
  (at level 100, right associativity) : promise_scope.

(** [Promise.all(ps)].  The element promises were all started when the list
    was built, so each of them runs to its end whether or not another one
    rejects.  In the running system the store calls of the chains can
    interleave and [Promise.all] reports the rejection that comes first in
    time.  Here the store serves the chains one after the other, in list
    order, which is one of the orders it can take: the entries of [faults]
    go to the calls in that order, and the first rejection in it is the one
    reported.  Without a rejection every order ends in the same store for
    the batches of the handlers, and no statement below speaks of which of
    several rejections in one batch is the one reported. *)
Fixpoint Promise_all {A} (ps : list (Promise A)) : Promise (list A) :=
  fun w =>
    match ps with
    | [] => (Resolved [], w)
    | p :: rest =>
        let '(r, w1) := p w in
        let '(rs, w2) := Promise_all rest w1 in
        (match r, rs with
         | Rejected e, _ => Rejected e
         | Resolved _, Rejected e => Rejected e
         | Resolved a, Resolved l => Resolved (a :: l)
         end, w2)
    end.

(** One call to the store: it takes the next entry of [faults]. *)
Definition store_call {A} (op : World -> A * World) : Promise A :=
  fun w =>
    match faults w with
    | Some e :: rest => (Rejected e, mkWorld (users w) (tasks w) rest)
    | None :: rest =>
        let '(a, w') := op (mkWorld (users w) (tasks w) rest) in (Resolved a, w')
    | [] => let '(a, w') := op w in (Resolved a, w')
    end.

Definition User_findById (id : string) : Promise (option User) :=
  store_call (fun w => (users w !! id, w)).

Definition Task_findById (id : string) : Promise (option Task) :=
  store_call (fun w => (tasks w !! id, w)).

(** [doc.save()] writes the document under its [_id] and resolves with it. *)
Definition User_save (u : User) : Promise User :=
  store_call (fun w => (u, mkWorld (<[u_id u := u]> (users w)) (tasks w) (faults w))).

Definition Task_save (t : Task) : Promise Task :=
  store_call (fun w => (t, mkWorld (users w) (<[t_id t := t]> (tasks w)) (faults w))).

Definition User_findByIdAndDelete (id : string) : Promise unit :=
  store_call (fun w => (tt, mkWorld (delete id (users w)) (tasks w) (faults w))).

Definition Task_findByIdAndDelete (id : string) : Promise unit :=
  store_call (fun w => (tt, mkWorld (users w) (delete id (tasks w)) (faults w))).

(** [Task.updateMany({ assignedUser: uid }, { assignedUserName: newName })] *)
Definition rename_assigned (uid newName : string) (t : Task) : Task :=
  if String.eqb (assignedUser t) uid
  then mkTask (t_id t) (t_name t) (description t) (deadline t) (completed t)
              (assignedUser t) newName (t_dateCreated t)
  else t.

Definition Task_updateMany_assignedUserName (uid newName : string) : Promise unit :=
  store_call (fun w =>
    (tt, mkWorld (users w) (rename_assigned uid newName <$> tasks w) (faults w))).

(** A route handler: the response it sends and the store it leaves. *)
Definition Handler : Type := World -> Response * World.

(** The [.catch] that ends a handler's chain and turns a rejection into an
    error response. *)
Definition respond (p : Promise Response) (on_error : StoreError -> Response) : Handler :=
  fun w =>
    match p w with
    | (Resolved r, w') => (r, w')
    | (Rejected e, w') => (on_error e, w')
    end.

(* ===================================================================== *)
(** ** The task routes: [routes/tasks.js] *)
(* ===================================================================== *)

Local Open Scope promise_scope.

(** [req.body] of a task request.  The string fields are absent or strings;
    [completed] is any JSON value, since the handlers coerce it themselves. *)
Record TaskBody : Type := mkTaskBody {
  tb_name : option string;
  tb_description : option string;
  tb_deadline : option string;
  tb_completed : option json;
  tb_assignedUser : option string;
  tb_assignedUserName : option string
}.

(** [req.body.completed === true || req.body.completed === 'true' || false] *)
Definition coerce_completed (v : option json) : bool :=
  match v with
  | Some (JBool b) => b
  | Some (JStr s) => String.eqb s "true"
  | _ => false
  end.

(** [x && x !== "" && (!req.body.assignedUserName ||
    req.body.assignedUserName === "unassigned")] *)
Definition wants_user_name (assigned : string) (b : TaskBody) : bool :=
  bool_decide (assigned ≠ "")
  && (negb (truthy_s (tb_assignedUserName b))
      || bool_decide (tb_assignedUserName b = Some "unassigned")).

(** The [fetchUserNamePromise] of POST and PUT: it settles the name to store,
    and never rejects. *)
Definition fetchUserName (assigned : string) (b : TaskBody) : Promise string :=
  if wants_user_name assigned b then
    catch_ (user <- User_findById assigned ;;
            resolve (match user with
                     | Some u => u_name u
                     | None => "unassigned"
                     end))
           (fun _ => resolve "unassigned")
  else resolve (or_default (tb_assignedUserName b) "unassigned").

Definition set_pendingTasks (l : list string) (u : User) : User :=
  mkUser (u_id u) (u_name u) (email u) l (u_dateCreated u).

(** [User.findById(uid)], then [push] and [save] unless the id is there
    already; a missing user is passed over. *)
Definition push_pending (uid taskId : string) : Promise unit :=
  user <- User_findById uid ;;
  match user with
  | Some u =>
      if decide (taskId ∈ pendingTasks u) then resolve tt
      else (_ <- User_save (set_pendingTasks (pendingTasks u ++ [taskId]) u) ;;
            resolve tt)
  | None => resolve tt
  end.

(** [User.findById(uid)], then [filter] the id away and [save]. *)
Definition pull_pending (uid taskId : string) : Promise unit :=
  user <- User_findById uid ;;
  match user with
  | Some u =>
      _ <- User_save (set_pendingTasks
                        (filter (fun id => id ≠ taskId) (pendingTasks u)) u) ;;
      resolve tt
  | None => resolve tt
  end.

Definition missing_name_or_deadline (b : TaskBody) : bool :=
  negb (truthy_s (tb_name b)) || negb (truthy_s (tb_deadline b)).

(** POST /api/tasks, the callback that receives [savedTask] (lines 176-195).
    Its inner chain has a [catch] of its own, which answers 201 as well. *)
Definition post_tasks_saved (savedTask : Task) : Promise Response :=
  let created := sendSuccess 201 "Task created successfully" (PTask savedTask) in
  if bool_decide (assignedUser savedTask ≠ "") && negb (completed savedTask) then
    catch_ (_ <- push_pending (assignedUser savedTask) (t_id savedTask) ;;
            resolve created)
           (fun _ => resolve created)
  else resolve created.

(** POST /api/tasks.  [newId] and [now] are the [_id] and the [dateCreated]
    that [new Task()] gives the document. *)
Definition post_tasks (b : TaskBody) (newId : string) (now : Z) : Handler :=
  if missing_name_or_deadline b then
    fun w => (sendError 400 "Task must have a name and deadline" None, w)
  else
    let assigned := or_default (tb_assignedUser b) "" in
    respond
      (userName <- fetchUserName assigned b ;;
       savedTask <- Task_save
         (mkTask newId (default "" (tb_name b))
                 (or_default (tb_description b) "")
                 (default "" (tb_deadline b))
                 (coerce_completed (tb_completed b))
                 assigned userName now) ;;
       post_tasks_saved savedTask)
      (fun err => sendError 500 "Error creating task" (Some (message err))).

(** PUT /api/tasks/:id, the callback that receives [updatedTask]
    (lines 267-310).  A rejection in it reaches the handler's final [catch]. *)
Definition put_tasks_saved (oldAssignedUser : string) (oldCompleted : bool)
    (newAssignedUser : string) (newCompleted : bool) (updatedTask : Task)
  : Promise Response :=
  let taskId := t_id updatedTask in
  let updated := sendSuccess 200 "Task updated successfully" (PTask updatedTask) in
  if bool_decide (oldAssignedUser ≠ "")
     && (bool_decide (oldAssignedUser ≠ newAssignedUser)
         || (newCompleted && negb oldCompleted))
  then
    _ <- pull_pending oldAssignedUser taskId ;;
    _ <- (if bool_decide (newAssignedUser ≠ "") && negb newCompleted
          then push_pending newAssignedUser taskId
          else resolve tt) ;;
    resolve updated
  else if bool_decide (newAssignedUser ≠ "") && negb newCompleted
          && bool_decide (oldAssignedUser ≠ newAssignedUser)
  then
    _ <- push_pending newAssignedUser taskId ;;
    resolve updated
  else resolve updated.

(** PUT /api/tasks/:id *)
Definition put_tasks (id : string) (b : TaskBody) : Handler :=
  if missing_name_or_deadline b then
    fun w => (sendError 400 "Task must have a name and deadline" None, w)
  else
    respond
      (found <- Task_findById id ;;
       match found with
       | None => resolve (sendError 404 "Task not found" None)
       | Some task =>
           let oldAssignedUser := assignedUser task in
           let oldCompleted := completed task in
           let newAssignedUser := or_default (tb_assignedUser b) "" in
           let newCompleted := coerce_completed (tb_completed b) in
           newAssignedUserName <- fetchUserName newAssignedUser b ;;
           updatedTask <- Task_save
             (mkTask (t_id task) (default "" (tb_name b))
                     (or_default (tb_description b) "")
                     (default "" (tb_deadline b))
                     newCompleted newAssignedUser newAssignedUserName
                     (t_dateCreated task)) ;;
           put_tasks_saved oldAssignedUser oldCompleted
                           newAssignedUser newCompleted updatedTask
       end)
      (fun err => sendError 500 "Error updating task" (Some (message err))).

(** DELETE /api/tasks/:id *)
Definition delete_tasks (id : string) : Handler :=
  respond
    (found <- Task_findById id ;;
     match found with
     | None => resolve (sendError 404 "Task not found" None)
     | Some task =>
         let taskId := t_id task in
         if bool_decide (assignedUser task ≠ "") then
           _ <- pull_pending (assignedUser task) taskId ;;
           _ <- Task_findByIdAndDelete taskId ;;
           resolve (Send 204)
         else
           _ <- Task_findByIdAndDelete taskId ;;
           resolve (Send 204)
     end)
    (fun err => sendError 500 "Error deleting task" (Some (message err))).

(* ===================================================================== *)
(** ** The user routes *)
(* ===================================================================== *)

Record UserBody : Type := mkUserBody {
  ub_name : option string;
  ub_email : option string;
  ub_pendingTasks : option (list string)
}.

Definition missing_name_or_email (b : UserBody) : bool :=
  negb (truthy_s (ub_name b)) || negb (truthy_s (ub_email b)).

Definition set_assignment (uid uname : string) (t : Task) : Task :=
  mkTask (t_id t) (t_name t) (description t) (deadline t) (completed t)
         uid uname (t_dateCreated t).

(** [Task.findById(taskId)], then point the task at [user] and [save]; a
    missing task is passed over. *)
Definition assign_task (user : User) (taskId : string) : Promise unit :=
  found <- Task_findById taskId ;;
  match found with
  | Some task => _ <- Task_save (set_assignment (u_id user) (u_name user) task) ;;
                 resolve tt
  | None => resolve tt
  end.

(** The same with [assignedUser = ""] and [assignedUserName = "unassigned"]. *)
Definition unassign_task (taskId : string) : Promise unit :=
  found <- Task_findById taskId ;;
  match found with
  | Some task => _ <- Task_save (set_assignment "" "unassigned" task) ;;
                 resolve tt
  | None => resolve tt
  end.

Definition duplicate_key (err : StoreError) : bool :=
  bool_decide (code err = Some 11000).

(** POST /api/users, the callback that receives [savedUser] (lines 178-198). *)
Definition post_users_saved (savedUser : User) : Promise Response :=
  let created := sendSuccess 201 "User created successfully" (PUser savedUser) in
  if (0 <? length (pendingTasks savedUser))%nat then
    catch_ (_ <- Promise_all (map (assign_task savedUser) (pendingTasks savedUser)) ;;
            resolve created)
           (fun err => resolve (sendError 500 "Error updating assigned tasks"
                                          (Some (message err))))
  else resolve created.

(** POST /api/users *)
Definition post_users (b : UserBody) (newId : string) (now : Z) : Handler :=
  if missing_name_or_email b then
    fun w => (sendError 400 "User must have a name and email" None, w)
  else
    respond
      (savedUser <- User_save
         (mkUser newId (default "" (ub_name b)) (default "" (ub_email b))
                 (default [] (ub_pendingTasks b)) now) ;;
       post_users_saved savedUser)
      (fun err =>
         if duplicate_key err
         then sendError 400 "User with this email already exists" None
         else sendError 500 "Error creating user" (Some (message err))).

(** PUT /api/users/:id, the callback that receives [updatedUser]
    (lines 257-300). *)
Definition put_users_saved (oldPendingTasks newPendingTasks : list string)
    (oldName newName : string) (updatedUser : User) : Promise Response :=
  let removedTasks := filter (fun taskId => taskId ∉ newPendingTasks) oldPendingTasks in
  let unassignPromises := map unassign_task removedTasks in
  let addedTasks := filter (fun taskId => taskId ∉ oldPendingTasks) newPendingTasks in
  let assignPromises := map (assign_task updatedUser) addedTasks in
  let nameUpdatePromises :=
    if bool_decide (oldName ≠ newName)
    then [Task_updateMany_assignedUserName (u_id updatedUser) newName]
    else [] in
  _ <- Promise_all (unassignPromises ++ assignPromises ++ nameUpdatePromises) ;;
  resolve (sendSuccess 200 "User updated successfully" (PUser updatedUser)).

(** PUT /api/users/:id *)
Definition put_users (id : string) (b : UserBody) : Handler :=
  if missing_name_or_email b then
    fun w => (sendError 400 "User must have a name and email" None, w)
  else
    respond
      (found <- User_findById id ;;
       match found with
       | None => resolve (sendError 404 "User not found" None)
       | Some user =>
           let oldPendingTasks := pendingTasks user in
           let oldName := u_name user in
           let newPendingTasks := default [] (ub_pendingTasks b) in
           let newName := default "" (ub_name b) in
           updatedUser <- User_save
             (mkUser (u_id user) newName (default "" (ub_email b))
                     newPendingTasks (u_dateCreated user)) ;;
           put_users_saved oldPendingTasks newPendingTasks oldName newName updatedUser
       end)
      (fun err =>
         if duplicate_key err
         then sendError 400 "User with this email already exists" None
         else sendError 500 "Error updating user" (Some (message err))).

(** DELETE /api/users/:id *)
Definition delete_users (id : string) : Handler :=
  respond
    (found <- User_findById id ;;
     match found with
     | None => resolve (sendError 404 "User not found" None)
     | Some user =>
         let userId := u_id user in
         _ <- Promise_all (map unassign_task (pendingTasks user)) ;;
         _ <- User_findByIdAndDelete userId ;;
         resolve (Send 204)
     end)
    (fun err => sendError 500 "Error deleting user" (Some (message err))).

(* ===================================================================== *)
(** ** The remaining functions of the two modules *)
(* ===================================================================== *)

(** [updateUserPendingTasks(userId, taskId, add)] of the user routes (lines
    103-120): the whole body sits in a [try] whose [catch] only logs, so the
    promise it returns never rejects. *)
Definition updateUserPendingTasks (userId taskId : string) (add : bool)
  : Promise unit :=
  catch_
    (user <- User_findById userId ;;
     match user with
     | None => resolve tt
     | Some u =>
         if add then
           if decide (taskId ∈ pendingTasks u) then resolve tt
           else (_ <- User_save (set_pendingTasks (pendingTasks u ++ [taskId]) u) ;;
                 resolve tt)
         else
           _ <- User_save (set_pendingTasks
                             (filter (fun id => id ≠ taskId) (pendingTasks u)) u) ;;
           resolve tt
     end)
    (fun _ => resolve tt).

Section ItemHandlers.

(** [JSON.parse], and what mongoose decides for a projection [v]: whether
    [query.select(v)] throws (the call sits inside the handler's [try]), and
    which document the store then returns for a stored one. *)
Variable JSON_parse : string -> option json.
Variable select_throws : json -> bool.
Variable select_task : json -> Task -> Payload.
Variable select_user : json -> User -> Payload.

(** The [select] block of the two GET-by-id handlers (lines 207-214 and
    214-221): [None] when the [catch] answers 400, else the projection to
    apply, if any. *)
Definition parse_item_select (select : option string) : option (option json) :=
  if truthy_s select then
    match JSON_parse (default "" select) with
    | Some v => if select_throws v then None else Some (Some v)
    | None => None
    end
  else Some None.

(** GET /api/tasks/:id *)
Definition get_tasks_id (id : string) (select : option string) : Handler :=
  match parse_item_select select with
  | None =>
      fun w => (sendError 400 "Invalid select parameter. Must be valid JSON." None, w)
  | Some sel =>
      respond
        (found <- Task_findById id ;;
         match found with
         | None => resolve (sendError 404 "Task not found" None)
         | Some task =>
             resolve (sendSuccess 200 "OK"
                        (match sel with
                         | Some v => select_task v task
                         | None => PTask task
                         end))
         end)
        (fun err => sendError 500 "Error retrieving task" (Some (message err)))
  end.

(** GET /api/users/:id *)
Definition get_users_id (id : string) (select : option string) : Handler :=
  match parse_item_select select with
  | None =>
      fun w => (sendError 400 "Invalid select parameter. Must be valid JSON." None, w)
  | Some sel =>
      respond
        (found <- User_findById id ;;
         match found with
         | None => resolve (sendError 404 "User not found" None)
         | Some user =>
             resolve (sendSuccess 200 "OK"
                        (match sel with
                         | Some v => select_user v user
                         | None => PUser user
                         end))
         end)
        (fun err => sendError 500 "Error retrieving user" (Some (message err)))
  end.

End ItemHandlers.

(* ===================================================================== *)
(** ** The router *)
(* ===================================================================== *)

(** The requests that change the store, as the two modules register them on
    the router. *)
Inductive Request : Type :=
| PostTasks (b : TaskBody) (newId : string) (now : Z)
| PutTasks (id : string) (b : TaskBody)
| DeleteTasks (id : string)
| PostUsers (b : UserBody) (newId : string) (now : Z)
| PutUsers (id : string) (b : UserBody)
| DeleteUsers (id : string).

Definition handle (req : Request) : Handler :=
  match req with
  | PostTasks b newId now => post_tasks b newId now
  | PutTasks id b => put_tasks id b
  | DeleteTasks id => delete_tasks id
  | PostUsers b newId now => post_users b newId now
  | PutUsers id b => put_users id b
  | DeleteUsers id => delete_users id
  end.

(* ===================================================================== *)
(** ** Properties of a store *)
(* ===================================================================== *)

(** Every document is filed under its own [_id]. *)
Definition ids_coherent (w : World) : Prop :=
  (∀ k u, users w !! k = Some u → u_id u = k)
  ∧ (∀ k t, tasks w !! k = Some t → t_id t = k).

(** The first invariant of the data model: a task that is assigned and not
    completed is listed in the [pendingTasks] of the user it names. *)
Definition pending_invariant (w : World) : Prop :=
  ∀ k t, tasks w !! k = Some t →
    assignedUser t ≠ "" → completed t = false →
    ∃ u, users w !! assignedUser t = Some u ∧ t_id t ∈ pendingTasks u.

(** No store call between [w] and [w'] was rejected: the entries of [faults]
    used up in between are all [None]. *)
Definition fault_free (w w' : World) : Prop :=
  ∃ used, faults w = (used ++ faults w')%list ∧ Forall (fun f => f = None) used.

(** A promise that leaves the tasks collection as it found it, however it
    settles. *)
Definition keeps_tasks {A} (p : Promise A) : Prop :=
  ∀ w r w', p w = (r, w') → tasks w' = tasks w.

(** A promise that can only resolve after store calls that all succeeded. *)
Definition surfacing {A} (p : Promise A) : Prop :=
  ∀ w a w', p w = (Resolved a, w') → fault_free w w'.

(** The name [fetchUserNamePromise] settles on when the store answers. *)
Definition fetched_name (assigned : string) (b : TaskBody) (us : gmap string User)
  : string :=
  if wants_user_name assigned b then
    match us !! assigned with
    | Some u => u_name u
    | None => "unassigned"
    end
  else or_default (tb_assignedUserName b) "unassigned".

(** The document POST /api/tasks saves, and the one PUT /api/tasks/:id saves
    over [task]. *)
Definition new_task (b : TaskBody) (newId : string) (now : Z) (us : gmap string User)
  : Task :=
  let assigned := or_default (tb_assignedUser b) "" in
  mkTask newId (default "" (tb_name b)) (or_default (tb_description b) "")
         (default "" (tb_deadline b)) (coerce_completed (tb_completed b))
         assigned (fetched_name assigned b us) now.

Definition updated_task (b : TaskBody) (task : Task) (us : gmap string User) : Task :=
  let assigned := or_default (tb_assignedUser b) "" in
  mkTask (t_id task) (default "" (tb_name b)) (or_default (tb_description b) "")
         (default "" (tb_deadline b)) (coerce_completed (tb_completed b))
         assigned (fetched_name assigned b us) (t_dateCreated task).

(** [taskId] is in the [pendingTasks] of the user filed under [uid]. *)
Definition listed (us : gmap string User) (uid taskId : string) : Prop :=
  ∃ u, us !! uid = Some u ∧ taskId ∈ pendingTasks u.

(** A task body that asks for a pending assignment names a user of the
    store. *)
Definition names_user (w : World) (b : TaskBody) : Prop :=
  or_default (tb_assignedUser b) "" = ""
  ∨ coerce_completed (tb_completed b) = true
  ∨ is_Some (users w !! or_default (tb_assignedUser b) "").

(** PUT /api/tasks/:id that takes a completed task back to not completed and
    leaves it with the user it has. *)
Definition reopens (w : World) (id : string) (b : TaskBody) : Prop :=
  ∃ task, tasks w !! id = Some task
          ∧ completed task = true
          ∧ coerce_completed (tb_completed b) = false
          ∧ assignedUser task ≠ ""
          ∧ assignedUser task = or_default (tb_assignedUser b) "".

(** The requests after which the invariant is shown to hold: a task is not
    assigned to a user that does not exist, a new user gets an unused id,
    and no request reopens a task. *)
Definition regular (w : World) (req : Request) : Prop :=
  match req with
  | PostTasks b _ _ => names_user w b
  | PutTasks id b => names_user w b ∧ ¬ reopens w id b
  | PostUsers _ newId _ => users w !! newId = None
  | DeleteTasks _ | PutUsers _ _ | DeleteUsers _ => True
  end.

(** A store at rest: nothing pending in [faults], documents filed under
    their ids, and the invariant of pending tasks. *)
Definition settled (w : World) : Prop :=
  faults w = [] ∧ ids_coherent w ∧ pending_invariant w.

(** The effect of the two list updates on the users collection. *)
Definition pushed (uid taskId : string) (us : gmap string User) : gmap string User :=
  match us !! uid with
  | Some u =>
      if decide (taskId ∈ pendingTasks u) then us
      else <[u_id u := set_pendingTasks (pendingTasks u ++ [taskId]) u]> us
  | None => us
  end.

Definition pulled (uid taskId : string) (us : gmap string User) : gmap string User :=
  match us !! uid with
  | Some u =>
      <[u_id u := set_pendingTasks
                    (filter (fun id => id ≠ taskId) (pendingTasks u)) u]> us
  | None => us
  end.

(** The effect of [assign_task] and [unassign_task] on the tasks collection. *)
Definition reassigned (uid uname taskId : string) (ts : gmap string Task)
  : gmap string Task :=
  match ts !! taskId with
  | Some t => <[t_id t := set_assignment uid uname t]> ts
  | None => ts
  end.

(** [unassign_task] over a list of ids, one after the other. *)
Definition unassigned_all (l : list string) (ts : gmap string Task)
  : gmap string Task :=
  foldl (fun acc taskId => reassigned "" "unassigned" taskId acc) ts l.

Definition assigned_all (user : User) (l : list string) (ts : gmap string Task)
  : gmap string Task :=
  foldl (fun acc taskId => reassigned (u_id user) (u_name user) taskId acc) ts l.

(** A promise that leaves the users collection as it found it. *)
Definition keeps_users {A} (p : Promise A) : Prop :=
  ∀ w r w', p w = (r, w') → users w' = users w.

(* ===================================================================== *)
(** ** Requests and stores used in the examples *)
(* ===================================================================== *)

(** A [JSON.parse] that knows the listed texts and throws on every other
    one: enough to run the interpreter on a given request. *)
Definition parse_from (table : list (string * json)) (s : string) : option json :=
  snd <$> List.find (fun kv => String.eqb (fst kv) s) table.

Definition stringify_const (v : json) : string := "null".

Definition no_query : Query := mkQuery None None None None None None None.

Definition with_where (v : option qvalue) (q : Query) : Query :=
  mkQuery v (q_filter q) (q_sort q) (q_select q) (q_skip q) (q_limit q) (q_count q).

Definition with_filter (v : option qvalue) (q : Query) : Query :=
  mkQuery (q_where q) v (q_sort q) (q_select q) (q_skip q) (q_limit q) (q_count q).

Definition with_skip (v : option string) (q : Query) : Query :=
  mkQuery (q_where q) (q_filter q) (q_sort q) (q_select q) v (q_limit q) (q_count q).

Definition with_limit (v : option string) (q : Query) : Query :=
  mkQuery (q_where q) (q_filter q) (q_sort q) (q_select q) (q_skip q) v (q_count q).

Definition double_quote : string := String (ascii_of_nat 34) EmptyString.

Definition quoted (s : string) : string := double_quote +:+ s +:+ double_quote.

(** The text [{"hasOwnProperty":1}] and its value. *)
Definition shadow_text : string := "{" +:+ quoted "hasOwnProperty" +:+ ":1}".
Definition shadow_object : json := JObj [("hasOwnProperty", JNum 1)].

(** The text [{"name":1,"email":0}] and its value. *)
Definition fields_text : string :=
  "{" +:+ quoted "name" +:+ ":1," +:+ quoted "email" +:+ ":0}".
Definition fields_object : json := JObj [("name", JNum 1); ("email", JNum 0)].

(** The text [{"completed":true}] and its value. *)
Definition done_text : string := "{" +:+ quoted "completed" +:+ ":true}".
Definition done_object : json := JObj [("completed", JBool true)].

Definition sample_parse : string -> option json :=
  parse_from [(shadow_text, shadow_object); (fields_text, fields_object);
              (done_text, done_object); ("{}", JObj [])].

(** Two users, two tasks, and a rejection of the store. *)
Definition ann : User := mkUser "u1" "Ann" "ann@example.org" [] 0.
Definition bob : User := mkUser "u2" "Bob" "bob@example.org" [] 0.

Definition report : Task :=
  mkTask "t1" "Write report" "" "2025-01-01" false "" "unassigned" 0.
Definition review : Task :=
  mkTask "t2" "Review report" "" "2025-02-01" false "" "unassigned" 0.

Definition connection_lost : StoreError := mkStoreError None "connection lost".

(** Ann with one finished task that is still assigned to her. *)
Definition finished_store : World :=
  mkWorld {[ "u1" := ann ]}
          {[ "t1" := mkTask "t1" "Write report" "" "2025-01-01" true "u1" "Ann" 0 ]}
          [].

(** The body that reopens that task and leaves it with Ann. *)
Definition reopen_body : TaskBody :=
  mkTaskBody (Some "Write report") None (Some "2025-01-01")
             (Some (JBool false)) (Some "u1") None.

(** Ann with one pending task, and Bob with none. *)
Definition busy_store : World :=
  mkWorld (<[ "u1" := set_pendingTasks ["t1"] ann ]> {[ "u2" := bob ]})
          {[ "t1" := set_assignment "u1" "Ann" report ]}
          [].

(** The body that hands that task to Bob. *)
Definition to_bob_body : TaskBody :=
  mkTaskBody (Some "Write report") None (Some "2025-01-01")
             None (Some "u2") None.

(** Ann with two pending tasks. *)
Definition two_tasks_store : World :=
  mkWorld {[ "u1" := set_pendingTasks ["t1"; "t2"] ann ]}
          (<[ "t1" := set_assignment "u1" "Ann" report ]>
             {[ "t2" := set_assignment "u1" "Ann" review ]})
          [].

(** A store with one unassigned task in which the third call is rejected. *)
Definition failing_store : World :=
  mkWorld ∅ {[ "t1" := report ]} [None; None; Some connection_lost].

Definition with_faults (fs : list (option StoreError)) (w : World) : World :=
  mkWorld (users w) (tasks w) fs.

(** The body that keeps Ann as she is and empties her list. *)
Definition ann_body : UserBody :=
  mkUserBody (Some "Ann") (Some "ann@example.org") (Some []).

Definition carol_body : UserBody :=
  mkUserBody (Some "Carol") (Some "carol@example.org") (Some ["t1"]).

(** The body that renames Ann and keeps her list. *)
Definition anna_body : UserBody :=
  mkUserBody (Some "Anna") (Some "ann@example.org") (Some ["t1"]).

(** The rejection of a save that breaks the unique index on [email]. *)
Definition duplicate_email : StoreError :=
  mkStoreError (Some 11000) "E11000 duplicate key error".

(** The status codes each route can answer with. *)
Definition statuses (req : Request) : list nat :=
  match req with
  | PostTasks _ _ _ => [201; 400; 500]
  | PutTasks _ _ => [200; 400; 404; 500]
  | DeleteTasks _ => [204; 404; 500]
  | PostUsers _ _ _ => [201; 400; 500]
  | PutUsers _ _ => [200; 400; 404; 500]
  | DeleteUsers _ => [204; 404; 500]
  end%nat.

(** A chain that, when it resolves, resolves with one of the statuses [S]. *)
Definition resolves_in (S : list nat) (p : Promise Response) : Prop :=
  ∀ w r w', p w = (Resolved r, w') → status_of r ∈ S.

(** The messages [parseQueryParams] can return under [error]. *)
Definition parse_errors : list string :=
  [ "Invalid where parameter. Must be valid JSON.";
    "Invalid filter parameter. Must be valid JSON.";
    "Invalid sort parameter. Must be valid JSON.";
    "Invalid select parameter. Must be valid JSON.";
    "Invalid skip parameter. Must be a number.";
    "Invalid limit parameter. Must be a number." ].

Definition with_sort (v : option string) (q : Query) : Query :=
  mkQuery (q_where q) (q_filter q) v (q_select q) (q_skip q) (q_limit q) (q_count q).

Definition with_select (v : option string) (q : Query) : Query :=
  mkQuery (q_where q) (q_filter q) (q_sort q) v (q_skip q) (q_limit q) (q_count q).

(** A second table of texts: [null], [[1,0]], [{"name":1,"email":0}] and
    [{"completed":true}]. *)
Definition sample_values : string -> option json :=
  parse_from [("null", JNull); ("[1,0]", JArr [JNum 1; JNum 0]);
              (fields_text, fields_object); (done_text, done_object)].

(** A promise that leaves every document filed under its own id, however
    it settles. *)
Definition keeps_coherent {A} (p : Promise A) : Prop :=
  ∀ w r w', ids_coherent w → p w = (r, w') → ids_coherent w'.

(** The second invariant of the data model, the converse of the first: an
    id in a user's [pendingTasks] is the id of a task that is assigned to
    that user and not completed. *)
Definition listing_invariant (w : World) : Prop :=
  ∀ k u taskId, users w !! k = Some u → taskId ∈ pendingTasks u →
    k ≠ "" ∧ ∃ t, tasks w !! taskId = Some t
                  ∧ assignedUser t = k ∧ completed t = false.

(** The requests that cannot put a wrong id into a list: a task is created
    under an id that is free, and a user request lists no task the user did
    not list before. *)
Definition list_safe (w : World) (req : Request) : Prop :=
  match req with
  | PostTasks _ newId _ => tasks w !! newId = None
  | PostUsers b _ _ => default [] (ub_pendingTasks b) = []
  | PutUsers id b =>
      ∀ u taskId, users w !! id = Some u →
        taskId ∈ default [] (ub_pendingTasks b) → taskId ∈ pendingTasks u
  | PutTasks _ _ | DeleteTasks _ | DeleteUsers _ => True
  end.


(** A task without its assignment, and a user without the list: what is
    left of a document when the fields of the cross reference are blanked. *)
Definition without_assignment (t : Task) : Task := set_assignment "" "" t.
Definition without_list (u : User) : User := set_pendingTasks [] u.

(** A promise that, however it settles, neither adds nor removes a task and
    changes at most the assignment of one; and the same for users and their
    lists. *)
Definition frames_tasks {A} (p : Promise A) : Prop :=
  ∀ w r w', ids_coherent w → p w = (r, w') →
    ids_coherent w'
    ∧ ∀ k, without_assignment <$> tasks w' !! k
           = without_assignment <$> tasks w !! k.

Definition frames_users {A} (p : Promise A) : Prop :=
  ∀ w r w', ids_coherent w → p w = (r, w') →
    ids_coherent w'
    ∧ ∀ k, without_list <$> users w' !! k = without_list <$> users w !! k.

(** What a request leaves of the collection of the other route: a user
    request the tasks up to their assignment, a task request the users up
    to their lists. *)
Definition framed (req : Request) (w w' : World) : Prop :=
  match req with
  | PostUsers _ _ _ | PutUsers _ _ | DeleteUsers _ =>
      ∀ k, without_assignment <$> tasks w' !! k
           = without_assignment <$> tasks w !! k
  | PostTasks _ _ _ | PutTasks _ _ | DeleteTasks _ =>
      ∀ k, without_list <$> users w' !! k = without_list <$> users w !! k
  end.

(** The requests of a list, served one after the other. *)
Fixpoint run (reqs : list Request) (w : World) : World :=
  match reqs with
  | [] => w
  | req :: rest => run rest (handle req w).2
  end.

(** A list of requests each of which is [regular] and [list_safe] for the
    store it meets. *)
Fixpoint admissible (reqs : list Request) (w : World) : Prop :=
  match reqs with
  | [] => True
  | req :: rest =>
      regular w req ∧ list_safe w req ∧ admissible rest (handle req w).2
  end.

(** Both invariants of the data model at once. *)
Definition consistent (w : World) : Prop := settled w ∧ listing_invariant w.

Definition empty_store : World := mkWorld ∅ ∅ [].

(** A new task for Ann, and the body that marks it completed. *)
Definition for_ann_body : TaskBody :=
  mkTaskBody (Some "Write report") None (Some "2025-01-01")
             None (Some "u1") None.

Definition done_body : TaskBody :=
  mkTaskBody (Some "Write report") None (Some "2025-01-01")
             (Some (JStr "true")) (Some "u1") None.

(** What a request leaves of its own collection: every document but the
    one of the request as it was; of that one, a POST at most creates it,
    with the new id and the date of the request, a PUT keeps the [_id] and
    the [dateCreated] and creates nothing, and a DELETE at most removes
    it. *)
Definition own_frame (req : Request) (w w' : World) : Prop :=
  match req with
  | PostTasks _ newId now =>
      (∀ k, k ≠ newId → tasks w' !! k = tasks w !! k)
      ∧ (tasks w' !! newId = tasks w !! newId
         ∨ ∃ t, tasks w' !! newId = Some t
                ∧ t_id t = newId ∧ t_dateCreated t = now)
  | PutTasks id _ =>
      (∀ k, k ≠ id → tasks w' !! k = tasks w !! k)
      ∧ match tasks w !! id with
        | Some t => ∃ t', tasks w' !! id = Some t'
                          ∧ t_id t' = t_id t
                          ∧ t_dateCreated t' = t_dateCreated t
        | None => tasks w' !! id = None
        end
  | DeleteTasks id =>
      (∀ k, k ≠ id → tasks w' !! k = tasks w !! k)
      ∧ (tasks w' !! id = tasks w !! id ∨ tasks w' !! id = None)
  | PostUsers _ newId now =>
      (∀ k, k ≠ newId → users w' !! k = users w !! k)
      ∧ (users w' !! newId = users w !! newId
         ∨ ∃ u, users w' !! newId = Some u
                ∧ u_id u = newId ∧ u_dateCreated u = now)
  | PutUsers id _ =>
      (∀ k, k ≠ id → users w' !! k = users w !! k)
      ∧ match users w !! id with
        | Some u => ∃ u', users w' !! id = Some u'
                          ∧ u_id u' = u_id u
                          ∧ u_dateCreated u' = u_dateCreated u
        | None => users w' !! id = None
        end
  | DeleteUsers id =>
      (∀ k, k ≠ id → users w' !! k = users w !! k)
      ∧ (users w' !! id = users w !! id ∨ users w' !! id = None)
  end.

(** The body of a new task for Bob that leaves the name to the server. *)
Definition for_bob_body : TaskBody :=
  mkTaskBody (Some "Review report") None (Some "2025-02-01")
             None (Some "u2") None.

(** A projection machinery that never throws and returns the whole
    document. *)
Definition whole_task (_ : json) (t : Task) : Payload := PTask t.
Definition whole_user (_ : json) (u : User) : Payload := PUser u.
Definition never_throws (_ : json) : bool := false.

(* ===================================================================== *)
(** * Properties of the query interpreter *)
(* ===================================================================== *)

Lemma truthy_s_Some (s : string) : s ≠ "" → truthy_s (Some s) = true.
Proof.
  intros Hs. unfold truthy_s.
  destruct (String.eqb_spec s ""); [contradiction | reflexivity].
Qed.

Lemma truthy_q_QStr (s : string) : s ≠ "" → truthy_q (Some (QStr s)) = true.
Proof.
  intros Hs. unfold truthy_q.
  destruct (String.eqb_spec s ""); [contradiction | reflexivity].
Qed.

(** The later blocks never touch [query]: what the [where] / [filter] block
    chose is what is returned. *)
Lemma parseQueryParams_query
    (JSON_parse : string -> option json) (JSON_stringify : json -> string)
    (q : Query) (dl : option Z) (qry : json) (o : Options) (r : Parsed) :
  parse_where_filter JSON_parse JSON_stringify q = inr (qry, o) →
  parseQueryParams JSON_parse JSON_stringify q dl = inr r →
  query r = qry.
Proof.
  intros Hwf. unfold parseQueryParams. rewrite Hwf.
  destruct (parse_sort JSON_parse q o) as [|o1]; [discriminate|].
  destruct (parse_select JSON_parse q o1) as [|o2]; [discriminate|].
  destruct (parse_skip q o2) as [|o3]; [discriminate|].
  destruct (parse_limit q dl o3) as [|o4]; [discriminate|].
  intros [= <-]. reflexivity.
Qed.

(** With nothing but [where] or [filter] in the request (and no default
    limit) the later blocks change nothing. *)
Lemma parseQueryParams_only_where_filter
    (JSON_parse : string -> option json) (JSON_stringify : json -> string)
    (q : Query) (qry : json) (o : Options) :
  q_sort q = None → q_select q = None → q_skip q = None → q_limit q = None →
  parse_where_filter JSON_parse JSON_stringify q = inr (qry, o) →
  parseQueryParams JSON_parse JSON_stringify q None
  = inr (mkParsed qry o (parse_count q)).
Proof.
  intros Hso Hse Hsk Hli Hwf.
  unfold parseQueryParams, parse_sort, parse_select, parse_skip, parse_limit.
  rewrite Hwf, Hso, Hse, Hsk, Hli. reflexivity.
Qed.

(** With a callable [hasOwnProperty] the loop is a conjunction over the
    values; the [break] only cuts it short. *)
Lemma scan_projection_callable (vals : list json) :
  scan_projection true vals = Some (forallb is_zero_or_one vals).
Proof.
  induction vals as [|v vals IH]; simpl; [reflexivity|].
  destruct (is_zero_or_one v); [exact IH | reflexivity].
Qed.

(** With the method hidden, the first iteration throws. *)
Lemma scan_projection_hidden (vals : list json) :
  vals ≠ [] → scan_projection false vals = None.
Proof. destruct vals; [contradiction | reflexivity]. Qed.

Lemma interpret_filter_object (fs : list (string * json)) :
  hasOwnProperty_callable (JObj fs) = true →
  interpret_filter (JObj fs) =
    if bool_decide (fs ≠ []) && forallb is_zero_or_one (map snd fs)
    then Some (JObj [], Some (JObj fs))
    else Some (JObj fs, None).
Proof.
  intros Hcall. unfold interpret_filter. rewrite Hcall.
  cbn [own_values Object_keys_length].
  rewrite scan_projection_callable.
  destruct fs as [|kv fs]; [reflexivity|].
  rewrite bool_decide_true by discriminate. cbn [andb].
  destruct (forallb is_zero_or_one (map snd (kv :: fs))); reflexivity.
Qed.

Lemma interpret_filter_shadowed (fs : list (string * json)) :
  fs ≠ [] →
  hasOwnProperty_callable (JObj fs) = false →
  interpret_filter (JObj fs) = None.
Proof.
  intros Hne Hcall. unfold interpret_filter. rewrite Hcall.
  cbn [own_values]. rewrite scan_projection_hidden; [reflexivity|].
  destruct fs; [contradiction | discriminate].
Qed.

(** What the [filter] block does with the text of an object none of whose
    keys is [hasOwnProperty]: a non-empty object of zeros and ones becomes
    the projection and leaves [query] at [{}]; any other object becomes
    [query] and no projection is set. *)
Lemma filter_object_semantics
    (JSON_parse : string -> option json) (JSON_stringify : json -> string)
    (q : Query) (s : string) (fs : list (string * json)) :
  truthy_q (q_where q) = false →
  q_filter q = Some (QStr s) → s ≠ "" →
  JSON_parse s = Some (JObj fs) →
  hasOwnProperty_callable (JObj fs) = true →
  parse_where_filter JSON_parse JSON_stringify q =
    if bool_decide (fs ≠ []) && forallb is_zero_or_one (map snd fs)
    then inr (JObj [], mkOptions None (Some (JObj fs)) None None)
    else inr (JObj fs, no_options).
Proof.
  intros Hw Hf Hs Hp Hcall. unfold parse_where_filter.
  rewrite Hw, Hf, (truthy_q_QStr s Hs), Hp. cbn [mbind option_bind].
  rewrite (interpret_filter_object fs Hcall).
  destruct (bool_decide (fs ≠ []) && forallb is_zero_or_one (map snd fs));
    reflexivity.
Qed.

(** The same on the whole interpreter, for a request with that [filter] and
    nothing else. *)
Lemma filter_object_result
    (JSON_parse : string -> option json) (JSON_stringify : json -> string)
    (s : string) (fs : list (string * json)) :
  s ≠ "" →
  JSON_parse s = Some (JObj fs) →
  hasOwnProperty_callable (JObj fs) = true →
  parseQueryParams JSON_parse JSON_stringify
    (with_filter (Some (QStr s)) no_query) None
  = if bool_decide (fs ≠ []) && forallb is_zero_or_one (map snd fs)
    then inr (mkParsed (JObj []) (mkOptions None (Some (JObj fs)) None None) false)
    else inr (mkParsed (JObj fs) no_options false).
Proof.
  intros Hs Hp Hcall.
  pose proof (filter_object_semantics JSON_parse JSON_stringify
                (with_filter (Some (QStr s)) no_query) s fs
                eq_refl eq_refl Hs Hp Hcall) as Hwf.
  destruct (bool_decide (fs ≠ []) && forallb is_zero_or_one (map snd fs));
    apply (parseQueryParams_only_where_filter JSON_parse JSON_stringify
             (with_filter (Some (QStr s)) no_query) _ _
             eq_refl eq_refl eq_refl eq_refl Hwf).
Qed.

(** Every object text with a key [hasOwnProperty] is answered with the
    filter error, whatever its values are. *)
Lemma filter_shadowed_object_rejected
    (JSON_parse : string -> option json) (JSON_stringify : json -> string)
    (q : Query) (dl : option Z) (s : string) (fs : list (string * json)) :
  truthy_q (q_where q) = false →
  q_filter q = Some (QStr s) → s ≠ "" →
  JSON_parse s = Some (JObj fs) →
  hasOwnProperty_callable (JObj fs) = false →
  parseQueryParams JSON_parse JSON_stringify q dl
  = inl "Invalid filter parameter. Must be valid JSON.".
Proof.
  intros Hw Hf Hs Hp Hcall.
  unfold parseQueryParams, parse_where_filter.
  rewrite Hw, Hf, (truthy_q_QStr s Hs), Hp. cbn [mbind option_bind].
  rewrite interpret_filter_shadowed; [reflexivity | | exact Hcall].
  intros ->. discriminate Hcall.
Qed.

(** C2, at the request [?filter={"hasOwnProperty":1}]: the parameter is the
    text of a non-empty object whose only value is the number 1, so it ought
    to become the projection; the interpreter answers with the filter error
    instead, because the call [filterParam.hasOwnProperty(key)] finds the
    number in place of the method and throws inside the [try]. *)
Theorem C2_filter_hasOwnProperty_key_rejected :
  sample_parse shadow_text = Some shadow_object
  ∧ forallb is_zero_or_one (own_values shadow_object) = true
  ∧ parseQueryParams sample_parse stringify_const
      (with_filter (Some (QStr shadow_text)) no_query) None
    = inl "Invalid filter parameter. Must be valid JSON.".
Proof. repeat split; vm_compute; reflexivity. Qed.

(** A truthy [where] makes the whole result independent of [filter]. *)
Lemma where_hides_filter
    (JSON_parse : string -> option json) (JSON_stringify : json -> string)
    (q : Query) (dl : option Z) (f : option qvalue) :
  truthy_q (q_where q) = true →
  parseQueryParams JSON_parse JSON_stringify (with_filter f q) dl
  = parseQueryParams JSON_parse JSON_stringify q dl.
Proof.
  intros Hw. destruct q as [w fl so se sk li co]. cbn in Hw.
  unfold parseQueryParams, parse_where_filter, with_filter.
  cbn [q_where q_filter q_sort q_select q_skip q_limit q_count].
  rewrite Hw. reflexivity.
Qed.

(** A [where] that is absent or empty is not read: the request is served as
    the one without it. *)
Lemma where_empty_as_absent
    (JSON_parse : string -> option json) (JSON_stringify : json -> string)
    (q : Query) (dl : option Z) :
  truthy_q (q_where q) = false →
  parseQueryParams JSON_parse JSON_stringify q dl
  = parseQueryParams JSON_parse JSON_stringify (with_where None q) dl.
Proof.
  intros Hw. destruct q as [w fl so se sk li co]. cbn in Hw.
  unfold parseQueryParams, parse_where_filter, with_where.
  cbn [q_where q_filter q_sort q_select q_skip q_limit q_count truthy_q].
  rewrite Hw. reflexivity.
Qed.

Lemma truthy_q_false (p : option qvalue) :
  truthy_q p = false ↔ p = None ∨ p = Some (QStr "").
Proof.
  destruct p as [[s|v]|]; cbn.
  - destruct (String.eqb_spec s "") as [->|Hs]; cbn.
    + split; auto.
    + split; [discriminate|]. intros [H|[= H]]; [discriminate H | contradiction].
  - split; [discriminate|]. intros [H|H]; discriminate H.
  - split; auto.
Qed.

(** C5, as the code has it.  A [where] that is supplied and not the empty
    text takes precedence over [filter], which is then not consulted at all;
    [where=P] makes [P] the filter predicate whatever the shape of [P]; a
    [where] that does not parse is answered with "Invalid where parameter.
    Must be valid JSON.".  A [where] that is absent or empty ([?where=]) is
    not read: the request is served as the one without it, so [filter] is
    consulted, a non-empty [filter] that does not parse is answered with
    "Invalid filter parameter. Must be valid JSON.", one that parses is
    interpreted, and an absent or empty [filter] leaves the query [{}]. *)
Theorem C5_where_before_filter
    (JSON_parse : string -> option json) (JSON_stringify : json -> string)
    (q : Query) (dl : option Z) :
  let where_text :=
    match q_where q with
    | Some (QStr s) => s
    | Some (QParsed v) => JSON_stringify v
    | None => ""
    end in
  (truthy_q (q_where q) = false
   ↔ q_where q = None ∨ q_where q = Some (QStr ""))
  ∧ (truthy_q (q_where q) = true →
     (∀ f, parseQueryParams JSON_parse JSON_stringify (with_filter f q) dl
           = parseQueryParams JSON_parse JSON_stringify q dl)
     ∧ (∀ P, JSON_parse where_text = Some P →
          parse_where_filter JSON_parse JSON_stringify q = inr (P, no_options)
          ∧ (∀ r, parseQueryParams JSON_parse JSON_stringify q dl = inr r →
                  query r = P)
          ∧ (q_sort q = None → q_select q = None →
             q_skip q = None → q_limit q = None →
             parseQueryParams JSON_parse JSON_stringify q None
             = inr (mkParsed P no_options (parse_count q))))
     ∧ (JSON_parse where_text = None →
          parseQueryParams JSON_parse JSON_stringify q dl
          = inl "Invalid where parameter. Must be valid JSON."))
  ∧ (truthy_q (q_where q) = false →
     parseQueryParams JSON_parse JSON_stringify q dl
     = parseQueryParams JSON_parse JSON_stringify (with_where None q) dl
     ∧ (∀ t, q_filter q = Some (QStr t) → t ≠ "" → JSON_parse t = None →
          parseQueryParams JSON_parse JSON_stringify q dl
          = inl "Invalid filter parameter. Must be valid JSON.")
     ∧ (∀ t v, q_filter q = Some (QStr t) → t ≠ "" → JSON_parse t = Some v →
          parse_where_filter JSON_parse JSON_stringify q
          = match interpret_filter v with
            | Some (qry, sel) => inr (qry, mkOptions None sel None None)
            | None => inl "Invalid filter parameter. Must be valid JSON."
            end)
     ∧ (truthy_q (q_filter q) = false →
          parse_where_filter JSON_parse JSON_stringify q
          = inr (JObj [], no_options))).
Proof.
  intros where_text. split; [apply truthy_q_false|]. split.
  - intros Htr. split; [|split].
    + intros f. apply where_hides_filter, Htr.
    + intros P HP.
      assert (Hwf : parse_where_filter JSON_parse JSON_stringify q
                    = inr (P, no_options)).
      { unfold parse_where_filter. rewrite Htr. fold where_text.
        rewrite HP. reflexivity. }
      split; [exact Hwf|]. split.
      * intros r Hr. eapply parseQueryParams_query; eassumption.
      * intros Hso Hse Hsk Hli.
        apply parseQueryParams_only_where_filter; assumption.
    + intros HN. unfold parseQueryParams, parse_where_filter.
      rewrite Htr. fold where_text. rewrite HN. reflexivity.
  - intros Hfalse. split; [apply where_empty_as_absent, Hfalse|].
    split; [|split].
    + intros t Hq Ht HN. unfold parseQueryParams, parse_where_filter.
      rewrite Hfalse, Hq, (truthy_q_QStr t Ht), HN. reflexivity.
    + intros t v Hq Ht Hv. unfold parse_where_filter.
      rewrite Hfalse, Hq, (truthy_q_QStr t Ht), Hv. cbn [mbind option_bind].
      destruct (interpret_filter v) as [[qry sel]|]; reflexivity.
    + intros Hf. unfold parse_where_filter. rewrite Hfalse, Hf. reflexivity.
Qed.

(** The theorem at [?where={"completed":true}&filter={"name":1,"email":0}],
    where the filter is not read, and at
    [?where=&filter={"name":1,"email":0}], where it is the projection. *)
Lemma C5_where_before_filter_witness :
  let q := with_where (Some (QStr done_text))
             (with_filter (Some (QStr fields_text)) no_query) in
  let q0 := with_where (Some (QStr ""))
              (with_filter (Some (QStr fields_text)) no_query) in
  (truthy_q (q_where q) = true ∧ truthy_q (q_where q0) = false)
  ∧ parseQueryParams sample_parse stringify_const q None
    = parseQueryParams sample_parse stringify_const
        (with_where (Some (QStr done_text)) no_query) None
  ∧ parseQueryParams sample_parse stringify_const q None
    = inr (mkParsed done_object no_options false)
  ∧ parseQueryParams sample_parse stringify_const q0 None
    = parseQueryParams sample_parse stringify_const
        (with_filter (Some (QStr fields_text)) no_query) None
  ∧ parse_where_filter sample_parse stringify_const q0
    = inr (JObj [], mkOptions None (Some fields_object) None None)
  ∧ parseQueryParams sample_parse stringify_const
      (with_filter (Some (QStr "{")) q0) None
    = inl "Invalid filter parameter. Must be valid JSON.".
Proof.
  intros q q0.
  assert (H1 : truthy_q (q_where q) = true) by reflexivity.
  assert (H2 : truthy_q (q_where q0) = false) by reflexivity.
  destruct (C5_where_before_filter sample_parse stringify_const q None)
    as (_ & Hq & _).
  destruct (Hq H1) as (Hf & HP & _).
  destruct (C5_where_before_filter sample_parse stringify_const q0 None)
    as (_ & _ & Hq0).
  destruct (Hq0 H2) as (Hab & _ & Hint & _).
  destruct (C5_where_before_filter sample_parse stringify_const
              (with_filter (Some (QStr "{")) q0) None) as (_ & _ & Hq1).
  destruct (Hq1 H2) as (_ & Herr & _).
  split; [split; assumption|].
  split; [symmetry; exact (Hf None)|].
  split; [apply (HP done_object eq_refl); reflexivity|].
  split; [exact Hab|].
  split; [exact (Hint fields_text fields_object eq_refl ltac:(discriminate) eq_refl)|].
  apply (Herr "{"); [reflexivity | discriminate | reflexivity].
Defined.

(** C5 as written fails: a [where] that is not JSON is answered with the
    message that names [where] alone, not with "Invalid where/filter
    parameter. Must be valid JSON.". *)
Lemma C5_where_error_names_where_only :
  sample_parse "{" = None
  ∧ parseQueryParams sample_parse stringify_const
      (with_where (Some (QStr "{")) no_query) None
    = inl "Invalid where parameter. Must be valid JSON."
  ∧ parseQueryParams sample_parse stringify_const
      (with_where (Some (QStr "{")) no_query) None
    ≠ inl "Invalid where/filter parameter. Must be valid JSON.".
Proof.
  split; [reflexivity|]. split; [reflexivity|].
  vm_compute. discriminate.
Qed.

(* --------------------------------------------------------------------- *)
(** ** [skip] and [limit] *)
(* --------------------------------------------------------------------- *)

(** A first character up to U+007F that is not white space is where
    [skip_white_space] stops. *)
Lemma skip_white_space_ascii (c : ascii) (r : string) :
  byte_of c < 128 → is_white_space1 c = false →
  skip_white_space (String c r) = String c r.
Proof.
  intros Hc Hws. cbn [skip_white_space]. rewrite Hws.
  destruct r as [|c1 r1]; [reflexivity|].
  assert (H2 : is_white_space2 c c1 = false).
  { unfold is_white_space2. destruct (Z.eqb_spec (byte_of c) 194) as [E|];
      [rewrite E in Hc; discriminate Hc | reflexivity]. }
  rewrite H2. destruct r1 as [|c2 r2]; [reflexivity|].
  assert (H3 : is_white_space3 c c1 c2 = false).
  { unfold is_white_space3.
    destruct (Z.eqb_spec (byte_of c) 225) as [E|];
      [rewrite E in Hc; discriminate Hc|].
    destruct (Z.eqb_spec (byte_of c) 226) as [E|];
      [rewrite E in Hc; discriminate Hc|].
    destruct (Z.eqb_spec (byte_of c) 227) as [E|];
      [rewrite E in Hc; discriminate Hc|].
    destruct (Z.eqb_spec (byte_of c) 239) as [E|];
      [rewrite E in Hc; discriminate Hc|].
    reflexivity. }
  rewrite H3. reflexivity.
Qed.

(** [parseInt] finds no number in a string that begins neither with white
    space, nor with a sign, nor with a decimal digit. *)
Lemma parseInt_no_number (c : ascii) (r : string) :
  skip_white_space (String c r) = String c r →
  c ≠ "-"%char → c ≠ "+"%char →
  is_decimal_digit c = false →
  parseInt (String c r) = None.
Proof.
  intros Hws Hm Hp Hd. unfold parseInt. rewrite Hws. clear Hws.
  destruct c as [[] [] [] [] [] [] [] []];
    try discriminate Hd;
    try (exfalso; apply Hm; reflexivity);
    try (exfalso; apply Hp; reflexivity);
    reflexivity.
Qed.

(** In particular in a string whose first character is a letter, or any
    other character up to U+007F that is neither white space, nor a sign,
    nor a decimal digit. *)
Lemma parseInt_no_leading_digit (c : ascii) (r : string) :
  byte_of c < 128 → is_white_space1 c = false →
  c ≠ "-"%char → c ≠ "+"%char →
  is_decimal_digit c = false →
  parseInt (String c r) = None.
Proof.
  intros Hc Hws. apply parseInt_no_number, skip_white_space_ascii; assumption.
Qed.

(** What [parseInt] makes of white space beyond U+007F and of integers
    beyond 2^53: a no-break space (C2 A0), a line separator (E2 80 A8) and
    a byte order mark (EF BB BF) are skipped like a blank, an inverted
    exclamation mark (C2 A1) is not; 2^53 + 1 is read as 2^53 and
    2^53 + 3 as 2^53 + 4; and a one with 310 zeros is [Infinity]. *)
Lemma parseInt_beyond_ascii :
  parseInt (String "194" (String "160" "5")) = Some 5
  ∧ parseInt (String "226" (String "128" (String "168" "-7"))) = Some (-7)
  ∧ parseInt (String "239" (String "187" (String "191" " 0x1f"))) = Some 31
  ∧ parseInt (String "194" (String "161" "5")) = None
  ∧ parseInt "9007199254740993" = Some 9007199254740992
  ∧ parseInt "-9007199254740995" = Some (-9007199254740996)
  ∧ parseInt ("1" +:+ String.concat "" (repeat "0000000000" 31))
    = Some (2 ^ 1024).
Proof. repeat split; vm_compute; reflexivity. Qed.

(** Up to 2^53 an integer is its own Number value, and only 0 has the
    Number value 0: rounding never makes a skip or a limit falsy. *)
Lemma to_double_small (n : Z) : Z.abs n < 2 ^ 53 → to_double n = n.
Proof.
  intros H. unfold to_double.
  destruct (Z.leb_spec (Z.log2 (Z.abs n) - 52) 0) as [|Hlt]; [reflexivity|].
  exfalso.
  assert (H0 : 0 < Z.abs n).
  { destruct (Z.eq_dec (Z.abs n) 0) as [E|E];
      [rewrite E in Hlt; cbn in Hlt; lia | lia]. }
  pose proof (proj1 (Z.log2_lt_pow2 (Z.abs n) 53 H0) H). lia.
Qed.

Lemma to_double_zero (n : Z) : to_double n = 0 ↔ n = 0.
Proof.
  split; [|intros ->; reflexivity].
  unfold to_double.
  destruct (Z.leb_spec (Z.log2 (Z.abs n) - 52) 0) as [|Hlt]; [auto|].
  set (a := Z.abs n) in *. set (e := Z.log2 a - 52) in *.
  assert (Ha : 0 < a).
  { destruct (Z.eq_dec a 0) as [E|E]; [|lia].
    exfalso. unfold e in Hlt. rewrite E in Hlt. cbn in Hlt. lia. }
  assert (Hq : 0 < Z.shiftr a e).
  { rewrite Z.shiftr_div_pow2 by lia.
    apply Z.div_str_pos. split; [apply Z.pow_pos_nonneg; lia|].
    pose proof (Z.log2_spec a Ha) as [Hlo _].
    transitivity (2 ^ Z.log2 a); [|exact Hlo].
    apply Z.pow_le_mono_r; lia. }
  cbv zeta.
  match goal with
  | |- context [Z.shiftl ?x e] =>
      match x with
      | (if _ then _ else _) => set (q' := x)
      end
  end.
  assert (Hq' : 0 < q')
    by (unfold q';
        match goal with |- context [if ?c then _ else _] => destruct c end;
        lia).
  assert (Hv : 0 < Z.min (Z.shiftl q' e) (2 ^ 1024)).
  { apply Z.min_glb_lt; [|reflexivity].
    rewrite Z.shiftl_mul_pow2 by lia. apply Z.mul_pos_pos; [exact Hq'|].
    apply Z.pow_pos_nonneg; lia. }
  destruct (n <? 0); lia.
Qed.

Lemma parse_skip_NaN (q : Query) (o : Options) (s : string) :
  q_skip q = Some s → s ≠ "" → parseInt s = None →
  parse_skip q o = inl "Invalid skip parameter. Must be a number.".
Proof.
  intros Hq Hs Hn. unfold parse_skip.
  rewrite Hq, (truthy_s_Some s Hs). change (default "" (Some s)) with s. rewrite Hn. reflexivity.
Qed.

Lemma parse_limit_NaN (q : Query) (dl : option Z) (o : Options) (s : string) :
  q_limit q = Some s → s ≠ "" → parseInt s = None →
  parse_limit q dl o = inl "Invalid limit parameter. Must be a number.".
Proof.
  intros Hq Hs Hn. unfold parse_limit.
  rewrite Hq, (truthy_s_Some s Hs). change (default "" (Some s)) with s. rewrite Hn. reflexivity.
Qed.

(** The blocks before [limit] leave [options.limit] alone. *)
Lemma parse_where_filter_limit
    (JSON_parse : string -> option json) (JSON_stringify : json -> string)
    (q : Query) (qry : json) (o : Options) :
  parse_where_filter JSON_parse JSON_stringify q = inr (qry, o) →
  opt_limit o = None.
Proof.
  unfold parse_where_filter.
  destruct (truthy_q (q_where q)).
  - destruct (JSON_parse _); [|discriminate]. intros [= _ <-]. reflexivity.
  - destruct (truthy_q (q_filter q)).
    + destruct (_ ≫= interpret_filter) as [[qv sel]|]; [|discriminate].
      intros [= _ <-]. reflexivity.
    + intros [= _ <-]. reflexivity.
Qed.

Lemma parse_sort_limit
    (JSON_parse : string -> option json) (q : Query) (o o' : Options) :
  parse_sort JSON_parse q o = inr o' → opt_limit o' = opt_limit o.
Proof.
  unfold parse_sort. destruct (truthy_s (q_sort q)).
  - destruct (JSON_parse _); [|discriminate]. intros [= <-]. reflexivity.
  - intros [= <-]. reflexivity.
Qed.

Lemma parse_select_limit
    (JSON_parse : string -> option json) (q : Query) (o o' : Options) :
  parse_select JSON_parse q o = inr o' → opt_limit o' = opt_limit o.
Proof.
  unfold parse_select. destruct (truthy_s (q_select q)).
  - destruct (JSON_parse _); [|discriminate]. intros [= <-]. reflexivity.
  - intros [= <-]. reflexivity.
Qed.

Lemma parse_skip_limit (q : Query) (o o' : Options) :
  parse_skip q o = inr o' → opt_limit o' = opt_limit o.
Proof.
  unfold parse_skip. destruct (truthy_s (q_skip q)).
  - destruct (parseInt _); [|discriminate]. intros [= <-]. reflexivity.
  - intros [= <-]. reflexivity.
Qed.

Lemma parse_limit_skip (q : Query) (dl : option Z) (o o' : Options) :
  parse_limit q dl o = inr o' → opt_skip o' = opt_skip o.
Proof.
  unfold parse_limit. destruct (truthy_s (q_limit q)).
  - destruct (parseInt _); [|discriminate]. intros [= <-]. reflexivity.
  - destruct dl; intros [= <-]; reflexivity.
Qed.

(** Without a truthy [limit] the returned limit is the caller's default. *)
Lemma parseQueryParams_default_limit
    (JSON_parse : string -> option json) (JSON_stringify : json -> string)
    (q : Query) (dl : option Z) (r : Parsed) :
  truthy_s (q_limit q) = false →
  parseQueryParams JSON_parse JSON_stringify q dl = inr r →
  opt_limit (options r) = dl.
Proof.
  intros Hl. unfold parseQueryParams.
  destruct (parse_where_filter JSON_parse JSON_stringify q) as [|[qry o0]] eqn:H0;
    [discriminate|].
  destruct (parse_sort JSON_parse q o0) as [|o1] eqn:H1; [discriminate|].
  destruct (parse_select JSON_parse q o1) as [|o2] eqn:H2; [discriminate|].
  destruct (parse_skip q o2) as [|o3] eqn:H3; [discriminate|].
  apply parse_where_filter_limit in H0. apply parse_sort_limit in H1.
  apply parse_select_limit in H2. apply parse_skip_limit in H3.
  unfold parse_limit. rewrite Hl.
  destruct dl as [d|]; intros [= <-]; cbn [options opt_limit]; congruence.
Qed.

(** C6, as the code has it: a non-empty [skip] (or [limit]) in which
    [parseInt] finds no number is answered with "Invalid skip parameter. Must
    be a number." (or "Invalid limit parameter. Must be a number."), once the
    parameters before it have been read without error; an empty [skip] or
    [limit] is passed over like an absent one; and a request without [limit]
    gets the caller's default, which is 100 in GET /api/tasks and none in
    GET /api/users. *)
Theorem C6_skip_limit_not_a_number
    (JSON_parse : string -> option json) (JSON_stringify : json -> string)
    (s : string) :
  s ≠ "" → parseInt s = None →
  (∀ q dl qry o0 o1 o2,
     q_skip q = Some s →
     parse_where_filter JSON_parse JSON_stringify q = inr (qry, o0) →
     parse_sort JSON_parse q o0 = inr o1 →
     parse_select JSON_parse q o1 = inr o2 →
     parseQueryParams JSON_parse JSON_stringify q dl
     = inl "Invalid skip parameter. Must be a number.")
  ∧ (∀ q dl qry o0 o1 o2 o3,
       q_limit q = Some s →
       parse_where_filter JSON_parse JSON_stringify q = inr (qry, o0) →
       parse_sort JSON_parse q o0 = inr o1 →
       parse_select JSON_parse q o1 = inr o2 →
       parse_skip q o2 = inr o3 →
       parseQueryParams JSON_parse JSON_stringify q dl
       = inl "Invalid limit parameter. Must be a number.")
  ∧ (∀ q mq, truthy_s (q_limit q) = false →
       get_tasks JSON_parse JSON_stringify q = inr mq → mq_limit mq = Some 100)
  ∧ (∀ q mq, truthy_s (q_limit q) = false →
       get_users JSON_parse JSON_stringify q = inr mq → mq_limit mq = None)
  ∧ get_tasks JSON_parse JSON_stringify no_query
    = inr (mkMongooseQuery TaskModel (JObj []) None None None (Some 100) false)
  ∧ get_users JSON_parse JSON_stringify no_query
    = inr (mkMongooseQuery UserModel (JObj []) None None None None false)
  ∧ (∀ q o, (q_skip q = None ∨ q_skip q = Some "") → parse_skip q o = inr o)
  ∧ (∀ q dl o, (q_limit q = None ∨ q_limit q = Some "") →
       parse_limit q dl o
       = inr (match dl with
              | Some d => mkOptions (opt_sort o) (opt_select o) (opt_skip o)
                                    (Some d)
              | None => o
              end)).
Proof.
  intros Hs Hn.
  split; [|split; [|split; [|split; [|split; [|split; [|split]]]]]].
  - intros q dl qry o0 o1 o2 Hq H0 H1 H2. unfold parseQueryParams.
    rewrite H0, H1, H2, (parse_skip_NaN q o2 s Hq Hs Hn). reflexivity.
  - intros q dl qry o0 o1 o2 o3 Hq H0 H1 H2 H3. unfold parseQueryParams.
    rewrite H0, H1, H2, H3, (parse_limit_NaN q dl o3 s Hq Hs Hn). reflexivity.
  - intros q mq Hl. unfold get_tasks.
    destruct (parseQueryParams JSON_parse JSON_stringify q (Some 100)) as [|r] eqn:Hr;
      [discriminate|].
    intros [= <-]. cbn [build_query mq_limit].
    rewrite (parseQueryParams_default_limit _ _ _ _ _ Hl Hr). reflexivity.
  - intros q mq Hl. unfold get_users.
    destruct (parseQueryParams JSON_parse JSON_stringify q None) as [|r] eqn:Hr;
      [discriminate|].
    intros [= <-]. cbn [build_query mq_limit].
    rewrite (parseQueryParams_default_limit _ _ _ _ _ Hl Hr). reflexivity.
  - reflexivity.
  - reflexivity.
  - intros q o [Hq|Hq]; unfold parse_skip; rewrite Hq; reflexivity.
  - intros q dl o [Hq|Hq]; unfold parse_limit; rewrite Hq;
      destruct dl; reflexivity.
Qed.

(** The theorem at [?skip=abc] and at [?limit=abc]. *)
Lemma C6_skip_limit_not_a_number_witness :
  ("abc" ≠ "" ∧ parseInt "abc" = None)
  ∧ parseQueryParams sample_parse stringify_const
      (with_skip (Some "abc") no_query) (Some 100)
    = inl "Invalid skip parameter. Must be a number."
  ∧ parseQueryParams sample_parse stringify_const
      (with_limit (Some "abc") no_query) (Some 100)
    = inl "Invalid limit parameter. Must be a number.".
Proof.
  assert (H1 : "abc" ≠ "") by discriminate.
  assert (H2 : parseInt "abc" = None) by reflexivity.
  destruct (C6_skip_limit_not_a_number sample_parse stringify_const "abc" H1 H2)
    as (Hskip & Hlimit & _).
  split; [split; assumption|]. split.
  - eapply Hskip; reflexivity.
  - eapply Hlimit; reflexivity.
Defined.

(** C6 as written fails: "12abc" is not a number, yet [parseInt] reads the
    12 it begins with and the interpreter accepts it, as [skip] and as
    [limit]; and an empty [skip] or [limit] is not a number either, and is
    passed over as if it were absent. *)
Lemma C6_digits_then_letters_accepted :
  numeric_string "12abc" = false
  ∧ parseQueryParams sample_parse stringify_const
      (with_skip (Some "12abc") no_query) None
    = inr (mkParsed (JObj []) (mkOptions None None (Some 12) None) false)
  ∧ parseQueryParams sample_parse stringify_const
      (with_limit (Some "12abc") no_query) None
    = inr (mkParsed (JObj []) (mkOptions None None None (Some 12)) false)
  ∧ numeric_string "" = false
  ∧ parseQueryParams sample_parse stringify_const
      (with_skip (Some "") no_query) None
    = inr (mkParsed (JObj []) no_options false).
Proof. repeat split. Qed.

(** C9: a [skip] or [limit] that [parseInt] reads as 0 passes the interpreter
    without error and is stored in [options], but the GET handlers test it
    for truth before applying it, so it never reaches the query; with
    [limit=0] the default of 100 of GET /api/tasks is replaced by that 0 and
    the query runs without any limit. *)
Theorem C9_zero_skip_limit_not_applied
    (JSON_parse : string -> option json) (JSON_stringify : json -> string)
    (s : string) :
  s ≠ "" → parseInt s = Some 0 →
  (∀ q o, q_skip q = Some s →
     parse_skip q o
     = inr (mkOptions (opt_sort o) (opt_select o) (Some 0) (opt_limit o)))
  ∧ (∀ q dl o, q_limit q = Some s →
       parse_limit q dl o
       = inr (mkOptions (opt_sort o) (opt_select o) (opt_skip o) (Some 0)))
  ∧ (∀ m p, opt_skip (options p) = Some 0 → mq_skip (build_query m p) = None)
  ∧ (∀ m p, opt_limit (options p) = Some 0 → mq_limit (build_query m p) = None)
  ∧ (∀ q mq, q_skip q = Some s →
       get_tasks JSON_parse JSON_stringify q = inr mq
       ∨ get_users JSON_parse JSON_stringify q = inr mq →
       mq_skip mq = None)
  ∧ (∀ q mq, q_limit q = Some s →
       get_tasks JSON_parse JSON_stringify q = inr mq
       ∨ get_users JSON_parse JSON_stringify q = inr mq →
       mq_limit mq = None)
  ∧ get_tasks JSON_parse JSON_stringify (with_limit (Some s) no_query)
    = inr (mkMongooseQuery TaskModel (JObj []) None None None None false).
Proof.
  intros Hs Hz.
  assert (Hskip : ∀ q o, q_skip q = Some s →
            parse_skip q o
            = inr (mkOptions (opt_sort o) (opt_select o) (Some 0) (opt_limit o))).
  { intros q o Hq. unfold parse_skip.
    rewrite Hq, (truthy_s_Some s Hs). change (default "" (Some s)) with s. rewrite Hz. reflexivity. }
  assert (Hlimit : ∀ q dl o, q_limit q = Some s →
            parse_limit q dl o
            = inr (mkOptions (opt_sort o) (opt_select o) (opt_skip o) (Some 0))).
  { intros q dl o Hq. unfold parse_limit.
    rewrite Hq, (truthy_s_Some s Hs). change (default "" (Some s)) with s. rewrite Hz. reflexivity. }
  assert (Hps : ∀ q dl r, q_skip q = Some s →
            parseQueryParams JSON_parse JSON_stringify q dl = inr r →
            opt_skip (options r) = Some 0).
  { intros q dl r Hq. unfold parseQueryParams.
    destruct (parse_where_filter JSON_parse JSON_stringify q) as [|[qry o0]];
      [discriminate|].
    destruct (parse_sort JSON_parse q o0) as [|o1]; [discriminate|].
    destruct (parse_select JSON_parse q o1) as [|o2]; [discriminate|].
    rewrite (Hskip q o2 Hq).
    destruct (parse_limit q dl _) as [|o4] eqn:H4; [discriminate|].
    apply parse_limit_skip in H4. intros [= <-]. exact H4. }
  assert (Hpl : ∀ q dl r, q_limit q = Some s →
            parseQueryParams JSON_parse JSON_stringify q dl = inr r →
            opt_limit (options r) = Some 0).
  { intros q dl r Hq. unfold parseQueryParams.
    destruct (parse_where_filter JSON_parse JSON_stringify q) as [|[qry o0]];
      [discriminate|].
    destruct (parse_sort JSON_parse q o0) as [|o1]; [discriminate|].
    destruct (parse_select JSON_parse q o1) as [|o2]; [discriminate|].
    destruct (parse_skip q o2) as [|o3]; [discriminate|].
    rewrite (Hlimit q dl o3 Hq). intros [= <-]. reflexivity. }
  split; [exact Hskip|]. split; [exact Hlimit|].
  split; [intros m p Hp; cbn [build_query mq_skip]; rewrite Hp; reflexivity|].
  split; [intros m p Hp; cbn [build_query mq_limit]; rewrite Hp; reflexivity|].
  split; [|split].
  - intros q mq Hq [H|H]; revert H; unfold get_tasks, get_users;
      (destruct (parseQueryParams JSON_parse JSON_stringify q _) as [|r] eqn:Hr;
         [discriminate|]);
      intros [= <-]; cbn [build_query mq_skip];
      rewrite (Hps _ _ _ Hq Hr); reflexivity.
  - intros q mq Hq [H|H]; revert H; unfold get_tasks, get_users;
      (destruct (parseQueryParams JSON_parse JSON_stringify q _) as [|r] eqn:Hr;
         [discriminate|]);
      intros [= <-]; cbn [build_query mq_limit];
      rewrite (Hpl _ _ _ Hq Hr); reflexivity.
  - unfold get_tasks, parseQueryParams, parse_where_filter, parse_sort,
      parse_select, parse_skip. cbn.
    rewrite (Hlimit (with_limit (Some s) no_query) (Some 100) no_options eq_refl).
    reflexivity.
Qed.

(** The theorem at [?limit=0]. *)
Lemma C9_zero_skip_limit_not_applied_witness :
  ("0" ≠ "" ∧ parseInt "0" = Some 0)
  ∧ parseQueryParams sample_parse stringify_const
      (with_limit (Some "0") no_query) (Some 100)
    = inr (mkParsed (JObj []) (mkOptions None None None (Some 0)) false)
  ∧ get_tasks sample_parse stringify_const (with_limit (Some "0") no_query)
    = inr (mkMongooseQuery TaskModel (JObj []) None None None None false).
Proof.
  assert (H1 : "0" ≠ "") by discriminate.
  assert (H2 : parseInt "0" = Some 0) by reflexivity.
  destruct (C9_zero_skip_limit_not_applied sample_parse stringify_const "0" H1 H2)
    as (_ & _ & _ & _ & _ & _ & Hget).
  split; [split; assumption|]. split; [reflexivity | exact Hget].
Defined.

(* ===================================================================== *)
(** * Properties of the handlers *)
(* ===================================================================== *)

(** ** Runs in which the store rejects nothing *)

Lemma User_findById_ok (id : string) us ts :
  User_findById id (mkWorld us ts []) = (Resolved (us !! id), mkWorld us ts []).
Proof. reflexivity. Qed.

Lemma push_pending_ok (uid taskId : string) us ts :
  push_pending uid taskId (mkWorld us ts [])
  = (Resolved tt, mkWorld (pushed uid taskId us) ts []).
Proof.
  unfold push_pending, pushed, then_. rewrite User_findById_ok.
  destruct (us !! uid) as [u|]; [|reflexivity].
  destruct (decide (taskId ∈ pendingTasks u)); reflexivity.
Qed.

Lemma pull_pending_ok (uid taskId : string) us ts :
  pull_pending uid taskId (mkWorld us ts [])
  = (Resolved tt, mkWorld (pulled uid taskId us) ts []).
Proof.
  unfold pull_pending, pulled, then_. rewrite User_findById_ok.
  destruct (us !! uid) as [u|]; reflexivity.
Qed.

Lemma assign_task_ok (user : User) (taskId : string) us ts :
  assign_task user taskId (mkWorld us ts [])
  = (Resolved tt, mkWorld us (reassigned (u_id user) (u_name user) taskId ts) []).
Proof.
  unfold assign_task, reassigned, then_, Task_findById, store_call. cbn.
  destruct (ts !! taskId) as [t|]; reflexivity.
Qed.

Lemma unassign_task_ok (taskId : string) us ts :
  unassign_task taskId (mkWorld us ts [])
  = (Resolved tt, mkWorld us (reassigned "" "unassigned" taskId ts) []).
Proof.
  unfold unassign_task, reassigned, then_, Task_findById, store_call. cbn.
  destruct (ts !! taskId) as [t|]; reflexivity.
Qed.

(** ** Promises that do not write to the tasks collection *)

Lemma keeps_tasks_resolve {A} (a : A) : keeps_tasks (resolve a).
Proof. intros w r w' [= _ <-]. reflexivity. Qed.

Lemma keeps_tasks_then {A B} (p : Promise A) (k : A -> Promise B) :
  keeps_tasks p → (∀ a, keeps_tasks (k a)) → keeps_tasks (then_ p k).
Proof.
  intros Hp Hk w r w'. unfold then_.
  destruct (p w) as [[a|e] w1] eqn:E.
  - intros H. rewrite (Hk a _ _ _ H). exact (Hp _ _ _ E).
  - intros [= _ <-]. exact (Hp _ _ _ E).
Qed.

Lemma keeps_tasks_store_call {A} (op : World -> A * World) :
  (∀ w, tasks (op w).2 = tasks w) → keeps_tasks (store_call op).
Proof.
  intros Hop w r w'. unfold store_call.
  destruct (faults w) as [|[e|] rest].
  - specialize (Hop w). destruct (op w) as [a w1]. intros [= _ <-]. exact Hop.
  - intros [= _ <-]. reflexivity.
  - specialize (Hop (mkWorld (users w) (tasks w) rest)).
    destruct (op _) as [a w1]. intros [= _ <-]. exact Hop.
Qed.

Lemma keeps_tasks_User_findById (id : string) : keeps_tasks (User_findById id).
Proof. apply keeps_tasks_store_call. reflexivity. Qed.

Lemma keeps_tasks_User_save (u : User) : keeps_tasks (User_save u).
Proof. apply keeps_tasks_store_call. reflexivity. Qed.

Lemma keeps_tasks_push_pending (uid taskId : string) :
  keeps_tasks (push_pending uid taskId).
Proof.
  apply keeps_tasks_then; [apply keeps_tasks_User_findById|].
  intros [u|]; [|apply keeps_tasks_resolve].
  destruct (decide (taskId ∈ pendingTasks u)); [apply keeps_tasks_resolve|].
  apply keeps_tasks_then; [apply keeps_tasks_User_save|].
  intros _. apply keeps_tasks_resolve.
Qed.

Lemma keeps_tasks_pull_pending (uid taskId : string) :
  keeps_tasks (pull_pending uid taskId).
Proof.
  apply keeps_tasks_then; [apply keeps_tasks_User_findById|].
  intros [u|]; [|apply keeps_tasks_resolve].
  apply keeps_tasks_then; [apply keeps_tasks_User_save|].
  intros _. apply keeps_tasks_resolve.
Qed.

(** [fetchUserNamePromise] always resolves, and writes nothing. *)
Lemma fetchUserName_resolves (assigned : string) (b : TaskBody) (w : World) :
  ∃ n w', fetchUserName assigned b w = (Resolved n, w')
          ∧ users w' = users w ∧ tasks w' = tasks w.
Proof.
  unfold fetchUserName. destruct (wants_user_name assigned b).
  - unfold catch_, then_, User_findById, store_call, resolve.
    destruct (faults w) as [|[e|] rest]; cbn; eauto.
  - unfold resolve. eauto.
Qed.

(** The POST callback always resolves with the 201 response. *)
Lemma post_tasks_saved_resolves (savedTask : Task) (w : World) :
  ∃ w', post_tasks_saved savedTask w
        = (Resolved (sendSuccess 201 "Task created successfully" (PTask savedTask)), w')
        ∧ tasks w' = tasks w.
Proof.
  unfold post_tasks_saved.
  destruct (bool_decide (assignedUser savedTask ≠ "") && negb (completed savedTask));
    [|unfold resolve; eauto].
  unfold catch_, then_.
  destruct (push_pending (assignedUser savedTask) (t_id savedTask) w)
    as [[[]|e] w1] eqn:E;
    unfold resolve; eexists; (split; [reflexivity|]);
    exact (keeps_tasks_push_pending _ _ _ _ _ E).
Qed.

Lemma put_tasks_saved_keeps_tasks oldU oldC newU newC (updatedTask : Task) :
  keeps_tasks (put_tasks_saved oldU oldC newU newC updatedTask).
Proof.
  unfold put_tasks_saved.
  destruct (bool_decide (oldU ≠ "") && _).
  - apply keeps_tasks_then; [apply keeps_tasks_pull_pending|]. intros _.
    apply keeps_tasks_then; [|intros _; apply keeps_tasks_resolve].
    destruct (bool_decide (newU ≠ "") && negb newC);
      [apply keeps_tasks_push_pending | apply keeps_tasks_resolve].
  - destruct (bool_decide (newU ≠ "") && negb newC && _).
    + apply keeps_tasks_then; [apply keeps_tasks_push_pending|].
      intros _. apply keeps_tasks_resolve.
    + apply keeps_tasks_resolve.
Qed.

(** The value of [coerce_completed]. *)
Lemma coerce_completed_true (v : option json) :
  coerce_completed v = true ↔ v = Some (JBool true) ∨ v = Some (JStr "true").
Proof.
  split.
  - destruct v as [[| [] | | s | |]|]; cbn; try discriminate; auto.
    intros H. apply String.eqb_eq in H. subst. auto.
  - intros [-> | ->]; reflexivity.
Qed.

Lemma fetchUserName_run (assigned : string) (b : TaskBody) us ts :
  fetchUserName assigned b (mkWorld us ts [])
  = (Resolved (fetched_name assigned b us), mkWorld us ts []).
Proof.
  unfold fetchUserName, fetched_name. destruct (wants_user_name assigned b).
  - unfold catch_, then_. rewrite User_findById_ok.
    destruct (us !! assigned); reflexivity.
  - reflexivity.
Qed.

(** POST /api/tasks when the store rejects nothing. *)
Lemma post_tasks_ok (b : TaskBody) (newId : string) (now : Z) us ts :
  missing_name_or_deadline b = false →
  post_tasks b newId now (mkWorld us ts [])
  = (sendSuccess 201 "Task created successfully" (PTask (new_task b newId now us)),
     mkWorld
       (if bool_decide (or_default (tb_assignedUser b) "" ≠ "")
           && negb (coerce_completed (tb_completed b))
        then pushed (or_default (tb_assignedUser b) "") newId us
        else us)
       (<[newId := new_task b newId now us]> ts) []).
Proof.
  intros Hv. unfold post_tasks. rewrite Hv.
  unfold respond, then_. rewrite fetchUserName_run.
  change (Task_save ?t (mkWorld us ts []))
    with (Resolved t, mkWorld us (<[t_id t := t]> ts) []).
  cbn [t_id]. fold (new_task b newId now us).
  unfold post_tasks_saved. cbn [assignedUser completed new_task t_id].
  destruct (bool_decide _ && negb _); [|reflexivity].
  unfold catch_, then_. rewrite push_pending_ok. reflexivity.
Qed.

(** PUT /api/tasks/:id when the store rejects nothing. *)
Lemma put_tasks_ok (id : string) (b : TaskBody) (task : Task) us ts :
  missing_name_or_deadline b = false →
  ts !! id = Some task →
  let oldU := assignedUser task in
  let newU := or_default (tb_assignedUser b) "" in
  let newC := coerce_completed (tb_completed b) in
  let us1 :=
    if bool_decide (oldU ≠ "")
       && (bool_decide (oldU ≠ newU) || (newC && negb (completed task)))
    then pulled oldU (t_id task) us else us in
  let us2 :=
    if bool_decide (newU ≠ "") && negb newC && bool_decide (oldU ≠ newU)
    then pushed newU (t_id task) us1 else us1 in
  put_tasks id b (mkWorld us ts [])
  = (sendSuccess 200 "Task updated successfully" (PTask (updated_task b task us)),
     mkWorld us2 (<[t_id task := updated_task b task us]> ts) []).
Proof.
  intros Hv Hf. cbn zeta. unfold put_tasks. rewrite Hv.
  unfold respond, then_ at 1.
  change (Task_findById id (mkWorld us ts []))
    with (Resolved (ts !! id), mkWorld us ts []).
  rewrite Hf. unfold then_ at 1. rewrite fetchUserName_run.
  unfold then_ at 1.
  change (Task_save ?t (mkWorld us ts []))
    with (Resolved t, mkWorld us (<[t_id t := t]> ts) []).
  cbn [t_id]. fold (updated_task b task us).
  unfold put_tasks_saved. cbn [updated_task t_id].
  destruct (bool_decide (assignedUser task ≠ "")) eqn:Eo;
    destruct (bool_decide (assignedUser task ≠ or_default (tb_assignedUser b) "")) eqn:Ed;
    destruct (coerce_completed (tb_completed b)) eqn:Ec;
    destruct (completed task) eqn:Eoc;
    destruct (bool_decide (or_default (tb_assignedUser b) "" ≠ "")) eqn:En;
    cbn [andb orb negb];
    unfold then_; rewrite ?pull_pending_ok, ?push_pending_ok; reflexivity.
Qed.

Lemma Task_save_cases (t : Task) (w : World) r w' :
  Task_save t w = (r, w') →
  (∃ e, r = Rejected e ∧ tasks w' = tasks w)
  ∨ (r = Resolved t ∧ tasks w' = <[t_id t := t]> (tasks w)).
Proof.
  unfold Task_save, store_call.
  destruct (faults w) as [|[e|] rest]; intros [= <- <-]; eauto.
Qed.

Lemma Task_findById_cases (id : string) (w : World) r w' :
  Task_findById id w = (r, w') →
  tasks w' = tasks w ∧ users w' = users w
  ∧ ((∃ e, r = Rejected e) ∨ r = Resolved (tasks w !! id)).
Proof.
  unfold Task_findById, store_call.
  destruct (faults w) as [|[e|] rest]; intros [= <- <-]; eauto.
Qed.

(** C10: the [completed] that POST /api/tasks and PUT /api/tasks/:id store is
    true exactly when the body's [completed] is the boolean [true] or the
    string "true"; the number 1, "True", "yes" and every other value give
    [false].  Whenever the handler answers 201 (or 200) the stored task
    carries that value, and it does answer so when the store rejects
    nothing. *)
Theorem C10_completed_coercion (b : TaskBody) :
  (coerce_completed (tb_completed b) = true
   ↔ tb_completed b = Some (JBool true) ∨ tb_completed b = Some (JStr "true"))
  ∧ (∀ newId now w r w',
       post_tasks b newId now w = (r, w') → status_of r = 201%nat →
       ∃ t, tasks w' !! newId = Some t
            ∧ completed t = coerce_completed (tb_completed b))
  ∧ (∀ id w r w',
       ids_coherent w →
       put_tasks id b w = (r, w') → status_of r = 200%nat →
       ∃ t, tasks w' !! id = Some t
            ∧ completed t = coerce_completed (tb_completed b))
  ∧ (∀ newId now w,
       missing_name_or_deadline b = false → faults w = [] →
       status_of (post_tasks b newId now w).1 = 201%nat)
  ∧ (∀ id w, missing_name_or_deadline b = false → faults w = [] →
       is_Some (tasks w !! id) →
       status_of (put_tasks id b w).1 = 200%nat)
  ∧ coerce_completed (Some (JNum 1)) = false
  ∧ coerce_completed (Some (JStr "True")) = false
  ∧ coerce_completed (Some (JStr "yes")) = false.
Proof.
  split; [apply coerce_completed_true|].
  split; [|split; [|split; [|split]]].
  - intros newId now w r w'. unfold post_tasks.
    destruct (missing_name_or_deadline b).
    { intros [= <- <-]. discriminate. }
    unfold respond, then_ at 1.
    destruct (fetchUserName_resolves (or_default (tb_assignedUser b) "") b w)
      as (n & w1 & -> & _ & _).
    unfold then_.
    destruct (Task_save _ w1) as [[t|e] w2] eqn:E2.
    + destruct (post_tasks_saved_resolves t w2) as (w3 & -> & H3).
      intros [= <- <-] _.
      apply Task_save_cases in E2 as [(e & [=] & _) | ([= ->] & H2)].
      eexists. rewrite H3, H2. cbn [t_id]. rewrite lookup_insert_eq.
      split; reflexivity.
    + intros [= <- <-]. unfold sendError. cbn. discriminate.
  - intros id w r w' [_ Hcoh]. unfold put_tasks.
    destruct (missing_name_or_deadline b).
    { intros [= <- <-]. discriminate. }
    unfold respond, then_ at 1.
    destruct (Task_findById id w) as [[found|e] w0] eqn:E0.
    2:{ intros [= <- <-]. unfold sendError. cbn. discriminate. }
    apply Task_findById_cases in E0 as (Ht0 & _ & [(e & [=]) | [= ->]]).
    destruct (tasks w !! id) as [task|] eqn:Hf.
    2:{ intros [= <- <-]. discriminate. }
    unfold then_ at 1.
    destruct (fetchUserName_resolves (or_default (tb_assignedUser b) "") b w0)
      as (n & w1 & -> & _ & Ht1).
    unfold then_.
    destruct (Task_save _ w1) as [[t|e] w2] eqn:E2.
    2:{ intros [= <- <-]. unfold sendError. cbn. discriminate. }
    apply Task_save_cases in E2 as [(e & [=] & _) | ([= ->] & H2)].
    destruct (put_tasks_saved _ _ _ _ _ w2) as [[r3|e] w3] eqn:E3.
    2:{ intros [= <- <-]. unfold sendError. cbn. discriminate. }
    apply put_tasks_saved_keeps_tasks in E3.
    intros [= <- <-] _.
    eexists. rewrite E3, H2. cbn [t_id]. rewrite (Hcoh _ _ Hf).
    rewrite lookup_insert_eq. split; reflexivity.
  - intros newId now [us ts fs] Hv Hfs. cbn in Hfs. subst fs.
    rewrite (post_tasks_ok b newId now us ts Hv). reflexivity.
  - intros id [us ts fs] Hv Hfs [task Hf]. cbn in Hfs, Hf. subst fs.
    rewrite (put_tasks_ok id b task us ts Hv Hf). reflexivity.
  - repeat split.
Qed.

(** ** The two list updates *)

Lemma or_default_Some (s d : string) : s ≠ "" → or_default (Some s) d = s.
Proof.
  intros Hs. unfold or_default.
  destruct (String.eqb_spec s ""); [contradiction | reflexivity].
Qed.

Lemma set_pendingTasks_same (u : User) : set_pendingTasks (pendingTasks u) u = u.
Proof. destruct u; reflexivity. Qed.

Section ListUpdates.

Variable us : gmap string User.
Hypothesis Hcoh : ∀ k u, us !! k = Some u → u_id u = k.

Lemma pushed_lookup (uid taskId : string) (u : User) :
  us !! uid = Some u →
  pushed uid taskId us !! uid
  = Some (set_pendingTasks
            (if decide (taskId ∈ pendingTasks u) then pendingTasks u
             else pendingTasks u ++ [taskId]) u).
Proof.
  intros Hu. unfold pushed. rewrite Hu.
  destruct (decide (taskId ∈ pendingTasks u)).
  - rewrite set_pendingTasks_same. exact Hu.
  - rewrite (Hcoh _ _ Hu). apply lookup_insert_eq.
Qed.

Lemma pushed_lookup_ne (uid taskId k : string) :
  k ≠ uid → pushed uid taskId us !! k = us !! k.
Proof.
  intros Hk. unfold pushed. destruct (us !! uid) as [u|] eqn:Hu; [|reflexivity].
  destruct (decide (taskId ∈ pendingTasks u)); [reflexivity|].
  rewrite (Hcoh _ _ Hu). apply lookup_insert_ne. congruence.
Qed.

Lemma pushed_missing (uid taskId : string) :
  us !! uid = None → pushed uid taskId us = us.
Proof. intros Hu. unfold pushed. rewrite Hu. reflexivity. Qed.

Lemma pulled_lookup (uid taskId : string) (u : User) :
  us !! uid = Some u →
  pulled uid taskId us !! uid
  = Some (set_pendingTasks (filter (fun id => id ≠ taskId) (pendingTasks u)) u).
Proof.
  intros Hu. unfold pulled. rewrite Hu, (Hcoh _ _ Hu). apply lookup_insert_eq.
Qed.

Lemma pulled_lookup_ne (uid taskId k : string) :
  k ≠ uid → pulled uid taskId us !! k = us !! k.
Proof.
  intros Hk. unfold pulled. destruct (us !! uid) as [u|] eqn:Hu; [|reflexivity].
  rewrite (Hcoh _ _ Hu). apply lookup_insert_ne. congruence.
Qed.

Lemma pulled_coherent (uid taskId : string) :
  ∀ k u, pulled uid taskId us !! k = Some u → u_id u = k.
Proof.
  intros k u. destruct (decide (k = uid)) as [->|Hk].
  - destruct (us !! uid) as [u0|] eqn:Hu.
    + rewrite (pulled_lookup _ _ _ Hu). intros [= <-]. apply (Hcoh _ _ Hu).
    + unfold pulled. rewrite Hu. apply Hcoh.
  - rewrite (pulled_lookup_ne _ _ _ Hk). apply Hcoh.
Qed.

Lemma pushed_coherent (uid taskId : string) :
  ∀ k u, pushed uid taskId us !! k = Some u → u_id u = k.
Proof.
  intros k u. destruct (decide (k = uid)) as [->|Hk].
  - destruct (us !! uid) as [u0|] eqn:Hu.
    + rewrite (pushed_lookup _ _ _ Hu). intros [= <-]. apply (Hcoh _ _ Hu).
    + rewrite (pushed_missing _ _ Hu). apply Hcoh.
  - rewrite (pushed_lookup_ne _ _ _ Hk). apply Hcoh.
Qed.

End ListUpdates.

Lemma count_occ_push_new (l : list string) (x : string) :
  x ∉ l → count_occ string_dec (l ++ [x]) x = 1%nat.
Proof.
  intros Hx. rewrite count_occ_app.
  assert (H0 : count_occ string_dec l x = 0%nat).
  { apply count_occ_not_In. intros Hin. apply Hx, list_elem_of_In, Hin. }
  rewrite H0. cbn. destruct (string_dec x x); [reflexivity | contradiction].
Qed.

(** C7: POST /api/tasks with a non-empty [assignedUser] naming the user [u]
    and a [completed] that is not true: once the task is saved its id is
    appended to [u.pendingTasks] unless it is there already, so that, the id
    not being there before, the list holds it exactly once. *)
Theorem C7_post_tasks_adds_pending
    (b : TaskBody) (newId : string) (now : Z) (w : World) (uid : string) (u : User) :
  faults w = [] → ids_coherent w →
  missing_name_or_deadline b = false →
  tb_assignedUser b = Some uid → uid ≠ "" →
  coerce_completed (tb_completed b) = false →
  users w !! uid = Some u →
  ∃ r w' t u',
    post_tasks b newId now w = (r, w')
    ∧ status_of r = 201%nat
    ∧ tasks w' !! newId = Some t
    ∧ t_id t = newId ∧ assignedUser t = uid ∧ completed t = false
    ∧ users w' !! uid = Some u'
    ∧ pendingTasks u'
      = (if decide (newId ∈ pendingTasks u) then pendingTasks u
         else (pendingTasks u ++ [newId])%list)
    ∧ (newId ∉ pendingTasks u →
       count_occ string_dec (pendingTasks u') newId = 1%nat).
Proof.
  destruct w as [us ts fs]. cbn [faults users tasks].
  intros -> [Hcoh _] Hv Hau Huid Hc Hu. cbn [users] in Hcoh.
  rewrite (post_tasks_ok b newId now us ts Hv).
  rewrite Hau, (or_default_Some uid "" Huid), Hc.
  rewrite bool_decide_true by exact Huid. cbn [andb negb].
  do 4 eexists. split; [reflexivity|]. cbn [users tasks].
  rewrite lookup_insert_eq, (pushed_lookup us Hcoh uid newId u Hu).
  split; [reflexivity|]. split; [reflexivity|].
  split; [reflexivity|].
  split; [cbn; rewrite Hau; apply or_default_Some, Huid|].
  split; [cbn; exact Hc|].
  split; [reflexivity|]. cbn [pendingTasks set_pendingTasks].
  split; [reflexivity|].
  intros Hnew. destruct (decide (newId ∈ pendingTasks u)); [contradiction|].
  apply count_occ_push_new, Hnew.
Qed.

(** C4: PUT /api/tasks/:id of an existing task.  When the old [assignedUser]
    is non-empty and either the target changed or the task went from not
    completed to completed, the task id is filtered out of the old user's
    [pendingTasks]; when the new [assignedUser] is non-empty, the new
    [completed] is false and the target changed (also from unassigned), the
    id is appended to the new user's [pendingTasks] unless it is there
    already.  So a reassignment of a pending task moves its id from the one
    list to the other, and completing a task takes its id off the list. *)
Theorem C4_put_tasks_moves_pending
    (id : string) (b : TaskBody) (w : World) (task : Task) :
  faults w = [] → ids_coherent w →
  missing_name_or_deadline b = false →
  tasks w !! id = Some task →
  let oldU := assignedUser task in
  let newU := or_default (tb_assignedUser b) "" in
  let newC := coerce_completed (tb_completed b) in
  ∃ r w',
    put_tasks id b w = (r, w')
    ∧ status_of r = 200%nat
    ∧ (∀ u1, oldU ≠ "" →
         oldU ≠ newU ∨ (newC = true ∧ completed task = false) →
         users w !! oldU = Some u1 →
         ∃ u1', users w' !! oldU = Some u1'
                ∧ pendingTasks u1' = filter (fun x => x ≠ id) (pendingTasks u1))
    ∧ (∀ u2, newU ≠ "" → newC = false → oldU ≠ newU →
         users w !! newU = Some u2 →
         ∃ u2', users w' !! newU = Some u2'
                ∧ pendingTasks u2'
                  = (if decide (id ∈ pendingTasks u2) then pendingTasks u2
                     else (pendingTasks u2 ++ [id])%list)).
Proof.
  destruct w as [us ts fs].
  intros Hfs [Hcu Hct] Hv Hf oldU newU newC.
  cbn [faults users tasks] in Hfs, Hcu, Hct, Hf |- *. subst fs.
  pose proof (Hct _ _ Hf) as Hid.
  rewrite (put_tasks_ok id b task us ts Hv Hf). cbn zeta.
  fold oldU newU newC. rewrite Hid.
  do 2 eexists. split; [reflexivity|]. split; [reflexivity|].
  cbn [users]. split.
  - intros u1 Ho Hch Hu1.
    assert (Hrm : bool_decide (oldU ≠ "")
                  && (bool_decide (oldU ≠ newU) || newC && negb (completed task))
                  = true).
    { rewrite bool_decide_true by exact Ho. cbn [andb].
      destruct Hch as [Hd | [-> ->]].
      - rewrite bool_decide_true by exact Hd. reflexivity.
      - apply orb_true_r. }
    rewrite Hrm.
    exists (set_pendingTasks (filter (fun x => x ≠ id) (pendingTasks u1)) u1).
    split; [|reflexivity].
    destruct (bool_decide (newU ≠ "") && negb newC && bool_decide (oldU ≠ newU))
      eqn:Hadd.
    + apply andb_prop in Hadd as [_ Hd]. apply bool_decide_eq_true in Hd.
      rewrite (pushed_lookup_ne _ (pulled_coherent us Hcu oldU id)) by exact Hd.
      apply (pulled_lookup us Hcu), Hu1.
    + apply (pulled_lookup us Hcu), Hu1.
  - intros u2 Hn Hc Hd Hu2.
    assert (Hadd : bool_decide (newU ≠ "") && negb newC && bool_decide (oldU ≠ newU)
                   = true).
    { rewrite Hc, !bool_decide_true by assumption. reflexivity. }
    rewrite Hadd.
    exists (set_pendingTasks
              (if decide (id ∈ pendingTasks u2) then pendingTasks u2
               else pendingTasks u2 ++ [id]) u2).
    split; [|reflexivity].
    destruct (bool_decide (oldU ≠ "")
              && (bool_decide (oldU ≠ newU) || newC && negb (completed task))).
    + apply (pushed_lookup _ (pulled_coherent us Hcu oldU id)).
      rewrite (pulled_lookup_ne us Hcu) by congruence. exact Hu2.
    + apply (pushed_lookup us Hcu), Hu2.
Qed.

(** ** Batches of task updates *)

Lemma Promise_all_map_ok (f : string -> Promise unit)
    (g : string -> gmap string Task -> gmap string Task) (l : list string) :
  (∀ taskId us ts,
     f taskId (mkWorld us ts []) = (Resolved tt, mkWorld us (g taskId ts) [])) →
  ∀ us ts,
    Promise_all (map f l) (mkWorld us ts [])
    = (Resolved (map (fun _ => tt) l),
       mkWorld us (foldl (fun acc taskId => g taskId acc) ts l) []).
Proof.
  intros Hf. induction l as [|taskId l IH]; intros us ts; [reflexivity|].
  cbn [map Promise_all foldl]. rewrite Hf, IH. reflexivity.
Qed.

Section Reassignment.

Variables a n : string.

Lemma reassigned_lookup (ts : gmap string Task) (taskId k : string) :
  (∀ k t, ts !! k = Some t → t_id t = k) →
  reassigned a n taskId ts !! k
  = (fun t => if decide (k = taskId) then set_assignment a n t else t) <$> ts !! k.
Proof.
  intros Hcoh. unfold reassigned.
  destruct (ts !! taskId) as [t|] eqn:Ht.
  - rewrite (Hcoh _ _ Ht). destruct (decide (k = taskId)) as [->|Hk].
    + rewrite lookup_insert_eq, Ht. reflexivity.
    + rewrite lookup_insert_ne by congruence.
      destruct (ts !! k); reflexivity.
  - destruct (decide (k = taskId)) as [->|Hk].
    + rewrite Ht. reflexivity.
    + destruct (ts !! k); reflexivity.
Qed.

Lemma reassigned_coherent (ts : gmap string Task) (taskId : string) :
  (∀ k t, ts !! k = Some t → t_id t = k) →
  ∀ k t, reassigned a n taskId ts !! k = Some t → t_id t = k.
Proof.
  intros Hcoh k t. rewrite (reassigned_lookup ts taskId k Hcoh).
  destruct (ts !! k) as [t0|] eqn:Hk; [|discriminate].
  cbn. intros [= <-]. destruct (decide (k = taskId)); apply (Hcoh _ _ Hk).
Qed.

(** A batch of reassignments changes exactly the listed tasks that exist. *)
Lemma reassigned_all_lookup (l : list string) :
  ∀ (ts : gmap string Task) (k : string),
    (∀ k t, ts !! k = Some t → t_id t = k) →
    foldl (fun acc taskId => reassigned a n taskId acc) ts l !! k
    = (fun t => if decide (k ∈ l) then set_assignment a n t else t) <$> ts !! k.
Proof.
  induction l as [|taskId l IH]; intros ts k Hcoh.
  - cbn [foldl]. destruct (ts !! k) as [t|]; [|reflexivity].
    cbn. destruct (decide (k ∈ [])) as [Hin|]; [|reflexivity].
    apply elem_of_nil in Hin. contradiction.
  - cbn [foldl]. rewrite (IH _ k (reassigned_coherent ts taskId Hcoh)).
    rewrite (reassigned_lookup ts taskId k Hcoh).
    destruct (ts !! k) as [t|]; [|reflexivity]. cbn. f_equal.
    destruct (decide (k = taskId)) as [Hk|Hk];
      destruct (decide (k ∈ l)) as [Hin|Hin];
      destruct (decide (k ∈ taskId :: l)) as [Hc|Hc];
      try reflexivity; exfalso.
    + apply Hc, elem_of_cons. left. exact Hk.
    + apply Hc, elem_of_cons. left. exact Hk.
    + apply Hc, elem_of_cons. right. exact Hin.
    + apply elem_of_cons in Hc as [?|?]; contradiction.
Qed.

End Reassignment.

(** ** Promises that do not write to the users collection *)

Lemma keeps_users_resolve {A} (a : A) : keeps_users (resolve a).
Proof. intros w r w' [= _ <-]. reflexivity. Qed.

Lemma keeps_users_then {A B} (p : Promise A) (k : A -> Promise B) :
  keeps_users p → (∀ a, keeps_users (k a)) → keeps_users (then_ p k).
Proof.
  intros Hp Hk w r w'. unfold then_.
  destruct (p w) as [[a|e] w1] eqn:E.
  - intros H. rewrite (Hk a _ _ _ H). exact (Hp _ _ _ E).
  - intros [= _ <-]. exact (Hp _ _ _ E).
Qed.

Lemma keeps_users_store_call {A} (op : World -> A * World) :
  (∀ w, users (op w).2 = users w) → keeps_users (store_call op).
Proof.
  intros Hop w r w'. unfold store_call.
  destruct (faults w) as [|[e|] rest].
  - specialize (Hop w). destruct (op w) as [a w1]. intros [= _ <-]. exact Hop.
  - intros [= _ <-]. reflexivity.
  - specialize (Hop (mkWorld (users w) (tasks w) rest)).
    destruct (op _) as [a w1]. intros [= _ <-]. exact Hop.
Qed.

Lemma keeps_users_User_findById (id : string) : keeps_users (User_findById id).
Proof. apply keeps_users_store_call. reflexivity. Qed.

Lemma keeps_users_reassign (a n taskId : string) :
  keeps_users
    (then_ (Task_findById taskId)
       (fun found =>
          match found with
          | Some task => then_ (Task_save (set_assignment a n task))
                               (fun _ => resolve tt)
          | None => resolve tt
          end)).
Proof.
  apply keeps_users_then; [apply keeps_users_store_call; reflexivity|].
  intros [t|]; [|apply keeps_users_resolve].
  apply keeps_users_then; [apply keeps_users_store_call; reflexivity|].
  intros _. apply keeps_users_resolve.
Qed.

Lemma keeps_users_unassign_task (taskId : string) :
  keeps_users (unassign_task taskId).
Proof. apply keeps_users_reassign. Qed.

Lemma Forall_map_all {A B} (P : B -> Prop) (f : A -> B) (l : list A) :
  (∀ x, P (f x)) → Forall P (map f l).
Proof. intros H. induction l; constructor; auto. Qed.

Lemma keeps_users_Promise_all {A} (ps : list (Promise A)) :
  Forall keeps_users ps → keeps_users (Promise_all ps).
Proof.
  induction 1 as [|p ps Hp _ IH]; intros w r w'.
  - intros [= _ <-]. reflexivity.
  - cbn [Promise_all].
    destruct (p w) as [r1 w1] eqn:E1.
    destruct (Promise_all ps w1) as [rs w2] eqn:E2.
    intros [= _ <-]. rewrite (IH _ _ _ E2). exact (Hp _ _ _ E1).
Qed.

(** DELETE /api/users/:id when the store rejects nothing. *)
Lemma delete_users_ok (id : string) (user : User) us ts :
  us !! id = Some user →
  delete_users id (mkWorld us ts [])
  = (Send 204,
     mkWorld (delete (u_id user) us) (unassigned_all (pendingTasks user) ts) []).
Proof.
  intros Hu. unfold delete_users, respond, then_ at 1.
  rewrite User_findById_ok, Hu. unfold then_ at 1.
  rewrite (Promise_all_map_ok unassign_task (reassigned "" "unassigned"))
    by apply unassign_task_ok.
  reflexivity.
Qed.

(** C8: DELETE /api/users/:id.  For an existing user every task listed in
    the user's [pendingTasks] is set to [assignedUser = ""] and
    [assignedUserName = "unassigned"] (an id without a task is passed over,
    every other task is left as it is), then the user document is deleted
    and the answer is 204 with no body; the deletion comes last, so a
    request that does not end in 204 has deleted nobody.  For an id without
    a user the answer is 404 and nothing changes. *)
Theorem C8_delete_users_unassigns (id : string) (w : World) :
  faults w = [] → ids_coherent w →
  (∀ user, users w !! id = Some user →
     ∃ w', delete_users id w = (Send 204, w')
           ∧ users w' = delete id (users w)
           ∧ (∀ k, tasks w' !! k
                   = (fun t => if decide (k ∈ pendingTasks user)
                               then set_assignment "" "unassigned" t else t)
                       <$> tasks w !! k)
           ∧ (∀ k t', k ∈ pendingTasks user → tasks w' !! k = Some t' →
                assignedUser t' = "" ∧ assignedUserName t' = "unassigned"))
  ∧ (users w !! id = None →
     delete_users id w = (sendError 404 "User not found" None, w))
  ∧ (∀ w0 r w', delete_users id w0 = (r, w') →
       status_of r ≠ 204%nat → users w' = users w0).
Proof.
  destruct w as [us ts fs]. cbn [faults users tasks].
  intros -> [Hcu Hct]. cbn [users tasks] in Hcu, Hct.
  split; [|split].
  - intros user Hu. rewrite (delete_users_ok id user us ts Hu).
    eexists. split; [reflexivity|]. cbn [users tasks].
    split; [rewrite (Hcu _ _ Hu); reflexivity|].
    assert (Hl : ∀ k, unassigned_all (pendingTasks user) ts !! k
                      = (fun t => if decide (k ∈ pendingTasks user)
                                  then set_assignment "" "unassigned" t else t)
                          <$> ts !! k)
      by (intros k; apply reassigned_all_lookup, Hct).
    split; [exact Hl|].
    intros k t' Hin. rewrite Hl.
    destruct (ts !! k) as [t|]; [|discriminate]. cbn.
    rewrite decide_True by exact Hin. intros [= <-]. split; reflexivity.
  - intros Hu. unfold delete_users, respond, then_.
    rewrite User_findById_ok, Hu. reflexivity.
  - intros w0 r w'. unfold delete_users, respond, then_ at 1.
    destruct (User_findById id w0) as [[found|e] w1] eqn:E1.
    2:{ intros [= <- <-] _.
        exact (keeps_users_User_findById _ _ _ _ E1). }
    assert (H1 : users w1 = users w0)
      by exact (keeps_users_User_findById _ _ _ _ E1).
    destruct found as [user|]; [|intros [= <- <-] _; exact H1].
    unfold then_ at 1.
    destruct (Promise_all (map unassign_task (pendingTasks user)) w1)
      as [[l|e] w2] eqn:E2.
    2:{ intros [= <- <-] _. rewrite <- H1.
        refine (keeps_users_Promise_all _ _ _ _ _ E2).
        apply Forall_map_all, keeps_users_unassign_task. }
    assert (H2 : users w2 = users w1).
    { refine (keeps_users_Promise_all _ _ _ _ _ E2).
      apply Forall_map_all, keeps_users_unassign_task. }
    unfold then_, User_findByIdAndDelete, store_call.
    destruct (faults w2) as [|[e|] rest]; cbn.
    + intros [= <- <-] Hs. contradiction Hs. reflexivity.
    + intros [= <- <-] _. cbn. congruence.
    + intros [= <- <-] Hs. contradiction Hs. reflexivity.
Qed.

(** ** Rejections that reach the response *)

Lemma fault_free_refl (w : World) : fault_free w w.
Proof. exists []. split; [reflexivity | constructor]. Qed.

Lemma fault_free_trans (w1 w2 w3 : World) :
  fault_free w1 w2 → fault_free w2 w3 → fault_free w1 w3.
Proof.
  intros (u1 & H1 & F1) (u2 & H2 & F2). exists (u1 ++ u2)%list. split.
  - rewrite H1, H2. apply app_assoc.
  - apply Forall_app. split; assumption.
Qed.

Lemma surfacing_resolve {A} (a : A) : surfacing (resolve a).
Proof. intros w a' w' [= _ <-]. apply fault_free_refl. Qed.

Lemma surfacing_then {A B} (p : Promise A) (k : A -> Promise B) :
  surfacing p → (∀ a, surfacing (k a)) → surfacing (then_ p k).
Proof.
  intros Hp Hk w b w'. unfold then_.
  destruct (p w) as [[a|e] w1] eqn:E; [|discriminate].
  intros H. eapply fault_free_trans; [exact (Hp _ _ _ E) | exact (Hk _ _ _ _ H)].
Qed.

Lemma surfacing_store_call {A} (op : World -> A * World) :
  (∀ w, faults (op w).2 = faults w) → surfacing (store_call op).
Proof.
  intros Hop w a w'. unfold store_call.
  destruct (faults w) as [|[e|] rest] eqn:Hf.
  - specialize (Hop w). destruct (op w) as [a1 w1]. intros [= _ <-].
    exists []. cbn in *. split; [congruence | constructor].
  - discriminate.
  - specialize (Hop (mkWorld (users w) (tasks w) rest)).
    destruct (op _) as [a1 w1]. intros [= _ <-].
    exists [None]. cbn in *. rewrite Hf, Hop. split; [reflexivity|].
    repeat constructor.
Qed.

Lemma surfacing_Promise_all {A} (ps : list (Promise A)) :
  Forall surfacing ps → surfacing (Promise_all ps).
Proof.
  induction 1 as [|p ps Hp _ IH]; intros w l w'.
  - intros [= _ <-]. apply fault_free_refl.
  - cbn [Promise_all].
    destruct (p w) as [[a|e] w1] eqn:E1;
      destruct (Promise_all ps w1) as [[l1|e1] w2] eqn:E2;
      intros [= _ <-] || discriminate.
    eapply fault_free_trans; [exact (Hp _ _ _ E1) | exact (IH _ _ _ E2)].
Qed.

Lemma surfacing_User_findById (id : string) : surfacing (User_findById id).
Proof. apply surfacing_store_call. reflexivity. Qed.

Lemma surfacing_User_save (u : User) : surfacing (User_save u).
Proof. apply surfacing_store_call. reflexivity. Qed.

Lemma surfacing_Task_findById (id : string) : surfacing (Task_findById id).
Proof. apply surfacing_store_call. reflexivity. Qed.

Lemma surfacing_Task_save (t : Task) : surfacing (Task_save t).
Proof. apply surfacing_store_call. reflexivity. Qed.

Lemma surfacing_push_pending (uid taskId : string) :
  surfacing (push_pending uid taskId).
Proof.
  apply surfacing_then; [apply surfacing_User_findById|].
  intros [u|]; [|apply surfacing_resolve].
  destruct (decide (taskId ∈ pendingTasks u)); [apply surfacing_resolve|].
  apply surfacing_then; [apply surfacing_User_save|].
  intros _. apply surfacing_resolve.
Qed.

Lemma surfacing_pull_pending (uid taskId : string) :
  surfacing (pull_pending uid taskId).
Proof.
  apply surfacing_then; [apply surfacing_User_findById|].
  intros [u|]; [|apply surfacing_resolve].
  apply surfacing_then; [apply surfacing_User_save|].
  intros _. apply surfacing_resolve.
Qed.

Lemma surfacing_assign_task (user : User) (taskId : string) :
  surfacing (assign_task user taskId).
Proof.
  apply surfacing_then; [apply surfacing_Task_findById|].
  intros [t|]; [|apply surfacing_resolve].
  apply surfacing_then; [apply surfacing_Task_save|].
  intros _. apply surfacing_resolve.
Qed.

Lemma surfacing_unassign_task (taskId : string) : surfacing (unassign_task taskId).
Proof.
  apply surfacing_then; [apply surfacing_Task_findById|].
  intros [t|]; [|apply surfacing_resolve].
  apply surfacing_then; [apply surfacing_Task_save|].
  intros _. apply surfacing_resolve.
Qed.

Lemma surfacing_put_tasks_saved oldU oldC newU newC (updatedTask : Task) :
  surfacing (put_tasks_saved oldU oldC newU newC updatedTask).
Proof.
  unfold put_tasks_saved.
  destruct (bool_decide (oldU ≠ "") && _).
  - apply surfacing_then; [apply surfacing_pull_pending|]. intros _.
    apply surfacing_then; [|intros _; apply surfacing_resolve].
    destruct (bool_decide (newU ≠ "") && negb newC);
      [apply surfacing_push_pending | apply surfacing_resolve].
  - destruct (bool_decide (newU ≠ "") && negb newC && _).
    + apply surfacing_then; [apply surfacing_push_pending|].
      intros _. apply surfacing_resolve.
    + apply surfacing_resolve.
Qed.

Lemma surfacing_put_users_saved oldP newP oldName newName (updatedUser : User) :
  surfacing (put_users_saved oldP newP oldName newName updatedUser).
Proof.
  unfold put_users_saved.
  apply surfacing_then; [|intros _; apply surfacing_resolve].
  apply surfacing_Promise_all.
  apply Forall_app. split; [apply Forall_map_all, surfacing_unassign_task|].
  apply Forall_app. split; [apply Forall_map_all, surfacing_assign_task|].
  destruct (bool_decide (oldName ≠ newName)); [|constructor].
  repeat constructor. apply surfacing_store_call. reflexivity.
Qed.

(** The POST /api/users callback never rejects; it answers 201 only after a
    batch in which every call succeeded. *)
Lemma post_users_saved_surfacing (savedUser : User) (w : World) r w' :
  post_users_saved savedUser w = (r, w') →
  ∃ resp, r = Resolved resp
          ∧ (status_of resp = 201%nat ∧ fault_free w w'
             ∨ status_of resp = 500%nat).
Proof.
  unfold post_users_saved.
  destruct (0 <? length (pendingTasks savedUser))%nat.
  - unfold catch_, then_.
    destruct (Promise_all _ w) as [[l|e] w1] eqn:E.
    + intros [= <- <-]. eexists. split; [reflexivity|]. left.
      split; [reflexivity|].
      refine (surfacing_Promise_all _ _ _ _ _ E).
      apply Forall_map_all, surfacing_assign_task.
    + intros [= <- <-]. eexists. split; [reflexivity|]. right. reflexivity.
  - intros [= <- <-]. eexists. split; [reflexivity|]. left.
    split; [reflexivity | apply fault_free_refl].
Qed.

Lemma User_save_rejected (u : User) (w : World) e w' :
  User_save u w = (Rejected e, w') → users w' = users w.
Proof.
  unfold User_save, store_call.
  destruct (faults w) as [|[e'|] rest]; intros H; inversion H; reflexivity.
Qed.

Lemma status_of_user_error (what : string) (err : StoreError) :
  status_of (if duplicate_key err
             then sendError 400 "User with this email already exists" None
             else sendError 500 what (Some (message err))) ≠ 201%nat
  ∧ status_of (if duplicate_key err
               then sendError 400 "User with this email already exists" None
               else sendError 500 what (Some (message err))) ≠ 200%nat.
Proof. destruct (duplicate_key err); split; discriminate. Qed.

(** C3, as the code has it.  Only POST /api/tasks hides a failure of the
    repair step: its callback answers 201 whatever happens to the update of
    [User.pendingTasks], so the request answers 201 whenever the task was
    written.  POST /api/users answers 500 when the user was written and a
    call of the repair was rejected; and a 201 of POST /api/users, a 200 of
    PUT /api/users/:id and a resolved callback of PUT /api/tasks/:id each
    mean that no store call was rejected on the way. *)
Theorem C3_repair_failures :
  (∀ savedTask w, ∃ w',
     post_tasks_saved savedTask w
     = (Resolved (sendSuccess 201 "Task created successfully" (PTask savedTask)), w'))
  ∧ (∀ b newId now w r w',
       post_tasks b newId now w = (r, w') →
       tasks w !! newId = None → is_Some (tasks w' !! newId) →
       status_of r = 201%nat)
  ∧ (∀ b newId now w r w',
       post_users b newId now w = (r, w') →
       (status_of r = 201%nat → fault_free w w')
       ∧ (users w !! newId = None → is_Some (users w' !! newId) →
          ¬ fault_free w w' → status_of r = 500%nat))
  ∧ (∀ id b w r w',
       put_users id b w = (r, w') → status_of r = 200%nat → fault_free w w')
  ∧ (∀ oldU oldC newU newC updatedTask w r w',
       put_tasks_saved oldU oldC newU newC updatedTask w = (Resolved r, w') →
       fault_free w w')
  ∧ (∀ id b w r w',
       wants_user_name (or_default (tb_assignedUser b) "") b = false →
       put_tasks id b w = (r, w') → status_of r = 200%nat → fault_free w w').
Proof.
  split; [|split; [|split; [|split; [|split]]]].
  - intros savedTask w.
    destruct (post_tasks_saved_resolves savedTask w) as (w' & H & _). eauto.
  - intros b newId now w r w'. unfold post_tasks.
    destruct (missing_name_or_deadline b).
    { intros [= <- <-] Hn [t Ht]. congruence. }
    unfold respond, then_ at 1.
    destruct (fetchUserName_resolves (or_default (tb_assignedUser b) "") b w)
      as (n & w1 & -> & _ & Ht1).
    unfold then_.
    destruct (Task_save _ w1) as [[t|e] w2] eqn:E2.
    + destruct (post_tasks_saved_resolves t w2) as (w3 & -> & _).
      intros [= <- <-] _ _. reflexivity.
    + apply Task_save_cases in E2 as [(e' & _ & H2) | ([=] & _)].
      intros [= <- <-] Hn [t Ht]. congruence.
  - intros b newId now w r w'. unfold post_users.
    destruct (missing_name_or_email b).
    { intros [= <- <-]. split; [discriminate|].
      intros Hn [u Hu]. congruence. }
    unfold respond, then_.
    destruct (User_save _ w) as [[u|e] w1] eqn:E1.
    + destruct (post_users_saved u w1) as [r2 w2] eqn:E2.
      destruct (post_users_saved_surfacing _ _ _ _ E2)
        as (resp & -> & [[Hs Hff] | Hs]);
        intros [= <- <-]; split.
      * intros _. eapply fault_free_trans; [|exact Hff].
        exact (surfacing_User_save _ _ _ _ E1).
      * intros _ _ Hnot. contradiction Hnot.
        eapply fault_free_trans; [|exact Hff].
        exact (surfacing_User_save _ _ _ _ E1).
      * rewrite Hs. discriminate.
      * intros _ _ _. exact Hs.
    + intros [= <- <-]. split.
      * intros Hs. destruct (status_of_user_error "Error creating user" e) as [H _].
        contradiction.
      * intros Hn [u Hu].
        rewrite (User_save_rejected _ _ _ _ E1) in Hu. congruence.
  - intros id b w r w'. unfold put_users.
    destruct (missing_name_or_email b).
    { intros [= <- <-]. discriminate. }
    unfold respond.
    match goal with
    | |- context [match ?p w with _ => _ end] =>
        assert (Hp : surfacing p); [|destruct (p w) as [[resp|e] w1] eqn:E]
    end.
    + apply surfacing_then; [apply surfacing_User_findById|].
      intros [user|]; [|apply surfacing_resolve].
      apply surfacing_then; [apply surfacing_User_save|].
      intros u. apply surfacing_put_users_saved.
    + intros [= <- <-] _. exact (Hp _ _ _ E).
    + intros [= <- <-] Hs.
      destruct (status_of_user_error "Error updating user" e) as [_ H].
      contradiction.
  - intros oldU oldC newU newC updatedTask w r w'.
    apply surfacing_put_tasks_saved.
  - intros id b w r w' Hw. unfold put_tasks.
    destruct (missing_name_or_deadline b).
    { intros [= <- <-]. discriminate. }
    unfold respond.
    match goal with
    | |- context [match ?p w with _ => _ end] =>
        assert (Hp : surfacing p); [|destruct (p w) as [[resp|e] w1] eqn:E]
    end.
    + apply surfacing_then; [apply surfacing_Task_findById|].
      intros [task|]; [|apply surfacing_resolve].
      apply surfacing_then.
      { unfold fetchUserName. rewrite Hw. apply surfacing_resolve. }
      intros n. apply surfacing_then; [apply surfacing_Task_save|].
      intros t. apply surfacing_put_tasks_saved.
    + intros [= <- <-] _. exact (Hp _ _ _ E).
    + intros [= <- <-]. discriminate.
Qed.

(** C3 as written fails.  POST /api/users writes the user Carol, the save of
    the task she is to get is rejected, and the answer is 500 "Error updating
    assigned tasks" although the user is in the store.  PUT /api/tasks/t1
    writes the task with its new user, the lookup of the old user is
    rejected, and the answer is 500 "Error updating task".  PUT /api/users/u1
    writes the user with an empty list, the lookup of the task to unassign
    is rejected, and the answer is 500 "Error updating user". *)
Lemma C3_post_users_surfaces_repair_failure :
  (let '(r, w') := post_users carol_body "u3" 7 failing_store in
   r = Json 500 "Error updating assigned tasks" (PString "connection lost")
   ∧ users w' !! "u3"
     = Some (mkUser "u3" "Carol" "carol@example.org" ["t1"] 7)
   ∧ status_of r ≠ 201%nat)
  ∧ (let '(r, w') :=
       put_tasks "t1" to_bob_body
         (with_faults [None; None; None; Some connection_lost] busy_store) in
     r = Json 500 "Error updating task" (PString "connection lost")
     ∧ tasks w' !! "t1" = Some (set_assignment "u2" "Bob" report)
     ∧ status_of r ≠ 200%nat)
  ∧ (let '(r, w') :=
       put_users "u1" ann_body
         (with_faults [None; None; Some connection_lost] busy_store) in
     r = Json 500 "Error updating user" (PString "connection lost")
     ∧ users w' !! "u1" = Some ann
     ∧ status_of r ≠ 200%nat).
Proof. vm_compute. repeat split; discriminate. Qed.

(** ** The example stores *)

Lemma coherent_empty {A} (key : A -> string) :
  ∀ k x, (∅ : gmap string A) !! k = Some x → key x = k.
Proof. intros k x H. rewrite lookup_empty in H. discriminate. Qed.

Lemma coherent_insert {A} (key : A -> string) (m : gmap string A) (x : A) :
  (∀ k y, m !! k = Some y → key y = k) →
  ∀ k y, <[key x := x]> m !! k = Some y → key y = k.
Proof.
  intros Hm k y. destruct (decide (key x = k)) as [<-|Hk].
  - rewrite lookup_insert_eq. intros [= <-]. reflexivity.
  - rewrite lookup_insert_ne by exact Hk. apply Hm.
Qed.

Lemma finished_store_coherent : ids_coherent finished_store.
Proof.
  split.
  - apply (coherent_insert u_id ∅ ann), coherent_empty.
  - apply (coherent_insert t_id ∅
             (mkTask "t1" "Write report" "" "2025-01-01" true "u1" "Ann" 0)),
      coherent_empty.
Qed.

Lemma busy_store_coherent : ids_coherent busy_store.
Proof.
  split.
  - apply (coherent_insert u_id _ (set_pendingTasks ["t1"] ann)).
    apply (coherent_insert u_id ∅ bob), coherent_empty.
  - apply (coherent_insert t_id ∅ (set_assignment "u1" "Ann" report)),
      coherent_empty.
Qed.

Lemma two_tasks_store_coherent : ids_coherent two_tasks_store.
Proof.
  split.
  - apply (coherent_insert u_id ∅ (set_pendingTasks ["t1"; "t2"] ann)),
      coherent_empty.
  - apply (coherent_insert t_id _ (set_assignment "u1" "Ann" report)).
    apply (coherent_insert t_id ∅ (set_assignment "u1" "Ann" review)),
      coherent_empty.
Qed.

(** The theorem for a task created for Ann, who has no pending task yet. *)
Lemma C7_post_tasks_adds_pending_witness :
  (faults finished_store = [] ∧ ids_coherent finished_store
   ∧ missing_name_or_deadline reopen_body = false
   ∧ tb_assignedUser reopen_body = Some "u1" ∧ "u1" ≠ ""
   ∧ coerce_completed (tb_completed reopen_body) = false
   ∧ users finished_store !! "u1" = Some ann)
  ∧ ∃ r w' t u',
      post_tasks reopen_body "t9" 3 finished_store = (r, w')
      ∧ status_of r = 201%nat
      ∧ tasks w' !! "t9" = Some t
      ∧ t_id t = "t9" ∧ assignedUser t = "u1" ∧ completed t = false
      ∧ users w' !! "u1" = Some u'
      ∧ pendingTasks u'
        = (if decide ("t9" ∈ pendingTasks ann) then pendingTasks ann
           else (pendingTasks ann ++ ["t9"])%list)
      ∧ ("t9" ∉ pendingTasks ann →
         count_occ string_dec (pendingTasks u') "t9" = 1%nat).
Proof.
  assert (H1 : faults finished_store = []) by reflexivity.
  assert (H3 : missing_name_or_deadline reopen_body = false) by reflexivity.
  assert (H4 : tb_assignedUser reopen_body = Some "u1") by reflexivity.
  assert (H5 : "u1" ≠ "") by discriminate.
  assert (H6 : coerce_completed (tb_completed reopen_body) = false) by reflexivity.
  assert (H7 : users finished_store !! "u1" = Some ann) by reflexivity.
  split; [repeat split; try assumption; apply finished_store_coherent|].
  exact (C7_post_tasks_adds_pending reopen_body "t9" 3 finished_store "u1" ann
           H1 finished_store_coherent H3 H4 H5 H6 H7).
Defined.

(** The theorem for the task of Ann that is handed to Bob. *)
Lemma C4_put_tasks_moves_pending_witness :
  (faults busy_store = [] ∧ ids_coherent busy_store
   ∧ missing_name_or_deadline to_bob_body = false
   ∧ tasks busy_store !! "t1" = Some (set_assignment "u1" "Ann" report))
  ∧ ∃ r w',
      put_tasks "t1" to_bob_body busy_store = (r, w')
      ∧ status_of r = 200%nat
      ∧ (∃ u1', users w' !! "u1" = Some u1' ∧ pendingTasks u1' = [])
      ∧ (∃ u2', users w' !! "u2" = Some u2' ∧ pendingTasks u2' = ["t1"]).
Proof.
  assert (H1 : faults busy_store = []) by reflexivity.
  assert (H3 : missing_name_or_deadline to_bob_body = false) by reflexivity.
  assert (H4 : tasks busy_store !! "t1" = Some (set_assignment "u1" "Ann" report))
    by reflexivity.
  split; [repeat split; try assumption; apply busy_store_coherent|].
  destruct (C4_put_tasks_moves_pending "t1" to_bob_body busy_store
              (set_assignment "u1" "Ann" report) H1 busy_store_coherent H3 H4)
    as (r & w' & Hrun & Hst & Hrm & Hadd).
  exists r, w'. split; [exact Hrun|]. split; [exact Hst|]. split.
  - apply (Hrm (set_pendingTasks ["t1"] ann)).
    + discriminate.
    + left. discriminate.
    + reflexivity.
  - apply (Hadd bob).
    + discriminate.
    + reflexivity.
    + discriminate.
    + reflexivity.
Defined.

(** The theorem for Ann with her two pending tasks. *)
Lemma C8_delete_users_unassigns_witness :
  (faults two_tasks_store = [] ∧ ids_coherent two_tasks_store)
  ∧ ∃ w', delete_users "u1" two_tasks_store = (Send 204, w')
          ∧ users w' = delete "u1" (users two_tasks_store)
          ∧ (∀ k t', k ∈ ["t1"; "t2"] → tasks w' !! k = Some t' →
               assignedUser t' = "" ∧ assignedUserName t' = "unassigned").
Proof.
  assert (H1 : faults two_tasks_store = []) by reflexivity.
  split; [split; [exact H1 | apply two_tasks_store_coherent]|].
  destruct (C8_delete_users_unassigns "u1" two_tasks_store H1
              two_tasks_store_coherent) as (Hdel & _ & _).
  destruct (Hdel (set_pendingTasks ["t1"; "t2"] ann) eq_refl)
    as (w' & Hrun & Hus & _ & Hts).
  exists w'. split; [exact Hrun|]. split; [exact Hus|]. exact Hts.
Defined.

(* ===================================================================== *)
(** * The invariant of pending tasks *)
(* ===================================================================== *)

(** ** The remaining handlers when the store rejects nothing *)

Lemma Promise_all_app_ok {A} (ps1 ps2 : list (Promise A)) w l1 w1 l2 w2 :
  Promise_all ps1 w = (Resolved l1, w1) →
  Promise_all ps2 w1 = (Resolved l2, w2) →
  Promise_all (ps1 ++ ps2)%list w = (Resolved (l1 ++ l2)%list, w2).
Proof.
  revert w l1. induction ps1 as [|p ps1 IH]; intros w l1.
  - intros [= <- <-] H2. exact H2.
  - cbn [Promise_all app].
    destruct (p w) as [[a|e] w0] eqn:E0;
      destruct (Promise_all ps1 w0) as [[l0|e0] w3] eqn:E3;
      intros [= <- <-] || discriminate.
    intros H2. rewrite (IH _ _ E3 H2). reflexivity.
Qed.

Lemma delete_tasks_ok (id : string) (task : Task) us ts :
  ts !! id = Some task →
  delete_tasks id (mkWorld us ts [])
  = (Send 204,
     mkWorld (if bool_decide (assignedUser task ≠ "")
              then pulled (assignedUser task) (t_id task) us else us)
             (delete (t_id task) ts) []).
Proof.
  intros Hf. unfold delete_tasks, respond, then_ at 1.
  change (Task_findById id (mkWorld us ts []))
    with (Resolved (ts !! id), mkWorld us ts []).
  rewrite Hf. destruct (bool_decide (assignedUser task ≠ "")).
  - unfold then_ at 1. rewrite pull_pending_ok. reflexivity.
  - reflexivity.
Qed.

Lemma post_users_ok (b : UserBody) (newId : string) (now : Z) us ts :
  missing_name_or_email b = false →
  let user := mkUser newId (default "" (ub_name b)) (default "" (ub_email b))
                     (default [] (ub_pendingTasks b)) now in
  post_users b newId now (mkWorld us ts [])
  = (sendSuccess 201 "User created successfully" (PUser user),
     mkWorld (<[newId := user]> us) (assigned_all user (pendingTasks user) ts) []).
Proof.
  intros Hv user. unfold post_users. rewrite Hv. unfold respond, then_.
  change (User_save ?u (mkWorld us ts []))
    with (Resolved u, mkWorld (<[u_id u := u]> us) ts []).
  fold user. cbn [u_id user]. unfold post_users_saved.
  destruct (pendingTasks user) as [|taskId l] eqn:Hl; [reflexivity|].
  cbn [length Nat.ltb Nat.leb]. unfold catch_, then_.
  rewrite (Promise_all_map_ok (assign_task user)
             (reassigned (u_id user) (u_name user)))
    by apply assign_task_ok.
  reflexivity.
Qed.

Lemma put_users_ok (id : string) (b : UserBody) (user : User) us ts :
  missing_name_or_email b = false →
  us !! id = Some user →
  let new := default [] (ub_pendingTasks b) in
  let updated := mkUser (u_id user) (default "" (ub_name b))
                        (default "" (ub_email b)) new (u_dateCreated user) in
  let removed := filter (fun taskId => taskId ∉ new) (pendingTasks user) in
  let added := filter (fun taskId => taskId ∉ pendingTasks user) new in
  let ts2 := assigned_all updated added (unassigned_all removed ts) in
  put_users id b (mkWorld us ts [])
  = (sendSuccess 200 "User updated successfully" (PUser updated),
     mkWorld (<[u_id user := updated]> us)
             (if bool_decide (u_name user ≠ default "" (ub_name b))
              then rename_assigned (u_id user) (default "" (ub_name b)) <$> ts2
              else ts2) []).
Proof.
  intros Hv Hu new updated removed added ts2.
  unfold put_users. rewrite Hv. unfold respond, then_ at 1.
  rewrite User_findById_ok, Hu. unfold then_ at 1.
  change (User_save ?u (mkWorld us ts []))
    with (Resolved u, mkWorld (<[u_id u := u]> us) ts []).
  fold new updated. cbn [u_id updated].
  unfold put_users_saved. fold removed added. unfold then_.
  set (us' := <[u_id user := updated]> us).
  assert (H1 : Promise_all (map unassign_task removed) (mkWorld us' ts [])
               = (Resolved (map (fun _ => tt) removed),
                  mkWorld us' (unassigned_all removed ts) []))
    by (apply (Promise_all_map_ok unassign_task (reassigned "" "unassigned")),
          unassign_task_ok).
  assert (H2 : Promise_all (map (assign_task updated) added)
                 (mkWorld us' (unassigned_all removed ts) [])
               = (Resolved (map (fun _ => tt) added), mkWorld us' ts2 []))
    by (apply (Promise_all_map_ok (assign_task updated)
                 (reassigned (u_id updated) (u_name updated))), assign_task_ok).
  destruct (bool_decide (u_name user ≠ default "" (ub_name b))).
  - assert (H3 : Promise_all
                   [Task_updateMany_assignedUserName (u_id updated)
                      (default "" (ub_name b))]
                   (mkWorld us' ts2 [])
                 = (Resolved [tt],
                    mkWorld us'
                      (rename_assigned (u_id user) (default "" (ub_name b))
                         <$> ts2) []))
      by reflexivity.
    rewrite (Promise_all_app_ok _ _ _ _ _ _ _ H1
               (Promise_all_app_ok _ _ _ _ _ _ _ H2 H3)).
    reflexivity.
  - assert (H3 : Promise_all (@nil (Promise unit)) (mkWorld us' ts2 [])
                 = (Resolved [], mkWorld us' ts2 []))
      by reflexivity.
    rewrite (Promise_all_app_ok _ _ _ _ _ _ _ H1
               (Promise_all_app_ok _ _ _ _ _ _ _ H2 H3)).
    reflexivity.
Qed.

(** ** Membership in [pendingTasks] under the two list updates *)

Section Listed.

Variable us : gmap string User.
Hypothesis Hcoh : ∀ k u, us !! k = Some u → u_id u = k.

Lemma pushed_listed (uid taskId a x : string) :
  listed us a x → listed (pushed uid taskId us) a x.
Proof.
  intros (u & Hu & Hx). destruct (decide (a = uid)) as [->|Ha].
  - eexists. split; [apply (pushed_lookup us Hcoh), Hu|].
    cbn [pendingTasks set_pendingTasks].
    destruct (decide (taskId ∈ pendingTasks u)); [exact Hx|].
    apply elem_of_app. left. exact Hx.
  - exists u. split; [|exact Hx].
    rewrite (pushed_lookup_ne us Hcoh) by exact Ha. exact Hu.
Qed.

Lemma pushed_lists (uid taskId : string) :
  is_Some (us !! uid) → listed (pushed uid taskId us) uid taskId.
Proof.
  intros [u Hu]. eexists. split; [apply (pushed_lookup us Hcoh), Hu|].
  cbn [pendingTasks set_pendingTasks].
  destruct (decide (taskId ∈ pendingTasks u)) as [Hin|Hin]; [exact Hin|].
  apply elem_of_app. right. apply list_elem_of_singleton. reflexivity.
Qed.

Lemma pulled_listed (uid taskId a x : string) :
  x ≠ taskId → listed us a x → listed (pulled uid taskId us) a x.
Proof.
  intros Hne (u & Hu & Hx). destruct (decide (a = uid)) as [->|Ha].
  - eexists. split; [apply (pulled_lookup us Hcoh), Hu|].
    cbn [pendingTasks set_pendingTasks].
    apply list_elem_of_filter. split; assumption.
  - exists u. split; [|exact Hx].
    rewrite (pulled_lookup_ne us Hcoh) by exact Ha. exact Hu.
Qed.

End Listed.

(** ** The task routes keep the invariant *)

Lemma post_tasks_settled (b : TaskBody) (newId : string) (now : Z) (w : World) :
  settled w → names_user w b → settled (post_tasks b newId now w).2.
Proof.
  destruct w as [us ts fs]. intros (Hfs & [Hcu Hct] & Hinv) Hnames.
  cbn [faults users tasks] in Hfs, Hcu, Hct. subst fs.
  destruct (missing_name_or_deadline b) eqn:Hv.
  { unfold post_tasks. rewrite Hv. repeat split; assumption. }
  rewrite (post_tasks_ok b newId now us ts Hv). cbn [snd].
  unfold names_user in Hnames. cbn [users] in Hnames.
  set (a := or_default (tb_assignedUser b) "") in *.
  set (c := coerce_completed (tb_completed b)) in *.
  split; [reflexivity|]. split; [split|]; cbn [users tasks].
  - destruct (bool_decide (a ≠ "") && negb c); [|exact Hcu].
    apply pushed_coherent, Hcu.
  - apply (coherent_insert t_id ts (new_task b newId now us)), Hct.
  - intros k t Hk Ha Hc. cbn [users tasks] in Hk |- *.
    destruct (decide (k = newId)) as [->|Hne].
    + rewrite lookup_insert_eq in Hk. injection Hk as <-.
      cbn [new_task assignedUser completed t_id] in Ha, Hc |- *.
      fold a in Ha |- *. fold c in Hc.
      rewrite bool_decide_true, Hc by exact Ha. cbn [andb negb].
      apply (pushed_lists us Hcu).
      destruct Hnames as [H|[H|H]]; [contradiction | congruence | exact H].
    + rewrite lookup_insert_ne in Hk by congruence.
      pose proof (Hinv k t Hk Ha Hc) as Hl. cbn [users] in Hl.
      destruct (bool_decide (a ≠ "") && negb c); [|exact Hl].
      apply (pushed_listed us Hcu), Hl.
Qed.

Lemma put_tasks_settled (id : string) (b : TaskBody) (w : World) :
  settled w → names_user w b → ¬ reopens w id b →
  settled (put_tasks id b w).2.
Proof.
  destruct w as [us ts fs]. intros (Hfs & [Hcu Hct] & Hinv) Hnames Hre.
  cbn [faults users tasks] in Hfs, Hcu, Hct. subst fs.
  destruct (missing_name_or_deadline b) eqn:Hv.
  { unfold put_tasks. rewrite Hv. repeat split; assumption. }
  destruct (ts !! id) as [task|] eqn:Hf.
  2:{ unfold put_tasks. rewrite Hv. unfold respond, then_.
      change (Task_findById id (mkWorld us ts []))
        with (Resolved (ts !! id), mkWorld us ts []).
      rewrite Hf. repeat split; assumption. }
  rewrite (put_tasks_ok id b task us ts Hv Hf). cbn [snd].
  pose proof (Hct _ _ Hf) as Hid.
  unfold names_user in Hnames. cbn [users] in Hnames.
  set (oldU := assignedUser task) in *.
  set (newU := or_default (tb_assignedUser b) "") in *.
  set (newC := coerce_completed (tb_completed b)) in *.
  set (rm := bool_decide (oldU ≠ "")
             && (bool_decide (oldU ≠ newU) || newC && negb (completed task))).
  set (add := bool_decide (newU ≠ "") && negb newC && bool_decide (oldU ≠ newU)).
  set (us1 := if rm then pulled oldU (t_id task) us else us).
  assert (Hc1 : ∀ k u, us1 !! k = Some u → u_id u = k).
  { unfold us1. destruct rm; [apply pulled_coherent, Hcu | exact Hcu]. }
  split; [reflexivity|]. split; [split|]; cbn [users tasks].
  - destruct add; [apply pushed_coherent, Hc1 | exact Hc1].
  - apply (coherent_insert t_id ts (updated_task b task us)), Hct.
  - intros k t Hk Ha Hc. cbn [users tasks] in Hk |- *.
    rewrite Hid in Hk |- *.
    destruct (decide (k = id)) as [->|Hne].
    + rewrite lookup_insert_eq in Hk. injection Hk as <-.
      cbn [updated_task assignedUser completed t_id] in Ha, Hc |- *.
      fold newU in Ha |- *. fold newC in Hc. rewrite Hid.
      destruct (decide (oldU = newU)) as [Heq|Hd].
      * assert (Hadd : add = false).
        { unfold add. rewrite (bool_decide_false (oldU ≠ newU)) by tauto.
          apply andb_false_r. }
        assert (Hrm : rm = false).
        { unfold rm. rewrite (bool_decide_false (oldU ≠ newU)) by tauto.
          rewrite Hc. apply andb_false_r. }
        unfold us1. rewrite Hadd, Hrm.
        destruct (completed task) eqn:Hoc.
        { exfalso. apply Hre. exists task. cbn [tasks].
          repeat split; try assumption. fold oldU. congruence. }
        pose proof (Hinv id task Hf) as Hl. fold oldU in Hl.
        rewrite Hid, Heq in Hl. apply Hl; [exact Ha | exact Hoc].
      * assert (Hadd : add = true).
        { unfold add. rewrite Hc, !bool_decide_true by assumption.
          reflexivity. }
        rewrite Hadd. apply (pushed_lists us1 Hc1).
        destruct Hnames as [H|[H|[u Hu]]]; [contradiction | congruence |].
        exists u. unfold us1. destruct rm; [|exact Hu].
        rewrite (pulled_lookup_ne us Hcu) by congruence. exact Hu.
    + rewrite lookup_insert_ne in Hk by congruence.
      pose proof (Hinv k t Hk Ha Hc) as Hl. cbn [users] in Hl.
      assert (Hl1 : listed us1 (assignedUser t) (t_id t)).
      { unfold us1. destruct rm; [|exact Hl].
        apply (pulled_listed us Hcu); [|exact Hl].
        rewrite (Hct _ _ Hk), Hid. exact Hne. }
      destruct add; [|exact Hl1].
      apply (pushed_listed us1 Hc1), Hl1.
Qed.

Lemma coherent_delete {A} (key : A -> string) (m : gmap string A) (i : string) :
  (∀ k y, m !! k = Some y → key y = k) →
  ∀ k y, delete i m !! k = Some y → key y = k.
Proof.
  intros Hm k y Hk. apply lookup_delete_Some in Hk as [_ Hk]. exact (Hm _ _ Hk).
Qed.

Lemma delete_tasks_settled (id : string) (w : World) :
  settled w → settled (delete_tasks id w).2.
Proof.
  destruct w as [us ts fs]. intros (Hfs & [Hcu Hct] & Hinv).
  cbn [faults users tasks] in Hfs, Hcu, Hct. subst fs.
  destruct (ts !! id) as [task|] eqn:Hf.
  2:{ unfold delete_tasks, respond, then_.
      change (Task_findById id (mkWorld us ts []))
        with (Resolved (ts !! id), mkWorld us ts []).
      rewrite Hf. repeat split; assumption. }
  rewrite (delete_tasks_ok id task us ts Hf). cbn [snd].
  pose proof (Hct _ _ Hf) as Hid. rewrite Hid.
  split; [reflexivity|]. split; [split|]; cbn [users tasks].
  - destruct (bool_decide (assignedUser task ≠ ""));
      [apply pulled_coherent, Hcu | exact Hcu].
  - apply coherent_delete, Hct.
  - intros k t Hk Ha Hc. cbn [users tasks] in Hk |- *.
    apply lookup_delete_Some in Hk as [Hne Hk].
    pose proof (Hinv k t Hk Ha Hc) as Hl. cbn [users] in Hl.
    destruct (bool_decide (assignedUser task ≠ "")); [|exact Hl].
    apply (pulled_listed us Hcu); [|exact Hl].
    rewrite (Hct _ _ Hk). congruence.
Qed.

(** ** The user routes keep the invariant *)

Lemma reassigned_all_coherent (a n : string) (l : list string)
    (ts : gmap string Task) :
  (∀ k t, ts !! k = Some t → t_id t = k) →
  ∀ k t, foldl (fun acc taskId => reassigned a n taskId acc) ts l !! k = Some t →
         t_id t = k.
Proof.
  intros Hct k t. rewrite (reassigned_all_lookup a n l ts k Hct).
  destruct (ts !! k) as [t0|] eqn:Hk; [|discriminate].
  cbn. intros [= <-]. destruct (decide (k ∈ l)); apply (Hct _ _ Hk).
Qed.

Lemma rename_assigned_fields (uid newName : string) (t : Task) :
  t_id (rename_assigned uid newName t) = t_id t
  ∧ assignedUser (rename_assigned uid newName t) = assignedUser t
  ∧ completed (rename_assigned uid newName t) = completed t.
Proof.
  unfold rename_assigned. destruct (String.eqb (assignedUser t) uid);
    repeat split.
Qed.

Lemma post_users_settled (b : UserBody) (newId : string) (now : Z) (w : World) :
  settled w → users w !! newId = None →
  settled (post_users b newId now w).2.
Proof.
  destruct w as [us ts fs]. intros (Hfs & [Hcu Hct] & Hinv) Hfresh.
  cbn [faults users tasks] in Hfs, Hcu, Hct, Hfresh. subst fs.
  destruct (missing_name_or_email b) eqn:Hv.
  { unfold post_users. rewrite Hv. repeat split; assumption. }
  rewrite (post_users_ok b newId now us ts Hv). cbn [snd pendingTasks].
  set (new := default [] (ub_pendingTasks b)).
  set (user := mkUser newId (default "" (ub_name b)) (default "" (ub_email b))
                      new now).
  split; [reflexivity|]. split; [split|]; cbn [users tasks].
  - apply (coherent_insert u_id us user), Hcu.
  - apply reassigned_all_coherent, Hct.
  - intros k t' Hk Ha Hc. cbn [users tasks] in Hk |- *.
    unfold assigned_all in Hk.
    rewrite (reassigned_all_lookup _ _ _ ts k Hct) in Hk.
    destruct (ts !! k) as [t|] eqn:Ht; [|discriminate].
    injection Hk as Hk.
    destruct (decide (k ∈ new)) as [Hin|Hnin]; subst t'.
    + exists user. split; [apply lookup_insert_eq|].
      change (t_id t ∈ new). rewrite (Hct _ _ Ht). exact Hin.
    + destruct (Hinv k t Ht Ha Hc) as (u & Hu & Hx). cbn [users] in Hu.
      exists u. split; [|exact Hx].
      rewrite lookup_insert_ne; [exact Hu|].
      intros Heq. rewrite <- Heq in Hu. congruence.
Qed.

Lemma delete_users_settled (id : string) (w : World) :
  settled w → settled (delete_users id w).2.
Proof.
  destruct w as [us ts fs]. intros (Hfs & [Hcu Hct] & Hinv).
  cbn [faults users tasks] in Hfs, Hcu, Hct. subst fs.
  destruct (us !! id) as [user|] eqn:Hu.
  2:{ unfold delete_users, respond, then_.
      rewrite User_findById_ok, Hu. repeat split; assumption. }
  rewrite (delete_users_ok id user us ts Hu). cbn [snd].
  rewrite (Hcu _ _ Hu).
  split; [reflexivity|]. split; [split|]; cbn [users tasks].
  - apply coherent_delete, Hcu.
  - apply reassigned_all_coherent, Hct.
  - intros k t' Hk Ha Hc. cbn [users tasks] in Hk |- *.
    unfold unassigned_all in Hk.
    rewrite (reassigned_all_lookup _ _ _ ts k Hct) in Hk.
    destruct (ts !! k) as [t|] eqn:Ht; [|discriminate].
    injection Hk as Hk.
    destruct (decide (k ∈ pendingTasks user)) as [Hin|Hnin];
      subst t'; cbn beta in *.
    { exfalso. apply Ha. reflexivity. }
    destruct (Hinv k t Ht Ha Hc) as (u & Hu' & Hx). cbn [users] in Hu'.
    exists u. split; [|exact Hx].
    rewrite lookup_delete_ne; [exact Hu'|]. intros Heq.
    apply Hnin. rewrite <- Heq, Hu in Hu'. injection Hu' as <-.
    rewrite <- (Hct _ _ Ht). exact Hx.
Qed.

Lemma put_users_settled (id : string) (b : UserBody) (w : World) :
  settled w → settled (put_users id b w).2.
Proof.
  destruct w as [us ts fs]. intros (Hfs & [Hcu Hct] & Hinv).
  cbn [faults users tasks] in Hfs, Hcu, Hct. subst fs.
  destruct (missing_name_or_email b) eqn:Hv.
  { unfold put_users. rewrite Hv. repeat split; assumption. }
  destruct (us !! id) as [user|] eqn:Hu.
  2:{ unfold put_users. rewrite Hv. unfold respond, then_.
      rewrite User_findById_ok, Hu. repeat split; assumption. }
  rewrite (put_users_ok id b user us ts Hv Hu). cbn [snd].
  rewrite (Hcu _ _ Hu).
  set (new := default [] (ub_pendingTasks b)).
  set (updated := mkUser id (default "" (ub_name b)) (default "" (ub_email b))
                         new (u_dateCreated user)).
  set (removed := filter (fun taskId => taskId ∉ new) (pendingTasks user)).
  set (added := filter (fun taskId => taskId ∉ pendingTasks user) new).
  set (ts1 := unassigned_all removed ts).
  set (ts2 := assigned_all updated added ts1).
  assert (Hc1 : ∀ k t, ts1 !! k = Some t → t_id t = k)
    by apply reassigned_all_coherent, Hct.
  assert (Hc2 : ∀ k t, ts2 !! k = Some t → t_id t = k)
    by apply reassigned_all_coherent, Hc1.
  assert (H2 : ∀ k t2, ts2 !! k = Some t2 →
            ∃ t, ts !! k = Some t ∧ completed t2 = completed t
                 ∧ assignedUser t2
                   = (if decide (k ∈ added) then id
                      else if decide (k ∈ removed) then "" else assignedUser t)).
  { intros k t2. unfold ts2, assigned_all.
    rewrite (reassigned_all_lookup _ _ _ ts1 k Hc1).
    unfold ts1, unassigned_all.
    rewrite (reassigned_all_lookup _ _ _ ts k Hct).
    destruct (ts !! k) as [t|]; [|discriminate].
    cbn. intros [= <-]. exists t. split; [reflexivity|].
    destruct (decide (k ∈ added)); destruct (decide (k ∈ removed));
      split; reflexivity. }
  split; [reflexivity|]. split; [split|]; cbn [users tasks].
  - apply (coherent_insert u_id us updated), Hcu.
  - destruct (bool_decide _); [|exact Hc2].
    intros k t. rewrite lookup_fmap.
    destruct (ts2 !! k) as [t2|] eqn:Hk; [|discriminate].
    cbn. intros [= <-].
    rewrite (proj1 (rename_assigned_fields _ _ t2)). exact (Hc2 _ _ Hk).
  - intros k t' Hk Ha Hc. cbn [users tasks] in Hk |- *.
    assert (Hk2 : ∃ t2, ts2 !! k = Some t2 ∧ t_id t' = t_id t2
                        ∧ assignedUser t' = assignedUser t2
                        ∧ completed t' = completed t2).
    { destruct (bool_decide _).
      - rewrite lookup_fmap in Hk.
        destruct (ts2 !! k) as [t2|]; [|discriminate].
        cbn in Hk. injection Hk as <-. exists t2.
        split; [reflexivity|]. apply rename_assigned_fields.
      - exists t'. repeat split. exact Hk. }
    destruct Hk2 as (t2 & Hk2 & Hi & Hau & Hco).
    destruct (H2 k t2 Hk2) as (t & Ht & Hco2 & Hau2).
    rewrite Hi, (Hc2 _ _ Hk2), Hau, Hau2.
    rewrite Hau, Hau2 in Ha. rewrite Hco, Hco2 in Hc.
    destruct (decide (k ∈ added)) as [Hadd|Hnadd].
    { exists updated. rewrite lookup_insert_eq. split; [reflexivity|].
      apply list_elem_of_filter in Hadd as [_ Hin]. exact Hin. }
    destruct (decide (k ∈ removed)) as [Hrem|Hnrem]; [contradiction|].
    destruct (Hinv k t Ht Ha Hc) as (u & Hu' & Hx). cbn [users] in Hu'.
    rewrite (Hct _ _ Ht) in Hx.
    destruct (decide (assignedUser t = id)) as [Heq|Hne].
    + rewrite Heq in Hu' |- *. rewrite Hu in Hu'. injection Hu' as <-.
      exists updated. rewrite lookup_insert_eq. split; [reflexivity|].
      cbn [pendingTasks updated].
      destruct (decide (k ∈ new)) as [Hin|Hnin]; [exact Hin|].
      exfalso. apply Hnrem, list_elem_of_filter. split; assumption.
    + exists u. split; [|exact Hx].
      rewrite lookup_insert_ne by congruence. exact Hu'.
Qed.

(** X18: every request that is [regular] takes a settled store to a settled
    store: the handlers keep the invariant of pending tasks, except where a
    task is given to a user that does not exist and except where PUT
    /api/tasks/:id reopens a task. *)
Theorem pending_invariant_kept (req : Request) (w : World) :
  settled w → regular w req → settled (handle req w).2.
Proof.
  intros Hw Hreg. destruct req as [b newId now|id b|id|b newId now|id b|id];
    cbn [handle regular] in *.
  - apply post_tasks_settled; assumption.
  - destruct Hreg. apply put_tasks_settled; assumption.
  - apply delete_tasks_settled, Hw.
  - apply post_users_settled; assumption.
  - apply put_users_settled, Hw.
  - apply delete_users_settled, Hw.
Qed.

(** ** The request that breaks it *)

(** Whenever PUT /api/tasks/:id reopens a completed task of a user whose
    list does not hold the task, the store it leaves violates the
    invariant. *)
Lemma put_tasks_reopen_not_pending
    (id : string) (b : TaskBody) (w : World) (task : Task) (u : User) :
  faults w = [] → ids_coherent w →
  missing_name_or_deadline b = false →
  tasks w !! id = Some task →
  completed task = true →
  coerce_completed (tb_completed b) = false →
  assignedUser task ≠ "" →
  or_default (tb_assignedUser b) "" = assignedUser task →
  users w !! assignedUser task = Some u →
  id ∉ pendingTasks u →
  status_of (put_tasks id b w).1 = 200%nat
  ∧ ¬ pending_invariant (put_tasks id b w).2.
Proof.
  destruct w as [us ts fs]. cbn [faults users tasks].
  intros -> [_ Hct] Hv Hf Hoc Hc Ha Hsame Hu Hnin. cbn [tasks] in Hct.
  rewrite (put_tasks_ok id b task us ts Hv Hf). cbn zeta.
  split; [reflexivity|]. cbn [snd].
  rewrite Hsame, Hc, Hoc.
  rewrite (bool_decide_false (assignedUser task ≠ assignedUser task)) by tauto.
  rewrite !andb_false_r. cbn [orb andb].
  intros Hinv.
  destruct (Hinv id (updated_task b task us)) as (u' & Hu' & Hin).
  - cbn [tasks]. rewrite (Hct _ _ Hf). apply lookup_insert_eq.
  - cbn [updated_task assignedUser]. rewrite Hsame. exact Ha.
  - cbn [updated_task completed]. exact Hc.
  - cbn [users updated_task assignedUser t_id] in Hu', Hin.
    rewrite Hsame, Hu in Hu'. injection Hu' as <-.
    rewrite (Hct _ _ Hf) in Hin. contradiction.
Qed.

(** C1, at the request that reopens a finished task and leaves it with the
    same user.  The store holds Ann and a completed task assigned to her, and
    satisfies the invariant.  PUT /api/tasks/t1 with [completed = false] and
    [assignedUser = "u1"] answers 200, the task is stored assigned to Ann and
    not completed, and Ann's [pendingTasks] is still empty: neither branch
    of the callback adds the id, the first because no target changed and
    nothing was completed, the second because the target is the same. *)
Theorem C1_reopened_task_is_not_pending :
  ids_coherent finished_store
  ∧ pending_invariant finished_store
  ∧ (let '(r, w') := put_tasks "t1" reopen_body finished_store in
     status_of r = 200%nat
     ∧ tasks w' !! "t1"
       = Some (mkTask "t1" "Write report" "" "2025-01-01" false "u1" "Ann" 0)
     ∧ users w' !! "u1" = Some ann
     ∧ pendingTasks ann = []
     ∧ ¬ pending_invariant w').
Proof.
  split; [apply finished_store_coherent|]. split.
  - intros k t Hk _ Hc. unfold finished_store in Hk. cbn [tasks] in Hk.
    apply lookup_singleton_Some in Hk as [_ <-]. discriminate Hc.
  - destruct (put_tasks "t1" reopen_body finished_store) as [r w'] eqn:E.
    vm_compute in E. injection E as <- <-.
    split; [reflexivity|]. split; [reflexivity|]. split; [reflexivity|].
    split; [reflexivity|].
    intros Hinv.
    destruct (Hinv "t1"
                (mkTask "t1" "Write report" "" "2025-01-01" false "u1" "Ann" 0))
      as (u & Hu & Hin); [reflexivity | discriminate | reflexivity |].
    vm_compute in Hu. injection Hu as <-.
    cbn in Hin. apply elem_of_nil in Hin. exact Hin.
Qed.

(* ===================================================================== *)
(** * Further properties of the query interpreter *)
(* ===================================================================== *)

Lemma parse_where_filter_errors
    (JSON_parse : string -> option json) (JSON_stringify : json -> string)
    (q : Query) (e : string) :
  parse_where_filter JSON_parse JSON_stringify q = inl e →
  e = "Invalid where parameter. Must be valid JSON."
  ∨ e = "Invalid filter parameter. Must be valid JSON.".
Proof.
  unfold parse_where_filter. destruct (truthy_q (q_where q)).
  - destruct (JSON_parse _); [discriminate|]. intros [= <-]. left. reflexivity.
  - destruct (truthy_q (q_filter q)); [|discriminate].
    destruct (_ ≫= interpret_filter) as [[qv sel]|]; [discriminate|].
    intros [= <-]. right. reflexivity.
Qed.

Lemma parse_sort_error
    (JSON_parse : string -> option json) (q : Query) (o : Options) (e : string) :
  parse_sort JSON_parse q o = inl e →
  e = "Invalid sort parameter. Must be valid JSON.".
Proof.
  unfold parse_sort. destruct (truthy_s (q_sort q)); [|discriminate].
  destruct (JSON_parse _); [discriminate|]. intros [= <-]. reflexivity.
Qed.

Lemma parse_select_error
    (JSON_parse : string -> option json) (q : Query) (o : Options) (e : string) :
  parse_select JSON_parse q o = inl e →
  e = "Invalid select parameter. Must be valid JSON.".
Proof.
  unfold parse_select. destruct (truthy_s (q_select q)); [|discriminate].
  destruct (JSON_parse _); [discriminate|]. intros [= <-]. reflexivity.
Qed.

Lemma parse_skip_error (q : Query) (o : Options) (e : string) :
  parse_skip q o = inl e → e = "Invalid skip parameter. Must be a number.".
Proof.
  unfold parse_skip. destruct (truthy_s (q_skip q)); [|discriminate].
  destruct (parseInt _); [discriminate|]. intros [= <-]. reflexivity.
Qed.

Lemma parse_limit_error (q : Query) (dl : option Z) (o : Options) (e : string) :
  parse_limit q dl o = inl e → e = "Invalid limit parameter. Must be a number.".
Proof.
  unfold parse_limit. destruct (truthy_s (q_limit q)).
  - destruct (parseInt _); [discriminate|]. intros [= <-]. reflexivity.
  - destruct dl; discriminate.
Qed.

Lemma truthy_s_true (p : option string) :
  truthy_s p = true ↔ ∃ s, p = Some s ∧ s ≠ "".
Proof.
  destruct p as [s|]; cbn.
  - destruct (String.eqb_spec s "") as [->|Hs]; cbn.
    + split; [discriminate|]. intros (s & [= <-] & Hs). contradiction.
    + split; [eauto|reflexivity].
  - split; [discriminate|]. intros (s & H & _). discriminate H.
Qed.

(** The [sort] block reports its error exactly for a text that is there, is
    not empty and does not parse. *)
Lemma parse_sort_fails (JSON_parse : string -> option json) (q : Query)
    (o : Options) :
  (∃ e, parse_sort JSON_parse q o = inl e)
  ↔ ∃ s, q_sort q = Some s ∧ s ≠ "" ∧ JSON_parse s = None.
Proof.
  unfold parse_sort. destruct (truthy_s (q_sort q)) eqn:Ht.
  - apply truthy_s_true in Ht as (s & Hq & Hs). rewrite Hq.
    change (default "" (Some s)) with s.
    destruct (JSON_parse s) as [v|] eqn:Hp.
    + split; [intros [e H]; discriminate H|].
      intros (s' & [= <-] & _ & H). congruence.
    + split; [eauto | eauto].
  - split; [intros [e H]; discriminate H|].
    intros (s & Hq & Hs & _).
    assert (H : truthy_s (q_sort q) = true) by (apply truthy_s_true; eauto).
    congruence.
Qed.

Lemma parse_select_fails (JSON_parse : string -> option json) (q : Query)
    (o : Options) :
  (∃ e, parse_select JSON_parse q o = inl e)
  ↔ ∃ s, q_select q = Some s ∧ s ≠ "" ∧ JSON_parse s = None.
Proof.
  unfold parse_select. destruct (truthy_s (q_select q)) eqn:Ht.
  - apply truthy_s_true in Ht as (s & Hq & Hs). rewrite Hq.
    change (default "" (Some s)) with s.
    destruct (JSON_parse s) as [v|] eqn:Hp.
    + split; [intros [e H]; discriminate H|].
      intros (s' & [= <-] & _ & H). congruence.
    + split; [eauto | eauto].
  - split; [intros [e H]; discriminate H|].
    intros (s & Hq & Hs & _).
    assert (H : truthy_s (q_select q) = true) by (apply truthy_s_true; eauto).
    congruence.
Qed.

(** X1: whatever the request, an error of [parseQueryParams] is one of six
    fixed messages; and the parameters are read in the order where/filter,
    sort, select, skip, limit, so that a malformed one hides every malformed
    one after it.  Once where/filter went through, the sort error is the
    answer exactly when [sort] is there, is not the empty text and does not
    parse; once sort went through as well, the same holds of [select].  A
    [sort] or [select] that is absent or empty is passed over without any
    error, whatever [JSON.parse] makes of the empty text. *)
Theorem parse_error_first_wins
    (JSON_parse : string -> option json) (JSON_stringify : json -> string)
    (q : Query) (dl : option Z) :
  (∀ e, parseQueryParams JSON_parse JSON_stringify q dl = inl e →
        e ∈ parse_errors)
  ∧ (∀ e, parse_where_filter JSON_parse JSON_stringify q = inl e →
          parseQueryParams JSON_parse JSON_stringify q dl = inl e)
  ∧ (∀ qry o,
       parse_where_filter JSON_parse JSON_stringify q = inr (qry, o) →
       (parseQueryParams JSON_parse JSON_stringify q dl
        = inl "Invalid sort parameter. Must be valid JSON."
        ↔ ∃ s, q_sort q = Some s ∧ s ≠ "" ∧ JSON_parse s = None))
  ∧ (∀ qry o o1,
       parse_where_filter JSON_parse JSON_stringify q = inr (qry, o) →
       parse_sort JSON_parse q o = inr o1 →
       (parseQueryParams JSON_parse JSON_stringify q dl
        = inl "Invalid select parameter. Must be valid JSON."
        ↔ ∃ s, q_select q = Some s ∧ s ≠ "" ∧ JSON_parse s = None))
  ∧ (∀ o, (q_sort q = None ∨ q_sort q = Some "") →
          parse_sort JSON_parse q o = inr o)
  ∧ (∀ o, (q_select q = None ∨ q_select q = Some "") →
          parse_select JSON_parse q o = inr o).
Proof.
  split; [|split; [|split; [|split; [|split]]]].
  - intros e. unfold parseQueryParams, parse_errors.
    destruct (parse_where_filter JSON_parse JSON_stringify q)
      as [e0|[qry o0]] eqn:H0.
    { intros [= <-]. apply parse_where_filter_errors in H0 as [-> | ->];
        set_solver. }
    destruct (parse_sort JSON_parse q o0) as [e1|o1] eqn:H1.
    { intros [= <-]. apply parse_sort_error in H1 as ->. set_solver. }
    destruct (parse_select JSON_parse q o1) as [e2|o2] eqn:H2.
    { intros [= <-]. apply parse_select_error in H2 as ->. set_solver. }
    destruct (parse_skip q o2) as [e3|o3] eqn:H3.
    { intros [= <-]. apply parse_skip_error in H3 as ->. set_solver. }
    destruct (parse_limit q dl o3) as [e4|o4] eqn:H4; [|discriminate].
    intros [= <-]. apply parse_limit_error in H4 as ->. set_solver.
  - intros e H0. unfold parseQueryParams. rewrite H0. reflexivity.
  - intros qry o H0. rewrite <- (parse_sort_fails JSON_parse q o).
    unfold parseQueryParams. rewrite H0.
    destruct (parse_sort JSON_parse q o) as [e1|o1] eqn:H1.
    { apply parse_sort_error in H1 as ->. split; [eauto | reflexivity]. }
    split; [|intros [e H]; discriminate H].
    destruct (parse_select JSON_parse q o1) as [e2|o2] eqn:H2.
    { apply parse_select_error in H2 as ->. intros H. discriminate H. }
    destruct (parse_skip q o2) as [e3|o3] eqn:H3.
    { apply parse_skip_error in H3 as ->. intros H. discriminate H. }
    destruct (parse_limit q dl o3) as [e4|o4] eqn:H4; [|discriminate].
    apply parse_limit_error in H4 as ->. intros H. discriminate H.
  - intros qry o o1 H0 H1. rewrite <- (parse_select_fails JSON_parse q o1).
    unfold parseQueryParams. rewrite H0, H1.
    destruct (parse_select JSON_parse q o1) as [e2|o2] eqn:H2.
    { apply parse_select_error in H2 as ->. split; [eauto | reflexivity]. }
    split; [|intros [e H]; discriminate H].
    destruct (parse_skip q o2) as [e3|o3] eqn:H3.
    { apply parse_skip_error in H3 as ->. intros H. discriminate H. }
    destruct (parse_limit q dl o3) as [e4|o4] eqn:H4; [|discriminate].
    apply parse_limit_error in H4 as ->. intros H. discriminate H.
  - intros o [Hq|Hq]; unfold parse_sort; rewrite Hq; reflexivity.
  - intros o [Hq|Hq]; unfold parse_select; rewrite Hq; reflexivity.
Qed.

Lemma parse_skip_select (q : Query) (o o' : Options) :
  parse_skip q o = inr o' →
  opt_select o' = opt_select o ∧ opt_sort o' = opt_sort o.
Proof.
  unfold parse_skip. destruct (truthy_s (q_skip q)).
  - destruct (parseInt _); [|discriminate]. intros [= <-]. split; reflexivity.
  - intros [= <-]. split; reflexivity.
Qed.

Lemma parse_limit_select (q : Query) (dl : option Z) (o o' : Options) :
  parse_limit q dl o = inr o' →
  opt_select o' = opt_select o ∧ opt_sort o' = opt_sort o.
Proof.
  unfold parse_limit. destruct (truthy_s (q_limit q)).
  - destruct (parseInt _); [|discriminate]. intros [= <-]. split; reflexivity.
  - destruct dl; intros [= <-]; split; reflexivity.
Qed.

Lemma parse_select_sort
    (JSON_parse : string -> option json) (q : Query) (o o' : Options) :
  parse_select JSON_parse q o = inr o' → opt_sort o' = opt_sort o.
Proof.
  unfold parse_select. destruct (truthy_s (q_select q)).
  - destruct (JSON_parse _); [|discriminate]. intros [= <-]. reflexivity.
  - intros [= <-]. reflexivity.
Qed.

(** What is returned as [options.select] and [options.sort] is what the
    [select] block and the [sort] block left. *)
Lemma parseQueryParams_select_sort
    (JSON_parse : string -> option json) (JSON_stringify : json -> string)
    (q : Query) (dl : option Z) (r : Parsed) :
  parseQueryParams JSON_parse JSON_stringify q dl = inr r →
  ∃ qry o0 o1 o2,
    parse_where_filter JSON_parse JSON_stringify q = inr (qry, o0)
    ∧ parse_sort JSON_parse q o0 = inr o1
    ∧ parse_select JSON_parse q o1 = inr o2
    ∧ query r = qry
    ∧ opt_select (options r) = opt_select o2
    ∧ opt_sort (options r) = opt_sort o1.
Proof.
  unfold parseQueryParams.
  destruct (parse_where_filter JSON_parse JSON_stringify q) as [|[qry o0]] eqn:H0;
    [discriminate|].
  destruct (parse_sort JSON_parse q o0) as [|o1] eqn:H1; [discriminate|].
  destruct (parse_select JSON_parse q o1) as [|o2] eqn:H2; [discriminate|].
  destruct (parse_skip q o2) as [|o3] eqn:H3; [discriminate|].
  destruct (parse_limit q dl o3) as [|o4] eqn:H4; [discriminate|].
  intros [= <-]. exists qry, o0, o1, o2.
  pose proof (parse_select_sort _ _ _ _ H2) as H2'.
  apply parse_skip_select in H3 as [H3 H3'].
  apply parse_limit_select in H4 as [H4 H4'].
  cbn [query options]. repeat split; congruence.
Qed.

(** X2: a [select] parameter that parses always decides the projection.  A
    [filter] that would have been taken as a projection is then without any
    effect: its object is neither the projection nor the filter predicate,
    which stays [{}]. *)
Theorem select_overrides_filter_projection
    (JSON_parse : string -> option json) (JSON_stringify : json -> string)
    (q : Query) (dl : option Z) (s : string) (v : json) :
  q_select q = Some s → s ≠ "" → JSON_parse s = Some v →
  (∀ r, parseQueryParams JSON_parse JSON_stringify q dl = inr r →
        opt_select (options r) = Some v)
  ∧ (∀ t fs r,
       truthy_q (q_where q) = false →
       q_filter q = Some (QStr t) → t ≠ "" →
       JSON_parse t = Some (JObj fs) →
       hasOwnProperty_callable (JObj fs) = true →
       fs ≠ [] → forallb is_zero_or_one (map snd fs) = true →
       parseQueryParams JSON_parse JSON_stringify q dl = inr r →
       query r = JObj [] ∧ opt_select (options r) = Some v)
  ∧ (q_where q = None → q_sort q = None → q_skip q = None → q_limit q = None →
     ∀ t fs,
       q_filter q = Some (QStr t) → t ≠ "" →
       JSON_parse t = Some (JObj fs) →
       hasOwnProperty_callable (JObj fs) = true →
       fs ≠ [] → forallb is_zero_or_one (map snd fs) = true →
       parseQueryParams JSON_parse JSON_stringify q None
       = inr (mkParsed (JObj []) (mkOptions None (Some v) None None)
                       (parse_count q))).
Proof.
  intros Hq Hs Hv.
  assert (Hsel : ∀ o, parse_select JSON_parse q o
                      = inr (mkOptions (opt_sort o) (Some v) (opt_skip o)
                                       (opt_limit o))).
  { intros o. unfold parse_select. rewrite Hq, (truthy_s_Some s Hs).
    change (default "" (Some s)) with s. rewrite Hv. reflexivity. }
  assert (H1 : ∀ r, parseQueryParams JSON_parse JSON_stringify q dl = inr r →
                    opt_select (options r) = Some v).
  { intros r Hr.
    apply parseQueryParams_select_sort in Hr
      as (qry & o0 & o1 & o2 & _ & _ & H2 & _ & Hsl & _).
    rewrite Hsel in H2. injection H2 as <-. exact Hsl. }
  split; [exact H1|]. split.
  - intros t fs r Hw Hf Ht Hp Hcall Hne Hall Hr. split; [|exact (H1 r Hr)].
    eapply parseQueryParams_query; [|exact Hr].
    rewrite (filter_object_semantics _ _ q t fs Hw Hf Ht Hp Hcall).
    rewrite bool_decide_true, Hall by exact Hne. reflexivity.
  - intros Hw Hso Hsk Hli t fs Hf Ht Hp Hcall Hne Hall.
    unfold parseQueryParams.
    rewrite (filter_object_semantics _ _ q t fs) by
      (try assumption; rewrite Hw; reflexivity).
    rewrite bool_decide_true, Hall by exact Hne. cbn [andb].
    unfold parse_sort. rewrite Hso. cbn [truthy_s].
    rewrite Hsel. unfold parse_skip, parse_limit. rewrite Hsk, Hli.
    reflexivity.
Qed.

(** The theorem at [?filter={"name":1,"email":0}&select={"completed":true}]. *)
Lemma select_overrides_filter_projection_witness :
  let q := with_select (Some done_text)
             (with_filter (Some (QStr fields_text)) no_query) in
  (q_select q = Some done_text ∧ done_text ≠ ""
   ∧ sample_values done_text = Some done_object)
  ∧ parseQueryParams sample_values stringify_const q None
    = inr (mkParsed (JObj []) (mkOptions None (Some done_object) None None) false).
Proof.
  intros q.
  assert (H1 : q_select q = Some done_text) by reflexivity.
  assert (H2 : done_text ≠ "") by discriminate.
  assert (H3 : sample_values done_text = Some done_object) by reflexivity.
  destruct (select_overrides_filter_projection sample_values stringify_const
              q None done_text done_object H1 H2 H3) as (_ & _ & H).
  split; [repeat split; assumption|].
  apply (H eq_refl eq_refl eq_refl eq_refl fields_text
           [("name", JNum 1); ("email", JNum 0)]);
    try reflexivity; discriminate.
Defined.

(** X3: a [filter] whose text is valid JSON but not an object.  The text
    [null] is answered with the filter error, because [Object.keys(null)]
    throws inside the [try]; a boolean, a number or a string becomes the
    filter predicate as it is; a non-empty array of zeros and ones becomes
    the projection, any other array the filter predicate. *)
Theorem filter_of_non_object
    (JSON_parse : string -> option json) (JSON_stringify : json -> string)
    (q : Query) (s : string) (v : json) :
  truthy_q (q_where q) = false →
  q_filter q = Some (QStr s) → s ≠ "" →
  JSON_parse s = Some v →
  match v with
  | JNull =>
      parse_where_filter JSON_parse JSON_stringify q
      = inl "Invalid filter parameter. Must be valid JSON."
  | JBool _ | JNum _ | JStr _ =>
      parse_where_filter JSON_parse JSON_stringify q = inr (v, no_options)
  | JArr xs =>
      parse_where_filter JSON_parse JSON_stringify q
      = if bool_decide (xs ≠ []) && forallb is_zero_or_one xs
        then inr (JObj [], mkOptions None (Some v) None None)
        else inr (v, no_options)
  | JObj _ => True
  end.
Proof.
  intros Hw Hf Hs Hp. unfold parse_where_filter.
  rewrite Hw, Hf, (truthy_q_QStr s Hs), Hp. cbn [mbind option_bind].
  destruct v as [| b | n | t | xs | fs]; try reflexivity; try exact I.
  - destruct t as [|c t]; reflexivity.
  - unfold interpret_filter. cbn [hasOwnProperty_callable own_values].
    rewrite scan_projection_callable. cbn [Object_keys_length].
    destruct xs as [|x xs]; [reflexivity|].
    rewrite bool_decide_true by discriminate. cbn [andb].
    destruct (forallb is_zero_or_one (x :: xs)); reflexivity.
Qed.

(** The theorem at [?filter=null]. *)
Lemma filter_of_non_object_witness :
  let q := with_filter (Some (QStr "null")) no_query in
  (truthy_q (q_where q) = false ∧ q_filter q = Some (QStr "null")
   ∧ "null" ≠ "" ∧ sample_values "null" = Some JNull)
  ∧ parse_where_filter sample_values stringify_const q
    = inl "Invalid filter parameter. Must be valid JSON.".
Proof.
  intros q.
  assert (H1 : truthy_q (q_where q) = false) by reflexivity.
  assert (H2 : q_filter q = Some (QStr "null")) by reflexivity.
  assert (H3 : "null" ≠ "") by discriminate.
  assert (H4 : sample_values "null" = Some JNull) by reflexivity.
  split; [repeat split; assumption|].
  exact (filter_of_non_object sample_values stringify_const q "null" JNull
           H1 H2 H3 H4).
Defined.

(** X4: a [sort] or a [select] whose text parses to a falsy value ([null],
    [false], [0] or the empty string) is accepted without error and stored in
    [options], but the GET list handlers test it for truth before they apply
    it, so the query is run without it. *)
Theorem falsy_sort_select_not_applied
    (JSON_parse : string -> option json) (JSON_stringify : json -> string)
    (s : string) (v : json) :
  s ≠ "" → JSON_parse s = Some v → truthy v = false →
  (∀ q o, q_sort q = Some s →
     parse_sort JSON_parse q o
     = inr (mkOptions (Some v) (opt_select o) (opt_skip o) (opt_limit o)))
  ∧ (∀ q o, q_select q = Some s →
       parse_select JSON_parse q o
       = inr (mkOptions (opt_sort o) (Some v) (opt_skip o) (opt_limit o)))
  ∧ (∀ q mq, q_sort q = Some s →
       get_tasks JSON_parse JSON_stringify q = inr mq
       ∨ get_users JSON_parse JSON_stringify q = inr mq →
       mq_sort mq = None)
  ∧ (∀ q mq, q_select q = Some s →
       get_tasks JSON_parse JSON_stringify q = inr mq
       ∨ get_users JSON_parse JSON_stringify q = inr mq →
       mq_select mq = None)
  ∧ get_tasks JSON_parse JSON_stringify (with_sort (Some s) no_query)
    = inr (mkMongooseQuery TaskModel (JObj []) None None None (Some 100) false).
Proof.
  intros Hs Hv Hfalsy.
  assert (Hsort : ∀ q o, q_sort q = Some s →
            parse_sort JSON_parse q o
            = inr (mkOptions (Some v) (opt_select o) (opt_skip o) (opt_limit o))).
  { intros q o Hq. unfold parse_sort. rewrite Hq, (truthy_s_Some s Hs).
    change (default "" (Some s)) with s. rewrite Hv. reflexivity. }
  assert (Hsel : ∀ q o, q_select q = Some s →
            parse_select JSON_parse q o
            = inr (mkOptions (opt_sort o) (Some v) (opt_skip o) (opt_limit o))).
  { intros q o Hq. unfold parse_select. rewrite Hq, (truthy_s_Some s Hs).
    change (default "" (Some s)) with s. rewrite Hv. reflexivity. }
  split; [exact Hsort|]. split; [exact Hsel|]. split; [|split].
  - intros q mq Hq [H|H]; revert H; unfold get_tasks, get_users;
      (destruct (parseQueryParams JSON_parse JSON_stringify q _) as [|r] eqn:Hr;
         [discriminate|]);
      intros [= <-]; cbn [build_query mq_sort];
      apply parseQueryParams_select_sort in Hr
        as (qry & o0 & o1 & o2 & _ & H1 & _ & _ & _ & Hso);
      rewrite (Hsort q o0 Hq) in H1; injection H1 as <-;
      rewrite Hso; cbn [opt_sort if_truthy]; rewrite Hfalsy; reflexivity.
  - intros q mq Hq [H|H]; revert H; unfold get_tasks, get_users;
      (destruct (parseQueryParams JSON_parse JSON_stringify q _) as [|r] eqn:Hr;
         [discriminate|]);
      intros [= <-]; cbn [build_query mq_select];
      apply parseQueryParams_select_sort in Hr
        as (qry & o0 & o1 & o2 & _ & _ & H2 & _ & Hsl & _);
      rewrite (Hsel q o1 Hq) in H2; injection H2 as <-;
      rewrite Hsl; cbn [opt_select if_truthy]; rewrite Hfalsy; reflexivity.
  - unfold get_tasks, parseQueryParams, parse_where_filter. cbn [truthy_q no_query with_sort q_where q_filter].
    rewrite (Hsort (with_sort (Some s) no_query) no_options eq_refl).
    unfold parse_select, parse_skip, parse_limit, build_query.
    cbn [with_sort no_query q_select q_skip q_limit truthy_s
         options query count opt_sort opt_select opt_skip opt_limit
         no_options if_truthy].
    rewrite Hfalsy. reflexivity.
Qed.

(** The theorem at [?sort=null]. *)
Lemma falsy_sort_select_not_applied_witness :
  ("null" ≠ "" ∧ sample_values "null" = Some JNull ∧ truthy JNull = false)
  ∧ parseQueryParams sample_values stringify_const
      (with_sort (Some "null") no_query) None
    = inr (mkParsed (JObj []) (mkOptions (Some JNull) None None None) false)
  ∧ get_tasks sample_values stringify_const (with_sort (Some "null") no_query)
    = inr (mkMongooseQuery TaskModel (JObj []) None None None (Some 100) false).
Proof.
  assert (H1 : "null" ≠ "") by discriminate.
  assert (H2 : sample_values "null" = Some JNull) by reflexivity.
  assert (H3 : truthy JNull = false) by reflexivity.
  destruct (falsy_sort_select_not_applied sample_values stringify_const
              "null" JNull H1 H2 H3) as (_ & _ & _ & _ & Hget).
  split; [repeat split; assumption|]. split; [reflexivity | exact Hget].
Defined.

(* ===================================================================== *)
(** * Further properties of the handlers *)
(* ===================================================================== *)

Lemma Task_findByIdAndDelete_keeps (id : string) (w : World) r w' :
  Task_findByIdAndDelete id w = (r, w') →
  users w' = users w
  ∧ ((∃ e, r = Rejected e ∧ tasks w' = tasks w)
     ∨ (r = Resolved tt ∧ tasks w' = delete id (tasks w))).
Proof.
  unfold Task_findByIdAndDelete, store_call.
  destruct (faults w) as [|[e|] rest]; intros [= <- <-]; cbn; eauto.
Qed.

(** X5: DELETE /api/tasks/:id.  For an existing task the id is filtered out
    of the [pendingTasks] of the user the task names (whether or not the
    task is completed), no other user is touched, the task document is
    deleted and the answer is 204; the deletion comes last, so a request
    that does not end in 204 has deleted nothing.  For an id without a task
    the answer is 404 and nothing changes. *)
Theorem delete_tasks_removes (id : string) (w : World) :
  faults w = [] → ids_coherent w →
  (∀ task, tasks w !! id = Some task →
     ∃ w', delete_tasks id w = (Send 204, w')
           ∧ tasks w' = delete id (tasks w)
           ∧ (∀ u, assignedUser task ≠ "" →
                users w !! assignedUser task = Some u →
                ∃ u', users w' !! assignedUser task = Some u'
                      ∧ pendingTasks u'
                        = filter (fun x => x ≠ id) (pendingTasks u))
           ∧ (∀ k, k ≠ assignedUser task → users w' !! k = users w !! k)
           ∧ (assignedUser task = "" → users w' = users w))
  ∧ (tasks w !! id = None →
     delete_tasks id w = (sendError 404 "Task not found" None, w))
  ∧ (∀ w0 r w', delete_tasks id w0 = (r, w') →
       status_of r ≠ 204%nat → tasks w' = tasks w0).
Proof.
  destruct w as [us ts fs]. cbn [faults users tasks].
  intros -> [Hcu Hct]. cbn [users tasks] in Hcu, Hct.
  split; [|split].
  - intros task Hf. rewrite (delete_tasks_ok id task us ts Hf).
    rewrite (Hct _ _ Hf). eexists. split; [reflexivity|]. cbn [users tasks].
    split; [reflexivity|]. split; [|split].
    + intros u Ha Hu. rewrite bool_decide_true by exact Ha.
      eexists. split; [apply (pulled_lookup us Hcu), Hu | reflexivity].
    + intros k Hk. destruct (bool_decide (assignedUser task ≠ ""));
        [|reflexivity].
      apply (pulled_lookup_ne us Hcu), Hk.
    + intros Ha. rewrite bool_decide_false; [reflexivity|]. tauto.
  - intros Hf. unfold delete_tasks, respond, then_.
    change (Task_findById id (mkWorld us ts []))
      with (Resolved (ts !! id), mkWorld us ts []).
    rewrite Hf. reflexivity.
  - intros w0 r w'. unfold delete_tasks, respond, then_ at 1.
    destruct (Task_findById id w0) as [[found|e] w1] eqn:E1.
    2:{ intros [= <- <-] _.
        apply Task_findById_cases in E1 as (H & _). exact H. }
    apply Task_findById_cases in E1 as (H1 & _).
    destruct found as [task|]; [|intros [= <- <-] _; exact H1].
    assert (Hdel : ∀ w2 r2 w3,
              tasks w2 = tasks w0 →
              then_ (Task_findByIdAndDelete (t_id task))
                    (fun _ => resolve (Send 204)) w2 = (r2, w3) →
              (∃ resp, r2 = Resolved resp ∧ status_of resp = 204%nat)
              ∨ ((∃ e, r2 = Rejected e) ∧ tasks w3 = tasks w0)).
    { intros w2 r2 w3 H2. unfold then_.
      destruct (Task_findByIdAndDelete (t_id task) w2) as [[[]|e] w4] eqn:E4.
      - intros [= <- <-]. left. eauto.
      - intros [= <- <-]. right. split; [eauto|].
        apply Task_findByIdAndDelete_keeps in E4
          as (_ & [(e' & _ & H) | ([=] & _)]). congruence. }
    destruct (bool_decide (assignedUser task ≠ "")).
    + unfold then_ at 1.
      destruct (pull_pending (assignedUser task) (t_id task) w1)
        as [[[]|e] w2] eqn:E2.
      * pose proof (keeps_tasks_pull_pending _ _ _ _ _ E2) as H2.
        destruct (then_ _ _ w2) as [r3 w3] eqn:E3.
        destruct (Hdel w2 r3 w3 ltac:(congruence) E3)
          as [(resp & -> & Hs) | ((e & ->) & H3)].
        -- intros [= <- <-] Hn. contradiction.
        -- intros [= <- <-] _. exact H3.
      * intros [= <- <-] _.
        rewrite (keeps_tasks_pull_pending _ _ _ _ _ E2). exact H1.
    + destruct (then_ _ _ w1) as [r3 w3] eqn:E3.
      destruct (Hdel w1 r3 w3 H1 E3) as [(resp & -> & Hs) | ((e & ->) & H3)].
      * intros [= <- <-] Hn. contradiction.
      * intros [= <- <-] _. exact H3.
Qed.

(** The theorem for the task of Ann in the store where she has one. *)
Lemma delete_tasks_removes_witness :
  (faults busy_store = [] ∧ ids_coherent busy_store)
  ∧ ∃ w', delete_tasks "t1" busy_store = (Send 204, w')
          ∧ tasks w' = delete "t1" (tasks busy_store)
          ∧ ∃ u', users w' !! "u1" = Some u' ∧ pendingTasks u' = [].
Proof.
  assert (H1 : faults busy_store = []) by reflexivity.
  split; [split; [exact H1 | apply busy_store_coherent]|].
  destruct (delete_tasks_removes "t1" busy_store H1 busy_store_coherent)
    as (Hdel & _ & _).
  destruct (Hdel (set_assignment "u1" "Ann" report) eq_refl)
    as (w' & Hrun & Hts & Hus & _).
  exists w'. split; [exact Hrun|]. split; [exact Hts|].
  apply (Hus (set_pendingTasks ["t1"] ann)); [discriminate | reflexivity].
Defined.

(** X6: POST /api/users.  The user is stored with the list of the body as it
    is, every task of that list that exists is pointed at the new user
    ([assignedUser] the new id, [assignedUserName] the new name) whether it
    is completed or belongs to somebody else, every other task is left as it
    is, and no other user is written: a previous owner keeps the id in the
    list. *)
Theorem post_users_assigns_listed_tasks
    (b : UserBody) (newId : string) (now : Z) (w : World) :
  faults w = [] → ids_coherent w →
  missing_name_or_email b = false →
  let pending := default [] (ub_pendingTasks b) in
  let user := mkUser newId (default "" (ub_name b)) (default "" (ub_email b))
                     pending now in
  ∃ w',
    post_users b newId now w
    = (sendSuccess 201 "User created successfully" (PUser user), w')
    ∧ users w' = <[newId := user]> (users w)
    ∧ ∀ k, tasks w' !! k
           = (fun t => if decide (k ∈ pending)
                       then set_assignment newId (default "" (ub_name b)) t
                       else t) <$> tasks w !! k.
Proof.
  destruct w as [us ts fs].
  intros Hfs [_ Hct] Hv pending user.
  cbn [faults users tasks] in Hfs, Hct |- *. subst fs.
  rewrite (post_users_ok b newId now us ts Hv). fold pending user.
  eexists. split; [reflexivity|]. cbn [users tasks].
  split; [reflexivity|].
  intros k. unfold assigned_all.
  apply (reassigned_all_lookup newId (default "" (ub_name b)) pending ts k Hct).
Qed.

(** The theorem for Carol, who is created with the task of Ann. *)
Lemma post_users_assigns_listed_tasks_witness :
  (faults busy_store = [] ∧ ids_coherent busy_store
   ∧ missing_name_or_email carol_body = false)
  ∧ ∃ w',
      status_of (post_users carol_body "u3" 7 busy_store).1 = 201%nat
      ∧ post_users carol_body "u3" 7 busy_store
        = ((post_users carol_body "u3" 7 busy_store).1, w')
      ∧ tasks w' !! "t1" = Some (set_assignment "u3" "Carol" report)
      ∧ users w' !! "u1" = Some (set_pendingTasks ["t1"] ann).
Proof.
  assert (H1 : faults busy_store = []) by reflexivity.
  assert (H3 : missing_name_or_email carol_body = false) by reflexivity.
  split; [repeat split; try assumption; apply busy_store_coherent|].
  destruct (post_users_assigns_listed_tasks carol_body "u3" 7 busy_store
              H1 busy_store_coherent H3) as (w' & Hrun & Hus & Hts).
  exists w'. rewrite Hrun. split; [reflexivity|]. split; [reflexivity|].
  split.
  - rewrite Hts. reflexivity.
  - rewrite Hus. reflexivity.
Defined.

Lemma rename_assigned_name (uid newName : string) (t : Task) :
  assignedUserName (rename_assigned uid newName t)
  = if decide (assignedUser t = uid) then newName else assignedUserName t.
Proof.
  unfold rename_assigned.
  destruct (String.eqb_spec (assignedUser t) uid) as [Heq|Hne].
  - rewrite decide_True by exact Heq. reflexivity.
  - rewrite decide_False by exact Hne. reflexivity.
Qed.

(** The tasks collection after PUT /api/users/:id, task by task. *)
Lemma put_users_tasks (id : string) (b : UserBody) (user : User) us ts :
  (∀ k u, us !! k = Some u → u_id u = k) →
  (∀ k t, ts !! k = Some t → t_id t = k) →
  missing_name_or_email b = false →
  us !! id = Some user →
  let old := pendingTasks user in
  let new := default [] (ub_pendingTasks b) in
  let newName := default "" (ub_name b) in
  let updated := mkUser id newName (default "" (ub_email b)) new
                        (u_dateCreated user) in
  ∃ ts',
    put_users id b (mkWorld us ts [])
    = (sendSuccess 200 "User updated successfully" (PUser updated),
       mkWorld (<[id := updated]> us) ts' [])
    ∧ ∀ k, ts' !! k
           = (fun t =>
                let t1 := if decide (k ∈ old ∧ k ∉ new)
                          then set_assignment "" "unassigned" t else t in
                let t2 := if decide (k ∈ new ∧ k ∉ old)
                          then set_assignment id newName t1 else t1 in
                if decide (u_name user ≠ newName)
                then rename_assigned id newName t2 else t2)
               <$> ts !! k.
Proof.
  intros Hcu Hct Hv Hu old new newName updated.
  rewrite (put_users_ok id b user us ts Hv Hu). cbn zeta.
  rewrite (Hcu _ _ Hu). fold old new newName updated.
  eexists. split; [reflexivity|]. intros k.
  set (removed := filter (fun taskId => taskId ∉ new) old).
  set (added := filter (fun taskId => taskId ∉ old) new).
  assert (Hc1 : ∀ k t, unassigned_all removed ts !! k = Some t → t_id t = k)
    by apply reassigned_all_coherent, Hct.
  assert (H2 : assigned_all updated added (unassigned_all removed ts) !! k
               = (fun t =>
                    let t1 := if decide (k ∈ old ∧ k ∉ new)
                              then set_assignment "" "unassigned" t else t in
                    if decide (k ∈ new ∧ k ∉ old)
                    then set_assignment id newName t1 else t1) <$> ts !! k).
  { unfold assigned_all.
    rewrite (reassigned_all_lookup _ _ _ _ k Hc1).
    unfold unassigned_all.
    rewrite (reassigned_all_lookup _ _ _ ts k Hct).
    destruct (ts !! k) as [t|]; [|reflexivity]. cbn. f_equal.
    assert (Hr : k ∈ removed ↔ k ∈ old ∧ k ∉ new).
    { unfold removed. rewrite list_elem_of_filter. tauto. }
    assert (Ha : k ∈ added ↔ k ∈ new ∧ k ∉ old).
    { unfold added. rewrite list_elem_of_filter. tauto. }
    destruct (decide (k ∈ added)); destruct (decide (k ∈ new ∧ k ∉ old));
      destruct (decide (k ∈ removed)); destruct (decide (k ∈ old ∧ k ∉ new));
      try reflexivity; tauto. }
  destruct (decide (u_name user ≠ newName)) as [Hn|Hn].
  - rewrite bool_decide_true by exact Hn. rewrite lookup_fmap, H2.
    destruct (ts !! k); reflexivity.
  - rewrite bool_decide_false by exact Hn. rewrite H2.
    destruct (ts !! k); reflexivity.
Qed.

(** X7: PUT /api/users/:id replaces the user (same id, same creation date)
    and repairs the tasks by the difference of the two lists: a task that
    left the list is unassigned ([""], "unassigned"), a task that entered it
    is pointed at the user with the new name, whether completed or owned by
    somebody else, and a task that is in both lists or in neither keeps its
    [assignedUser]. *)
Theorem put_users_repairs_by_difference
    (id : string) (b : UserBody) (w : World) (user : User) :
  faults w = [] → ids_coherent w →
  missing_name_or_email b = false →
  id ≠ "" →
  users w !! id = Some user →
  let old := pendingTasks user in
  let new := default [] (ub_pendingTasks b) in
  let newName := default "" (ub_name b) in
  let updated := mkUser id newName (default "" (ub_email b)) new
                        (u_dateCreated user) in
  ∃ w',
    put_users id b w
    = (sendSuccess 200 "User updated successfully" (PUser updated), w')
    ∧ users w' = <[id := updated]> (users w)
    ∧ (∀ k, tasks w !! k = None → tasks w' !! k = None)
    ∧ ∀ k t, tasks w !! k = Some t →
        ∃ t', tasks w' !! k = Some t'
              ∧ t_id t' = t_id t ∧ completed t' = completed t
              ∧ (k ∈ old → k ∉ new →
                 assignedUser t' = "" ∧ assignedUserName t' = "unassigned")
              ∧ (k ∈ new → k ∉ old →
                 assignedUser t' = id ∧ assignedUserName t' = newName)
              ∧ ((k ∈ old ↔ k ∈ new) → assignedUser t' = assignedUser t).
Proof.
  destruct w as [us ts fs].
  intros Hfs [Hcu Hct] Hv Hid Hu old new newName updated.
  cbn [faults users tasks] in Hfs, Hcu, Hct, Hu |- *. subst fs.
  destruct (put_users_tasks id b user us ts Hcu Hct Hv Hu) as (ts' & Hrun & Hts).
  fold old new newName updated in Hrun, Hts.
  exists (mkWorld (<[id := updated]> us) ts' []).
  split; [exact Hrun|]. cbn [users tasks]. split; [reflexivity|]. split.
  - intros k Hk. rewrite Hts, Hk. reflexivity.
  - intros k t Hk. rewrite Hts, Hk. cbn [fmap option_fmap option_map].
    eexists. split; [reflexivity|]. cbn zeta.
    set (t1 := if decide (k ∈ old ∧ k ∉ new)
               then set_assignment "" "unassigned" t else t).
    set (t2 := if decide (k ∈ new ∧ k ∉ old)
               then set_assignment id newName t1 else t1).
    assert (H2 : t_id t2 = t_id t ∧ completed t2 = completed t
                 ∧ (k ∈ old → k ∉ new →
                    assignedUser t2 = "" ∧ assignedUserName t2 = "unassigned")
                 ∧ (k ∈ new → k ∉ old →
                    assignedUser t2 = id ∧ assignedUserName t2 = newName)
                 ∧ ((k ∈ old ↔ k ∈ new) → assignedUser t2 = assignedUser t)).
    { unfold t2, t1.
      destruct (decide (k ∈ old ∧ k ∉ new)) as [Hr|Hr];
        destruct (decide (k ∈ new ∧ k ∉ old)) as [Ha|Ha];
        cbn [set_assignment t_id completed assignedUser assignedUserName];
        repeat split; try reflexivity; intros; exfalso; tauto. }
    destruct H2 as (Hi & Hc & Hrm & Hadd & Hsame).
    destruct (decide (u_name user ≠ newName)) as [Hn|Hn].
    2:{ split; [exact Hi|]. split; [exact Hc|].
        split; [exact Hrm|]. split; [exact Hadd | exact Hsame]. }
    destruct (rename_assigned_fields id newName t2) as (Ri & Ra & Rc).
    rewrite Ri, Ra, Rc, rename_assigned_name.
    split; [exact Hi|]. split; [exact Hc|]. split; [|split].
    + intros H1 H2. destruct (Hrm H1 H2) as [Hau Hnm]. split; [exact Hau|].
      rewrite decide_False; [exact Hnm|]. rewrite Hau. congruence.
    + intros H1 H2. destruct (Hadd H1 H2) as [Hau Hnm]. split; [exact Hau|].
      destruct (decide (assignedUser t2 = id)); [reflexivity | exact Hnm].
    + exact Hsame.
Qed.

(** The theorem for Ann, whose list is emptied. *)
Lemma put_users_repairs_by_difference_witness :
  (faults busy_store = [] ∧ ids_coherent busy_store
   ∧ missing_name_or_email ann_body = false ∧ "u1" ≠ ""
   ∧ users busy_store !! "u1" = Some (set_pendingTasks ["t1"] ann))
  ∧ ∃ w' t',
      put_users "u1" ann_body busy_store
      = (sendSuccess 200 "User updated successfully" (PUser ann), w')
      ∧ tasks w' !! "t1" = Some t'
      ∧ assignedUser t' = "" ∧ assignedUserName t' = "unassigned".
Proof.
  assert (H1 : faults busy_store = []) by reflexivity.
  assert (H3 : missing_name_or_email ann_body = false) by reflexivity.
  assert (H4 : "u1" ≠ "") by discriminate.
  assert (H5 : users busy_store !! "u1" = Some (set_pendingTasks ["t1"] ann))
    by reflexivity.
  split; [repeat split; try assumption; apply busy_store_coherent|].
  destruct (put_users_repairs_by_difference "u1" ann_body busy_store
              (set_pendingTasks ["t1"] ann) H1 busy_store_coherent H3 H4 H5)
    as (w' & Hrun & _ & _ & Hts).
  destruct (Hts "t1" (set_assignment "u1" "Ann" report) eq_refl)
    as (t' & Ht' & _ & _ & Hrm & _).
  exists w', t'. split; [exact Hrun|]. split; [exact Ht'|].
  apply Hrm.
  - apply list_elem_of_singleton. reflexivity.
  - apply not_elem_of_nil.
Defined.

(** X8: when PUT /api/users/:id changes the name, every task that names the
    user afterwards carries the new name, the completed ones and those
    outside the list included; when it does not, a task whose membership in
    the list did not change is left exactly as it was. *)
Theorem put_users_rename_reaches_all_tasks
    (id : string) (b : UserBody) (w : World) (user : User) :
  faults w = [] → ids_coherent w →
  missing_name_or_email b = false →
  users w !! id = Some user →
  let newName := default "" (ub_name b) in
  (u_name user ≠ newName →
   ∀ k t', tasks (put_users id b w).2 !! k = Some t' →
           assignedUser t' = id → assignedUserName t' = newName)
  ∧ (u_name user = newName →
     ∀ k t, tasks w !! k = Some t →
            (k ∈ pendingTasks user ↔ k ∈ default [] (ub_pendingTasks b)) →
            tasks (put_users id b w).2 !! k = Some t).
Proof.
  destruct w as [us ts fs].
  intros Hfs [Hcu Hct] Hv Hu newName.
  cbn [faults users tasks] in Hfs, Hcu, Hct, Hu |- *. subst fs.
  destruct (put_users_tasks id b user us ts Hcu Hct Hv Hu) as (ts' & Hrun & Hts).
  fold newName in Hrun, Hts. rewrite Hrun. cbn [snd tasks]. split.
  - intros Hn k t'. rewrite Hts.
    destruct (ts !! k) as [t|]; [|discriminate].
    cbn [fmap option_fmap option_map]. cbn zeta.
    rewrite decide_True by exact Hn. intros [= <-].
    rewrite (proj1 (proj2 (rename_assigned_fields _ _ _))), rename_assigned_name.
    intros Heq. rewrite decide_True by exact Heq. reflexivity.
  - intros Hn k t Hk Hsame. rewrite Hts, Hk.
    cbn [fmap option_fmap option_map]. cbn zeta.
    rewrite decide_False by tauto.
    rewrite decide_False by tauto.
    rewrite decide_False by tauto. reflexivity.
Qed.

(** The theorem for Ann, who becomes Anna. *)
Lemma put_users_rename_reaches_all_tasks_witness :
  (faults busy_store = [] ∧ ids_coherent busy_store
   ∧ missing_name_or_email anna_body = false
   ∧ users busy_store !! "u1" = Some (set_pendingTasks ["t1"] ann)
   ∧ "Ann" ≠ "Anna")
  ∧ ∀ k t', tasks (put_users "u1" anna_body busy_store).2 !! k = Some t' →
            assignedUser t' = "u1" → assignedUserName t' = "Anna".
Proof.
  assert (H1 : faults busy_store = []) by reflexivity.
  assert (H3 : missing_name_or_email anna_body = false) by reflexivity.
  assert (H5 : users busy_store !! "u1" = Some (set_pendingTasks ["t1"] ann))
    by reflexivity.
  assert (H6 : "Ann" ≠ "Anna") by discriminate.
  split; [repeat split; try assumption; apply busy_store_coherent|].
  exact (proj1 (put_users_rename_reaches_all_tasks "u1" anna_body busy_store
                  (set_pendingTasks ["t1"] ann) H1 busy_store_coherent H3 H5)
               H6).
Defined.

(** ** Status codes *)

Ltac status_in :=
  solve [repeat (apply elem_of_cons; first [left; reflexivity | right])].

Ltac status_from H :=
  repeat (apply elem_of_cons in H as [H|H]; [rewrite H; status_in |]);
  apply elem_of_nil in H; contradiction.

Lemma resolves_in_resolve (S : list nat) (r : Response) :
  status_of r ∈ S → resolves_in S (resolve r).
Proof. intros H w r' w' [= <- <-]. exact H. Qed.

Lemma resolves_in_then {A} (S : list nat) (p : Promise A)
    (k : A -> Promise Response) :
  (∀ a, resolves_in S (k a)) → resolves_in S (then_ p k).
Proof.
  intros Hk w r w'. unfold then_.
  destruct (p w) as [[a|e] w1]; [apply Hk | discriminate].
Qed.

Lemma resolves_in_catch (S : list nat) (p : Promise Response)
    (h : StoreError -> Promise Response) :
  resolves_in S p → (∀ e, resolves_in S (h e)) → resolves_in S (catch_ p h).
Proof.
  intros Hp Hh w r w'. unfold catch_.
  destruct (p w) as [[a|e] w1] eqn:E.
  - intros [= <- <-]. exact (Hp _ _ _ E).
  - apply Hh.
Qed.

Lemma respond_status (S : list nat) (p : Promise Response)
    (h : StoreError -> Response) (w : World) :
  resolves_in S p → (∀ e, status_of (h e) ∈ S) →
  status_of (respond p h w).1 ∈ S.
Proof.
  intros Hp Hh. unfold respond.
  destruct (p w) as [[r|e] w1] eqn:E; [exact (Hp _ _ _ E) | apply Hh].
Qed.

(** X9: every route answers with one of its own status codes, whatever the
    store does: 201, 400 or 500 for the two POST routes, 200, 400, 404 or
    500 for the two PUT routes, 204, 404 or 500 for the two DELETE routes.
    On the task routes 400 is the answer exactly when [name] or [deadline]
    is absent or empty, and then nothing is read or written. *)
Theorem status_codes_of_the_routes (req : Request) (w : World) :
  status_of (handle req w).1 ∈ statuses req
  ∧ (∀ b newId now,
       (status_of (post_tasks b newId now w).1 = 400%nat
        ↔ (truthy_s (tb_name b) = false ∨ truthy_s (tb_deadline b) = false))
       ∧ (status_of (post_tasks b newId now w).1 = 400%nat →
          post_tasks b newId now w
          = (sendError 400 "Task must have a name and deadline" None, w)))
  ∧ (∀ id b,
       (status_of (put_tasks id b w).1 = 400%nat
        ↔ (truthy_s (tb_name b) = false ∨ truthy_s (tb_deadline b) = false))
       ∧ (status_of (put_tasks id b w).1 = 400%nat →
          put_tasks id b w
          = (sendError 400 "Task must have a name and deadline" None, w))).
Proof.
  assert (Hmiss : ∀ b, missing_name_or_deadline b = true
                       ↔ (truthy_s (tb_name b) = false
                          ∨ truthy_s (tb_deadline b) = false)).
  { intros b. unfold missing_name_or_deadline.
    destruct (truthy_s (tb_name b)); destruct (truthy_s (tb_deadline b));
      cbn; split; intros H; try discriminate H; try reflexivity;
      try (left; reflexivity); try (right; reflexivity);
      destruct H as [H|H]; discriminate H. }
  assert (Hpost : ∀ b newId now,
            missing_name_or_deadline b = false →
            status_of (post_tasks b newId now w).1 ∈ [201; 500]%nat).
  { intros b newId now Hv. unfold post_tasks. rewrite Hv.
    apply respond_status; [|intros e; status_in].
    apply resolves_in_then. intros n. apply resolves_in_then. intros t.
    intros w0 r w'. destruct (post_tasks_saved_resolves t w0) as (w1 & -> & _).
    intros [= <- <-]. status_in. }
  assert (Hsaved : ∀ oldU oldC newU newC t,
            resolves_in [200; 404; 500]%nat (put_tasks_saved oldU oldC newU newC t)).
  { intros oldU oldC newU newC t. unfold put_tasks_saved.
    destruct (bool_decide (oldU ≠ "") && _).
    - apply resolves_in_then. intros _. apply resolves_in_then. intros _.
      apply resolves_in_resolve. status_in.
    - destruct (bool_decide (newU ≠ "") && negb newC && _).
      + apply resolves_in_then. intros _. apply resolves_in_resolve. status_in.
      + apply resolves_in_resolve. status_in. }
  assert (Hput : ∀ id b,
            missing_name_or_deadline b = false →
            status_of (put_tasks id b w).1 ∈ [200; 404; 500]%nat).
  { intros id b Hv. unfold put_tasks. rewrite Hv.
    apply respond_status; [|intros e; status_in].
    apply resolves_in_then. intros [task|].
    - apply resolves_in_then. intros n. apply resolves_in_then. intros t.
      apply Hsaved.
    - apply resolves_in_resolve. status_in. }
  split; [|split].
  - destruct req as [b newId now|id b|id|b newId now|id b|id];
      cbn [handle statuses].
    + destruct (missing_name_or_deadline b) eqn:Hv.
      * unfold post_tasks. rewrite Hv. status_in.
      * pose proof (Hpost b newId now Hv) as H. status_from H.
    + destruct (missing_name_or_deadline b) eqn:Hv.
      * unfold put_tasks. rewrite Hv. status_in.
      * pose proof (Hput id b Hv) as H. status_from H.
    + unfold delete_tasks. apply respond_status; [|intros e; status_in].
      apply resolves_in_then. intros [task|].
      * destruct (bool_decide (assignedUser task ≠ "")).
        -- apply resolves_in_then. intros _. apply resolves_in_then. intros _.
           apply resolves_in_resolve. status_in.
        -- apply resolves_in_then. intros _. apply resolves_in_resolve.
           status_in.
      * apply resolves_in_resolve. status_in.
    + unfold post_users. destruct (missing_name_or_email b); [status_in|].
      apply respond_status.
      * apply resolves_in_then. intros u w0 r w' Hr.
        destruct (post_users_saved_surfacing _ _ _ _ Hr)
          as (resp & [= <-] & [[Hs _] | Hs]); rewrite Hs; status_in.
      * intros e. destruct (duplicate_key e); status_in.
    + unfold put_users. destruct (missing_name_or_email b); [status_in|].
      apply respond_status.
      * apply resolves_in_then. intros [user|].
        -- apply resolves_in_then. intros u. unfold put_users_saved.
           apply resolves_in_then. intros _. apply resolves_in_resolve.
           status_in.
        -- apply resolves_in_resolve. status_in.
      * intros e. destruct (duplicate_key e); status_in.
    + unfold delete_users. apply respond_status; [|intros e; status_in].
      apply resolves_in_then. intros [user|].
      * apply resolves_in_then. intros _. apply resolves_in_then. intros _.
        apply resolves_in_resolve. status_in.
      * apply resolves_in_resolve. status_in.
  - intros b newId now. rewrite <- Hmiss.
    destruct (missing_name_or_deadline b) eqn:Hv.
    + unfold post_tasks. rewrite Hv. split; [split; reflexivity | reflexivity].
    + assert (Hne : status_of (post_tasks b newId now w).1 ≠ 400%nat).
      { intros H4. pose proof (Hpost b newId now Hv) as H. rewrite H4 in H.
        repeat (apply elem_of_cons in H as [H|H]; [discriminate H|]).
        apply elem_of_nil in H. exact H. }
      split; [split; [intros H4; contradiction | discriminate]
             | intros H4; contradiction].
  - intros id b. rewrite <- Hmiss.
    destruct (missing_name_or_deadline b) eqn:Hv.
    + unfold put_tasks. rewrite Hv. split; [split; reflexivity | reflexivity].
    + assert (Hne : status_of (put_tasks id b w).1 ≠ 400%nat).
      { intros H4. pose proof (Hput id b Hv) as H. rewrite H4 in H.
        repeat (apply elem_of_cons in H as [H|H]; [discriminate H|]).
        apply elem_of_nil in H. exact H. }
      split; [split; [intros H4; contradiction | discriminate]
             | intros H4; contradiction].
Qed.

(** X10: the unique index on [email].  POST /api/users answers 400 exactly
    when [name] or [email] is absent or empty, or when the save of the user
    is rejected with the code 11000; a save rejected with any other error is
    answered with 500 and the error's message, and in both cases nothing is
    written.  PUT /api/users/:id maps a rejected save in the same way. *)
Theorem duplicate_key_answers (b : UserBody) (w : World) :
  (∀ newId now,
     status_of (post_users b newId now w).1 = 400%nat
     ↔ (truthy_s (ub_name b) = false ∨ truthy_s (ub_email b) = false
        ∨ ∃ e rest, faults w = Some e :: rest ∧ code e = Some 11000))
  ∧ (∀ newId now e rest,
       missing_name_or_email b = false → faults w = Some e :: rest →
       post_users b newId now w
       = (if decide (code e = Some 11000)
          then sendError 400 "User with this email already exists" None
          else sendError 500 "Error creating user" (Some (message e)),
          mkWorld (users w) (tasks w) rest))
  ∧ (∀ id user e rest,
       missing_name_or_email b = false →
       faults w = None :: Some e :: rest → users w !! id = Some user →
       put_users id b w
       = (if decide (code e = Some 11000)
          then sendError 400 "User with this email already exists" None
          else sendError 500 "Error updating user" (Some (message e)),
          mkWorld (users w) (tasks w) rest)).
Proof.
  assert (Hdk : ∀ e (x y : Response),
            (if duplicate_key e then x else y)
            = (if decide (code e = Some 11000) then x else y)).
  { intros e x y. unfold duplicate_key.
    destruct (decide (code e = Some 11000)) as [H|H].
    - rewrite bool_decide_true by exact H. reflexivity.
    - rewrite bool_decide_false by exact H. reflexivity. }
  assert (Hpost : ∀ newId now e rest,
            missing_name_or_email b = false → faults w = Some e :: rest →
            post_users b newId now w
            = (if decide (code e = Some 11000)
               then sendError 400 "User with this email already exists" None
               else sendError 500 "Error creating user" (Some (message e)),
               mkWorld (users w) (tasks w) rest)).
  { intros newId now e rest Hv Hf. unfold post_users. rewrite Hv.
    unfold respond, then_, User_save, store_call. rewrite Hf, Hdk.
    reflexivity. }
  split; [|split; [exact Hpost|]].
  - intros newId now.
    destruct (missing_name_or_email b) eqn:Hv.
    + unfold post_users. rewrite Hv. split; [intros _|reflexivity].
      unfold missing_name_or_email in Hv.
      destruct (truthy_s (ub_name b)); [|left; reflexivity].
      destruct (truthy_s (ub_email b)); [discriminate | right; left; reflexivity].
    + assert (Hn : truthy_s (ub_name b) = true ∧ truthy_s (ub_email b) = true).
      { unfold missing_name_or_email in Hv.
        destruct (truthy_s (ub_name b)); destruct (truthy_s (ub_email b));
          try discriminate. split; reflexivity. }
      destruct Hn as [Hn He].
      destruct (faults w) as [|[e|] rest] eqn:Hf.
      * split.
        -- unfold post_users. rewrite Hv. unfold respond, then_.
           unfold User_save at 1, store_call. rewrite Hf.
           match goal with
           | |- context [post_users_saved ?u ?w0] =>
               destruct (post_users_saved u w0) as [r2 w2] eqn:E2
           end.
           destruct (post_users_saved_surfacing _ _ _ _ E2)
             as (resp & -> & [[Hs _] | Hs]); cbn [fst]; rewrite Hs;
             discriminate.
        -- intros [H|[H|(e & rest & [=] & _)]]; congruence.
      * rewrite (Hpost newId now e rest eq_refl eq_refl). cbn [fst].
        destruct (decide (code e = Some 11000)) as [Hc|Hc]; split.
        -- intros _. right; right. eauto.
        -- reflexivity.
        -- discriminate.
        -- intros [H|[H|(e' & rest' & [= <- <-] & Hc')]]; congruence.
      * split.
        -- unfold post_users. rewrite Hv. unfold respond, then_.
           unfold User_save at 1, store_call. rewrite Hf.
           match goal with
           | |- context [post_users_saved ?u ?w0] =>
               destruct (post_users_saved u w0) as [r2 w2] eqn:E2
           end.
           destruct (post_users_saved_surfacing _ _ _ _ E2)
             as (resp & -> & [[Hs _] | Hs]); cbn [fst]; rewrite Hs;
             discriminate.
        -- intros [H|[H|(e & rest' & [=] & _)]]; congruence.
  - intros id user e rest Hv Hf Hu. unfold put_users. rewrite Hv.
    unfold respond, then_ at 1, User_findById, store_call. rewrite Hf.
    cbn [users]. rewrite Hu.
    unfold then_, User_save, store_call. cbn [faults]. rewrite Hdk.
    reflexivity.
Qed.

(** ** [updateUserPendingTasks] *)

Lemma updateUserPendingTasks_ok (userId taskId : string) (add : bool) us ts :
  updateUserPendingTasks userId taskId add (mkWorld us ts [])
  = (Resolved tt,
     mkWorld (if add then pushed userId taskId us else pulled userId taskId us)
             ts []).
Proof.
  unfold updateUserPendingTasks, catch_, then_, pushed, pulled.
  rewrite User_findById_ok.
  destruct (us !! userId) as [u|]; [|destruct add; reflexivity].
  destruct add; [|reflexivity].
  destruct (decide (taskId ∈ pendingTasks u)); reflexivity.
Qed.

Lemma filter_push_new (l : list string) (x : string) :
  x ∉ l → filter (fun y => y ≠ x) (l ++ [x])%list = l.
Proof.
  intros Hx. rewrite filter_app.
  assert (H1 : filter (fun y => y ≠ x) l = l).
  { induction l as [|a l IH]; [reflexivity|].
    apply not_elem_of_cons in Hx as [Hne Hx].
    rewrite filter_cons_True by congruence. rewrite IH by exact Hx. reflexivity. }
  rewrite H1, filter_cons_False by tauto.
  rewrite filter_nil. apply app_nil_r.
Qed.

Lemma filter_out_absent (l : list string) (x : string) :
  x ∉ filter (fun y => y ≠ x) l.
Proof. intros H. apply list_elem_of_filter in H as [H _]. congruence. Qed.

Section PushPull.

Variable us : gmap string User.
Hypothesis Hcoh : ∀ k u, us !! k = Some u → u_id u = k.

Lemma pushed_twice (uid taskId : string) :
  pushed uid taskId (pushed uid taskId us) = pushed uid taskId us.
Proof.
  destruct (us !! uid) as [u|] eqn:Hu.
  - unfold pushed at 1. rewrite (pushed_lookup us Hcoh uid taskId u Hu).
    cbn [pendingTasks set_pendingTasks].
    rewrite decide_True; [reflexivity|].
    destruct (decide (taskId ∈ pendingTasks u)) as [Hin|Hin]; [exact Hin|].
    apply elem_of_app. right. apply list_elem_of_singleton. reflexivity.
  - rewrite (pushed_missing us uid taskId Hu). apply pushed_missing, Hu.
Qed.

(** Taking out an id that has just been put in restores the collection. *)
Lemma pulled_pushed (uid taskId : string) :
  (∀ u, us !! uid = Some u → taskId ∉ pendingTasks u) →
  pulled uid taskId (pushed uid taskId us) = us.
Proof.
  intros Hnew. destruct (us !! uid) as [u|] eqn:Hu.
  - specialize (Hnew u eq_refl).
    unfold pulled. rewrite (pushed_lookup us Hcoh uid taskId u Hu).
    cbn [pendingTasks set_pendingTasks u_id].
    rewrite decide_False by exact Hnew.
    rewrite (filter_push_new _ _ Hnew).
    unfold pushed. rewrite Hu, decide_False by exact Hnew.
    rewrite (Hcoh _ _ Hu).
    change (set_pendingTasks (pendingTasks u)
              (set_pendingTasks (pendingTasks u ++ [taskId]) u))
      with (set_pendingTasks (pendingTasks u) u).
    rewrite set_pendingTasks_same, insert_insert_eq.
    apply insert_id, Hu.
  - rewrite (pushed_missing us uid taskId Hu). unfold pulled. rewrite Hu.
    reflexivity.
Qed.

(** Taking out an id that is not there changes nothing. *)
Lemma pulled_absent (uid taskId : string) :
  (∀ u, us !! uid = Some u → taskId ∉ pendingTasks u) →
  pulled uid taskId us = us.
Proof.
  intros Hnew. unfold pulled. destruct (us !! uid) as [u|] eqn:Hu;
    [|reflexivity].
  specialize (Hnew u eq_refl). rewrite (Hcoh _ _ Hu).
  assert (H1 : filter (fun y => y ≠ taskId) (pendingTasks u) = pendingTasks u).
  { revert Hnew. generalize (pendingTasks u). intros l.
    induction l as [|a l IH]; [reflexivity|]. intros Hx.
    apply not_elem_of_cons in Hx as [Hne Hx].
    rewrite filter_cons_True by congruence. rewrite IH by exact Hx.
    reflexivity. }
  rewrite H1, set_pendingTasks_same. apply insert_id, Hu.
Qed.

End PushPull.

(** X11: [updateUserPendingTasks] never rejects, whatever the store does, and
    never writes a task.  When the store answers: with [add] it appends the
    id unless the list has it, without [add] it filters every occurrence
    out; a missing user is passed over; adding twice is adding once; and
    adding an id the list did not have and removing it again leaves the
    store as it was. *)
Theorem updateUserPendingTasks_behaviour (userId taskId : string) (w : World) :
  faults w = [] → ids_coherent w →
  let run add w0 := (updateUserPendingTasks userId taskId add w0).2 in
  (∀ add w0, ∃ w', updateUserPendingTasks userId taskId add w0 = (Resolved tt, w')
                   ∧ tasks w' = tasks w0)
  ∧ (∀ u, users w !! userId = Some u →
       users (run true w) !! userId
       = Some (set_pendingTasks
                 (if decide (taskId ∈ pendingTasks u) then pendingTasks u
                  else (pendingTasks u ++ [taskId])%list) u)
       ∧ users (run false w) !! userId
         = Some (set_pendingTasks
                   (filter (fun id => id ≠ taskId) (pendingTasks u)) u))
  ∧ (users w !! userId = None → ∀ add, run add w = w)
  ∧ run true (run true w) = run true w
  ∧ (∀ u', users (run false w) !! userId = Some u' → taskId ∉ pendingTasks u')
  ∧ ((∀ u, users w !! userId = Some u → taskId ∉ pendingTasks u) →
     run false (run true w) = w).
Proof.
  destruct w as [us ts fs]. intros Hfs [Hcu _] run.
  cbn [faults users tasks] in Hfs, Hcu |- *. subst fs. unfold run.
  split; [|split; [|split; [|split; [|split]]]].
  - intros add w0. unfold updateUserPendingTasks, catch_.
    match goal with
    | |- context [match ?p w0 with _ => _ end] =>
        assert (Hk : keeps_tasks p); [|destruct (p w0) as [[[]|e] w1] eqn:E]
    end.
    + apply keeps_tasks_then; [apply keeps_tasks_User_findById|].
      intros [u|]; [|apply keeps_tasks_resolve].
      destruct add.
      * destruct (decide (taskId ∈ pendingTasks u)); [apply keeps_tasks_resolve|].
        apply keeps_tasks_then; [apply keeps_tasks_User_save|].
        intros _. apply keeps_tasks_resolve.
      * apply keeps_tasks_then; [apply keeps_tasks_User_save|].
        intros _. apply keeps_tasks_resolve.
    + eexists. split; [reflexivity | exact (Hk _ _ _ E)].
    + eexists. split; [reflexivity | exact (Hk _ _ _ E)].
  - intros u Hu. rewrite !updateUserPendingTasks_ok. cbn [snd users]. split.
    + apply (pushed_lookup us Hcu), Hu.
    + apply (pulled_lookup us Hcu), Hu.
  - intros Hu add. rewrite updateUserPendingTasks_ok. cbn [snd].
    destruct add.
    + rewrite (pushed_missing us userId taskId Hu). reflexivity.
    + unfold pulled. rewrite Hu. reflexivity.
  - rewrite updateUserPendingTasks_ok. cbn [snd].
    rewrite updateUserPendingTasks_ok. cbn [snd].
    rewrite (pushed_twice us Hcu). reflexivity.
  - intros u'. rewrite updateUserPendingTasks_ok. cbn [snd users].
    destruct (us !! userId) as [u|] eqn:Hu.
    + rewrite (pulled_lookup us Hcu userId taskId u Hu). intros [= <-].
      apply filter_out_absent.
    + unfold pulled. rewrite Hu. rewrite Hu. discriminate.
  - intros Hnew. rewrite updateUserPendingTasks_ok. cbn [snd].
    rewrite updateUserPendingTasks_ok. cbn [snd].
    rewrite (pulled_pushed us Hcu userId taskId Hnew). reflexivity.
Qed.

(** The theorem for Ann and a task she does not have yet. *)
Lemma updateUserPendingTasks_behaviour_witness :
  (faults busy_store = [] ∧ ids_coherent busy_store)
  ∧ users (updateUserPendingTasks "u1" "t2" true busy_store).2 !! "u1"
    = Some (set_pendingTasks ["t1"; "t2"] ann)
  ∧ (updateUserPendingTasks "u1" "t2" false
       (updateUserPendingTasks "u1" "t2" true busy_store).2).2
    = busy_store.
Proof.
  assert (H1 : faults busy_store = []) by reflexivity.
  split; [split; [exact H1 | apply busy_store_coherent]|].
  destruct (updateUserPendingTasks_behaviour "u1" "t2" busy_store H1
              busy_store_coherent) as (_ & Hadd & _ & _ & _ & Hback).
  split.
  - exact (proj1 (Hadd (set_pendingTasks ["t1"] ann) eq_refl)).
  - apply Hback. intros u [= <-]. cbn [pendingTasks set_pendingTasks].
    intros Hin. apply list_elem_of_singleton in Hin. discriminate Hin.
Defined.

(** ** The GET-by-id handlers, and a mutation followed by a GET *)

Lemma parse_item_select_falsy (JSON_parse : string -> option json)
    (select_throws : json -> bool) (select : option string) :
  truthy_s select = false →
  parse_item_select JSON_parse select_throws select = Some None.
Proof. intros H. unfold parse_item_select. rewrite H. reflexivity. Qed.

Section GetById.

Variable JSON_parse : string -> option json.
Variable select_throws : json -> bool.
Variable select_task : json -> Task -> Payload.
Variable select_user : json -> User -> Payload.

(** GET /api/tasks/:id once [select] is through: the answer and the store,
    by what the store does with the lookup. *)
Lemma get_tasks_id_run (id : string) (select : option string) (w : World) sel :
  parse_item_select JSON_parse select_throws select = Some sel →
  get_tasks_id JSON_parse select_throws select_task id select w
  = (match faults w with
     | Some e :: _ => sendError 500 "Error retrieving task" (Some (message e))
     | _ =>
         match tasks w !! id with
         | None => sendError 404 "Task not found" None
         | Some t =>
             sendSuccess 200 "OK"
               (match sel with
                | Some v => select_task v t
                | None => PTask t
                end)
         end
     end, mkWorld (users w) (tasks w) (tail (faults w))).
Proof.
  intros Hsel. unfold get_tasks_id. rewrite Hsel.
  unfold respond, then_, Task_findById, store_call.
  destruct w as [us ts fs]. cbn [faults users tasks].
  destruct fs as [|[e|] rest]; cbn [users tasks tail];
    try destruct (ts !! id); reflexivity.
Qed.

Lemma get_users_id_run (id : string) (select : option string) (w : World) sel :
  parse_item_select JSON_parse select_throws select = Some sel →
  get_users_id JSON_parse select_throws select_user id select w
  = (match faults w with
     | Some e :: _ => sendError 500 "Error retrieving user" (Some (message e))
     | _ =>
         match users w !! id with
         | None => sendError 404 "User not found" None
         | Some u =>
             sendSuccess 200 "OK"
               (match sel with
                | Some v => select_user v u
                | None => PUser u
                end)
         end
     end, mkWorld (users w) (tasks w) (tail (faults w))).
Proof.
  intros Hsel. unfold get_users_id. rewrite Hsel.
  unfold respond, then_, User_findById, store_call.
  destruct w as [us ts fs]. cbn [faults users tasks].
  destruct fs as [|[e|] rest]; cbn [users tasks tail];
    try destruct (us !! id); reflexivity.
Qed.

Lemma status_of_sendError (c : nat) (m : string) (d : option string) :
  status_of (sendError c m d) = c.
Proof. reflexivity. Qed.

(** X12: the two GET-by-id handlers.  Whatever the store does, they write
    nothing and answer 200, 400, 404 or 500; the answer is 400 exactly when
    [select] is present and does not parse (or is refused as a projection),
    and then the store is not even asked; a rejected lookup is answered 500
    with the store's message; and a store that answers gives 404 for an id
    that is not there and the stored document for one that is. *)
Theorem get_by_id_reads_only (id : string) (select : option string) (w : World) :
  let rt := get_tasks_id JSON_parse select_throws select_task id select w in
  let ru := get_users_id JSON_parse select_throws select_user id select w in
  let malformed := parse_item_select JSON_parse select_throws select = None in
  (users rt.2 = users w ∧ tasks rt.2 = tasks w
   ∧ users ru.2 = users w ∧ tasks ru.2 = tasks w)
  ∧ (status_of rt.1 ∈ [200; 400; 404; 500]%nat
     ∧ status_of ru.1 ∈ [200; 400; 404; 500]%nat)
  ∧ ((status_of rt.1 = 400%nat ↔ malformed)
     ∧ (status_of ru.1 = 400%nat ↔ malformed))
  ∧ (malformed → rt.2 = w ∧ ru.2 = w)
  ∧ (∀ e rest, ¬ malformed → faults w = Some e :: rest →
       rt.1 = sendError 500 "Error retrieving task" (Some (message e))
       ∧ ru.1 = sendError 500 "Error retrieving user" (Some (message e)))
  ∧ (truthy_s select = false → faults w = [] →
       rt = (match tasks w !! id with
             | Some t => sendSuccess 200 "OK" (PTask t)
             | None => sendError 404 "Task not found" None
             end, w)
       ∧ ru = (match users w !! id with
               | Some u => sendSuccess 200 "OK" (PUser u)
               | None => sendError 404 "User not found" None
               end, w)).
Proof.
  intros rt ru malformed. subst rt ru malformed.
  destruct (parse_item_select JSON_parse select_throws select) as [sel|] eqn:Hsel.
  - rewrite (get_tasks_id_run id select w sel Hsel).
    rewrite (get_users_id_run id select w sel Hsel).
    cbn [fst snd users tasks].
    split; [auto|].
    split.
    { destruct (faults w) as [|[e|] rest];
        (split; [destruct (tasks w !! id) | destruct (users w !! id)]);
        cbn [status_of sendSuccess]; rewrite ?status_of_sendError; status_in. }
    split.
    { destruct (faults w) as [|[e|] rest];
        (split; (split; [|discriminate]);
         [destruct (tasks w !! id) | destruct (users w !! id)]);
        cbn [status_of sendSuccess]; rewrite ?status_of_sendError;
        discriminate. }
    split; [discriminate|].
    split.
    { intros e rest _ ->. split; reflexivity. }
    intros Hfalsy Hn.
    rewrite (parse_item_select_falsy _ _ _ Hfalsy) in Hsel.
    injection Hsel as <-. rewrite Hn. cbn [tail].
    destruct w as [us ts fs]. cbn [faults users tasks] in *. subst fs.
    split; [destruct (ts !! id) | destruct (us !! id)]; reflexivity.
  - unfold get_tasks_id, get_users_id. rewrite Hsel. cbn [fst snd].
    rewrite !status_of_sendError.
    split; [auto|]. split; [split; status_in|].
    split; [split; split; reflexivity|].
    split; [auto|].
    split; [intros e rest Hne; contradiction|].
    intros Hfalsy. rewrite (parse_item_select_falsy _ _ _ Hfalsy) in Hsel.
    discriminate Hsel.
Qed.

End GetById.

(** What the mutating handlers answer when the body is refused or the id is
    not there: an error without a document. *)
Lemma handle_document (req : Request) (us : gmap string User)
    (ts : gmap string Task) :
  (∀ k u, us !! k = Some u → u_id u = k) →
  (∀ k t, ts !! k = Some t → t_id t = k) →
  let r := (handle req (mkWorld us ts [])).1 in
  let w' := (handle req (mkWorld us ts [])).2 in
  faults w' = []
  ∧ (∀ c m t, r = Json c m (PTask t) → tasks w' !! t_id t = Some t)
  ∧ (∀ c m u, r = Json c m (PUser u) → users w' !! u_id u = Some u).
Proof.
  intros Hcu Hct.
  destruct req as [b newId now|id b|id|b newId now|id b|id]; cbn [handle].
  - destruct (missing_name_or_deadline b) eqn:Hv.
    + unfold post_tasks. rewrite Hv. cbn.
      repeat split; intros; discriminate.
    + rewrite (post_tasks_ok b newId now us ts Hv). cbn [fst snd faults tasks].
      split; [reflexivity|]. split; [|intros; discriminate].
      intros c m t [= _ _ <-]. cbn [new_task t_id]. apply lookup_insert_eq.
  - destruct (missing_name_or_deadline b) eqn:Hv.
    + unfold put_tasks. rewrite Hv. cbn.
      repeat split; intros; discriminate.
    + destruct (ts !! id) as [task|] eqn:Hf.
      * pose proof (put_tasks_ok id b task us ts Hv Hf) as H. cbn zeta in H.
        rewrite H. cbn [fst snd faults tasks].
        split; [reflexivity|]. split; [|intros; discriminate].
        intros c m t [= _ _ <-]. cbn [updated_task t_id].
        apply lookup_insert_eq.
      * unfold put_tasks. rewrite Hv.
        unfold respond, then_, Task_findById, store_call.
        cbn [faults tasks]. rewrite Hf. cbn.
        repeat split; intros; discriminate.
  - destruct (ts !! id) as [task|] eqn:Hf.
    + rewrite (delete_tasks_ok id task us ts Hf). cbn.
      repeat split; intros; discriminate.
    + unfold delete_tasks, respond, then_, Task_findById, store_call.
      cbn [faults tasks]. rewrite Hf. cbn.
      repeat split; intros; discriminate.
  - destruct (missing_name_or_email b) eqn:Hv.
    + unfold post_users. rewrite Hv. cbn.
      repeat split; intros; discriminate.
    + pose proof (post_users_ok b newId now us ts Hv) as H. cbn zeta in H.
      rewrite H. cbn [fst snd faults users].
      split; [reflexivity|]. split; [intros; discriminate|].
      intros c m u [= _ _ <-]. cbn [u_id]. apply lookup_insert_eq.
  - destruct (missing_name_or_email b) eqn:Hv.
    + unfold put_users. rewrite Hv. cbn.
      repeat split; intros; discriminate.
    + destruct (us !! id) as [user|] eqn:Hf.
      * pose proof (put_users_ok id b user us ts Hv Hf) as H. cbn zeta in H.
        rewrite H. cbn [fst snd faults users].
        split; [reflexivity|]. split; [intros; discriminate|].
        intros c m u [= _ _ <-]. cbn [u_id]. apply lookup_insert_eq.
      * unfold put_users. rewrite Hv.
        unfold respond, then_. rewrite User_findById_ok, Hf. cbn.
        repeat split; intros; discriminate.
  - destruct (us !! id) as [user|] eqn:Hf.
    + rewrite (delete_users_ok id user us ts Hf). cbn.
      repeat split; intros; discriminate.
    + unfold delete_users, respond, then_. rewrite User_findById_ok, Hf. cbn.
      repeat split; intros; discriminate.
Qed.

(** X13: read your writes.  When the store rejects nothing, the document in
    the answer of a POST or PUT, of a task or of a user, is the document a
    GET of its id returns next, and that GET leaves the store as the
    mutation left it. *)
Theorem answered_document_is_stored
    (JSON_parse : string -> option json) (select_throws : json -> bool)
    (select_task : json -> Task -> Payload) (select_user : json -> User -> Payload)
    (req : Request) (w : World) :
  faults w = [] → ids_coherent w →
  let r := (handle req w).1 in
  let w' := (handle req w).2 in
  (∀ c m t, r = Json c m (PTask t) →
     get_tasks_id JSON_parse select_throws select_task (t_id t) None w'
     = (sendSuccess 200 "OK" (PTask t), w'))
  ∧ (∀ c m u, r = Json c m (PUser u) →
       get_users_id JSON_parse select_throws select_user (u_id u) None w'
       = (sendSuccess 200 "OK" (PUser u), w')).
Proof.
  destruct w as [us ts fs]. cbn [faults]. intros -> [Hcu Hct].
  cbn [users tasks] in Hcu, Hct.
  destruct (handle_document req us ts Hcu Hct) as (Hfs & Ht & Hu).
  cbn zeta in Hfs, Ht, Hu |- *.
  destruct (handle req (mkWorld us ts [])) as [r [us' ts' fs']].
  cbn [fst snd faults users tasks] in *. subst fs'.
  split.
  - intros c m t Hr.
    rewrite (get_tasks_id_run _ _ _ _ None _ None eq_refl).
    cbn [faults tasks users tail]. rewrite (Ht c m t Hr). reflexivity.
  - intros c m u Hr.
    rewrite (get_users_id_run _ _ _ _ None _ None eq_refl).
    cbn [faults tasks users tail]. rewrite (Hu c m u Hr). reflexivity.
Qed.

(** The theorem for a task created for Bob: the server fills in his name,
    and the document comes back from a GET. *)
Lemma answered_document_is_stored_witness :
  (faults busy_store = [] ∧ ids_coherent busy_store)
  ∧ ∃ t, (handle (PostTasks for_bob_body "t2" 7) busy_store).1
         = Json 201 "Task created successfully" (PTask t)
         ∧ assignedUserName t = "Bob"
         ∧ (get_tasks_id sample_values never_throws whole_task "t2" None
              (handle (PostTasks for_bob_body "t2" 7) busy_store).2).1
           = Json 200 "OK" (PTask t).
Proof.
  assert (H1 : faults busy_store = []) by reflexivity.
  split; [split; [exact H1 | apply busy_store_coherent]|].
  eexists. split; [reflexivity|]. split; [reflexivity|].
  pose proof (answered_document_is_stored sample_values never_throws
                whole_task whole_user (PostTasks for_bob_body "t2" 7)
                busy_store H1 busy_store_coherent) as [Ht _].
  exact (f_equal fst (Ht _ _ _ eq_refl)).
Defined.

(** ** A creation followed by a deletion *)

(** X14: POST /api/tasks followed by DELETE /api/tasks/:id of the new id
    gives the store back exactly as it was, when the id was free, no list
    of the named user held it already, and the store rejects nothing: the
    deletion takes out of the user's list what the creation put in. *)
Theorem post_then_delete_task_restores
    (b : TaskBody) (newId : string) (now : Z) (w : World) :
  faults w = [] → ids_coherent w →
  missing_name_or_deadline b = false →
  tasks w !! newId = None →
  (∀ u, users w !! or_default (tb_assignedUser b) "" = Some u →
        newId ∉ pendingTasks u) →
  delete_tasks newId (post_tasks b newId now w).2 = (Send 204, w).
Proof.
  destruct w as [us ts fs]. cbn [faults users tasks].
  intros -> [Hcu _] Hv Hfree Hnew. cbn [users] in Hcu.
  rewrite (post_tasks_ok b newId now us ts Hv). cbn [snd].
  rewrite (delete_tasks_ok newId (new_task b newId now us))
    by apply lookup_insert_eq.
  cbn [new_task assignedUser t_id].
  rewrite (delete_insert_id ts newId _ Hfree).
  f_equal. f_equal.
  destruct (bool_decide (or_default (tb_assignedUser b) "" ≠ "")); cbn [andb];
    [|reflexivity].
  destruct (negb (coerce_completed (tb_completed b))).
  - apply (pulled_pushed us Hcu), Hnew.
  - apply (pulled_absent us Hcu), Hnew.
Qed.

(** The theorem for a task created for Bob in a store where Ann has one. *)
Lemma post_then_delete_task_restores_witness :
  (faults busy_store = [] ∧ ids_coherent busy_store
   ∧ missing_name_or_deadline for_bob_body = false
   ∧ tasks busy_store !! "t2" = None)
  ∧ users (post_tasks for_bob_body "t2" 7 busy_store).2 !! "u2"
    = Some (set_pendingTasks ["t2"] bob)
  ∧ delete_tasks "t2" (post_tasks for_bob_body "t2" 7 busy_store).2
    = (Send 204, busy_store).
Proof.
  assert (H1 : faults busy_store = []) by reflexivity.
  assert (H3 : missing_name_or_deadline for_bob_body = false) by reflexivity.
  assert (H4 : tasks busy_store !! "t2" = None) by reflexivity.
  split; [repeat split; try assumption; apply busy_store_coherent|].
  split; [reflexivity|].
  apply (post_then_delete_task_restores for_bob_body "t2" 7 busy_store H1
           busy_store_coherent H3 H4).
  intros u [= <-]. cbn [pendingTasks bob]. apply not_elem_of_nil.
Defined.

Lemma set_assignment_twice (a n a' n' : string) (t : Task) :
  set_assignment a n (set_assignment a' n' t) = set_assignment a n t.
Proof. reflexivity. Qed.

(** X15: POST /api/users followed by DELETE /api/users/:id of the new id
    gives the users back as they were, but not the tasks: every task the
    body listed ends unassigned, whoever had it before; with an empty list
    the store is exactly as it was. *)
Theorem post_then_delete_user_unassigns
    (b : UserBody) (newId : string) (now : Z) (w : World) :
  faults w = [] → ids_coherent w →
  missing_name_or_email b = false →
  users w !! newId = None →
  ∃ w2, delete_users newId (post_users b newId now w).2 = (Send 204, w2)
        ∧ faults w2 = [] ∧ users w2 = users w
        ∧ (∀ k, tasks w2 !! k
                = (fun t => if decide (k ∈ default [] (ub_pendingTasks b))
                            then set_assignment "" "unassigned" t else t)
                    <$> tasks w !! k)
        ∧ (default [] (ub_pendingTasks b) = [] → w2 = w).
Proof.
  destruct w as [us ts fs]. cbn [faults users tasks].
  intros -> [_ Hct] Hv Hfree. cbn [tasks] in Hct.
  pose proof (post_users_ok b newId now us ts Hv) as H. cbn zeta in H.
  rewrite H. clear H. cbn [snd].
  set (user := mkUser newId _ _ _ now).
  rewrite (delete_users_ok newId user) by apply lookup_insert_eq.
  eexists. split; [reflexivity|]. cbn [faults users tasks u_id user pendingTasks].
  split; [reflexivity|].
  split; [apply delete_insert_id, Hfree|].
  split.
  - intros k. unfold unassigned_all, assigned_all.
    rewrite reassigned_all_lookup by (apply reassigned_all_coherent, Hct).
    rewrite (reassigned_all_lookup _ _ _ ts k Hct).
    destruct (ts !! k) as [t|]; [|reflexivity]. cbn.
    destruct (decide (k ∈ default [] (ub_pendingTasks b))); reflexivity.
  - intros ->. cbn [unassigned_all assigned_all foldl].
    rewrite (delete_insert_id us newId _ Hfree). reflexivity.
Qed.

(** The theorem for Carol, who is created with the task of Ann and deleted
    again: the task is nobody's, and Ann still lists it. *)
Lemma post_then_delete_user_unassigns_witness :
  (faults busy_store = [] ∧ ids_coherent busy_store
   ∧ missing_name_or_email carol_body = false
   ∧ users busy_store !! "u3" = None)
  ∧ ∃ w2, delete_users "u3" (post_users carol_body "u3" 7 busy_store).2
          = (Send 204, w2)
          ∧ tasks w2 !! "t1" = Some report
          ∧ users w2 !! "u1" = Some (set_pendingTasks ["t1"] ann).
Proof.
  assert (H1 : faults busy_store = []) by reflexivity.
  assert (H3 : missing_name_or_email carol_body = false) by reflexivity.
  assert (H4 : users busy_store !! "u3" = None) by reflexivity.
  split; [repeat split; try assumption; apply busy_store_coherent|].
  destruct (post_then_delete_user_unassigns carol_body "u3" 7 busy_store H1
              busy_store_coherent H3 H4) as (w2 & E & _ & Hu & Ht & _).
  exists w2. split; [exact E|]. split.
  - rewrite Ht. reflexivity.
  - rewrite Hu. reflexivity.
Defined.

(** ** What a 204 means *)

Lemma User_findByIdAndDelete_keeps (id : string) (w : World) r w' :
  User_findByIdAndDelete id w = (r, w') →
  tasks w' = tasks w
  ∧ ((∃ e, r = Rejected e ∧ users w' = users w)
     ∨ (r = Resolved tt ∧ users w' = delete id (users w))).
Proof.
  unfold User_findByIdAndDelete, store_call.
  destruct (faults w) as [|[e|] rest]; intros [= <- <-]; cbn; eauto.
Qed.

Lemma User_findById_cases (id : string) (w : World) r w' :
  User_findById id w = (r, w') →
  tasks w' = tasks w ∧ users w' = users w
  ∧ ((∃ e, r = Rejected e) ∨ r = Resolved (users w !! id)).
Proof.
  unfold User_findById, store_call.
  destruct (faults w) as [|[e|] rest]; intros [= <- <-]; eauto.
Qed.

Lemma delete_tasks_204 (id : string) (w : World) r w' :
  delete_tasks id w = (r, w') →
  status_of r = 204%nat →
  ∃ task, tasks w !! id = Some task
          ∧ tasks w' = delete (t_id task) (tasks w).
Proof.
  unfold delete_tasks, respond, then_ at 1.
  destruct (Task_findById id w) as [[found|e] w1] eqn:E1;
    [|intros [= <- <-]; cbn; discriminate].
  apply Task_findById_cases in E1 as (Ht1 & _ & [[e [=]] | [= ->]]).
  destruct (tasks w !! id) as [task|]; [|intros [= <- <-]; cbn; discriminate].
  intros H Hs. exists task. split; [reflexivity|]. revert H Hs.
  assert (Hdel : ∀ w2 r2 w3, tasks w2 = tasks w →
            then_ (Task_findByIdAndDelete (t_id task))
                  (fun _ => resolve (Send 204)) w2 = (r2, w3) →
            (∃ e, r2 = Rejected e)
            ∨ (tasks w3 = delete (t_id task) (tasks w))).
  { intros w2 r2 w3 H2. unfold then_.
    destruct (Task_findByIdAndDelete (t_id task) w2) as [[[]|e] w4] eqn:E4.
    - intros [= <- <-]. right.
      apply Task_findByIdAndDelete_keeps in E4
        as (_ & [(e' & [=] & _) | (_ & H)]). congruence.
    - intros [= <- <-]. left. eauto. }
  destruct (bool_decide (assignedUser task ≠ "")).
  - unfold then_ at 1.
    destruct (pull_pending (assignedUser task) (t_id task) w1)
      as [[[]|e] w2] eqn:E2; [|intros [= <- <-]; cbn; discriminate].
    pose proof (keeps_tasks_pull_pending _ _ _ _ _ E2) as H2.
    destruct (then_ _ _ w2) as [[r3|e3] w3] eqn:E3.
    + intros [= <- <-] _.
      destruct (Hdel w2 _ w3 ltac:(congruence) E3) as [[e [=]]|H]. exact H.
    + intros [= <- <-]. cbn. discriminate.
  - destruct (then_ _ _ w1) as [[r3|e3] w3] eqn:E3.
    + intros [= <- <-] _.
      destruct (Hdel w1 _ w3 Ht1 E3) as [[e [=]]|H]. exact H.
    + intros [= <- <-]. cbn. discriminate.
Qed.

Lemma delete_users_204 (id : string) (w : World) r w' :
  delete_users id w = (r, w') →
  status_of r = 204%nat →
  ∃ user, users w !! id = Some user
          ∧ users w' = delete (u_id user) (users w).
Proof.
  unfold delete_users, respond, then_ at 1.
  destruct (User_findById id w) as [[found|e] w1] eqn:E1;
    [|intros [= <- <-]; cbn; discriminate].
  apply User_findById_cases in E1 as (_ & Hu1 & [[e [=]] | [= ->]]).
  destruct (users w !! id) as [user|]; [|intros [= <- <-]; cbn; discriminate].
  intros H Hs. exists user. split; [reflexivity|]. revert H Hs.
  unfold then_ at 1.
  destruct (Promise_all (map unassign_task (pendingTasks user)) w1)
    as [[l|e] w2] eqn:E2; [|intros [= <- <-]; cbn; discriminate].
  assert (H2 : users w2 = users w1).
  { refine (keeps_users_Promise_all _ _ _ _ _ E2).
    apply Forall_map_all, keeps_users_unassign_task. }
  unfold then_.
  destruct (User_findByIdAndDelete (u_id user) w2) as [[[]|e] w3] eqn:E3;
    [|intros [= <- <-]; cbn; discriminate].
  intros [= <- <-] _.
  apply User_findByIdAndDelete_keeps in E3
    as (_ & [(e' & [=] & _) | (_ & H)]). congruence.
Qed.

(** X16: a DELETE that answers 204 has deleted the document, whatever the
    store did on the way, and a GET of the same id cannot answer 200 after
    it: it answers 404 when the store answers at all.  This holds for tasks
    and for users. *)
Theorem no_content_means_deleted
    (JSON_parse : string -> option json) (select_throws : json -> bool)
    (select_task : json -> Task -> Payload) (select_user : json -> User -> Payload)
    (id : string) (w : World) :
  ids_coherent w →
  (status_of (delete_tasks id w).1 = 204%nat →
   tasks (delete_tasks id w).2 !! id = None
   ∧ ∀ select,
       status_of (get_tasks_id JSON_parse select_throws select_task id select
                    (delete_tasks id w).2).1 ≠ 200%nat)
  ∧ (status_of (delete_users id w).1 = 204%nat →
     users (delete_users id w).2 !! id = None
     ∧ ∀ select,
         status_of (get_users_id JSON_parse select_throws select_user id select
                      (delete_users id w).2).1 ≠ 200%nat).
Proof.
  intros [Hcu Hct]. split.
  - intros H.
    destruct (delete_tasks id w) as [r w'] eqn:E. cbn [fst snd] in *.
    apply (delete_tasks_204 _ _ _ _ E) in H as (task & Hf & Hd).
    rewrite (Hct _ _ Hf) in Hd.
    assert (Hgone : tasks w' !! id = None)
      by (rewrite Hd; apply lookup_delete_eq).
    split; [exact Hgone|]. intros select.
    destruct (parse_item_select JSON_parse select_throws select) as [sel|] eqn:Hs.
    + rewrite (get_tasks_id_run _ _ _ _ _ _ sel Hs). cbn [fst].
      rewrite Hgone.
      destruct (faults _) as [|[e|] rest]; cbn; discriminate.
    + unfold get_tasks_id. rewrite Hs. cbn. discriminate.
  - intros H.
    destruct (delete_users id w) as [r w'] eqn:E. cbn [fst snd] in *.
    apply (delete_users_204 _ _ _ _ E) in H as (user & Hf & Hd).
    rewrite (Hcu _ _ Hf) in Hd.
    assert (Hgone : users w' !! id = None)
      by (rewrite Hd; apply lookup_delete_eq).
    split; [exact Hgone|]. intros select.
    destruct (parse_item_select JSON_parse select_throws select) as [sel|] eqn:Hs.
    + rewrite (get_users_id_run _ _ _ _ _ _ sel Hs). cbn [fst].
      rewrite Hgone.
      destruct (faults _) as [|[e|] rest]; cbn; discriminate.
    + unfold get_users_id. rewrite Hs. cbn. discriminate.
Qed.

(** The theorem for the task of Ann. *)
Lemma no_content_means_deleted_witness :
  ids_coherent busy_store
  ∧ status_of (delete_tasks "t1" busy_store).1 = 204%nat
  ∧ tasks (delete_tasks "t1" busy_store).2 !! "t1" = None
  ∧ status_of (get_tasks_id sample_values never_throws whole_task "t1" None
                 (delete_tasks "t1" busy_store).2).1 = 404%nat.
Proof.
  assert (H2 : status_of (delete_tasks "t1" busy_store).1 = 204%nat)
    by reflexivity.
  split; [apply busy_store_coherent|]. split; [exact H2|].
  split; [|reflexivity].
  exact (proj1 (proj1 (no_content_means_deleted sample_values never_throws
                         whole_task whole_user "t1" busy_store
                         busy_store_coherent) H2)).
Defined.

(** ** Documents stay filed under their ids *)

Lemma keeps_coherent_resolve {A} (a : A) : keeps_coherent (resolve a).
Proof. intros w r w' Hw [= _ <-]. exact Hw. Qed.

Lemma keeps_coherent_then {A B} (p : Promise A) (k : A -> Promise B) :
  keeps_coherent p → (∀ a, keeps_coherent (k a)) → keeps_coherent (then_ p k).
Proof.
  intros Hp Hk w r w' Hw. unfold then_.
  destruct (p w) as [[a|e] w1] eqn:E.
  - apply (Hk a), (Hp _ _ _ Hw E).
  - intros [= _ <-]. exact (Hp _ _ _ Hw E).
Qed.

Lemma keeps_coherent_catch {A} (p : Promise A) (h : StoreError -> Promise A) :
  keeps_coherent p → (∀ e, keeps_coherent (h e)) → keeps_coherent (catch_ p h).
Proof.
  intros Hp Hh w r w' Hw. unfold catch_.
  destruct (p w) as [[a|e] w1] eqn:E.
  - intros [= _ <-]. exact (Hp _ _ _ Hw E).
  - apply (Hh e), (Hp _ _ _ Hw E).
Qed.

Lemma keeps_coherent_store_call {A} (op : World -> A * World) :
  (∀ w, ids_coherent w → ids_coherent (op w).2) →
  keeps_coherent (store_call op).
Proof.
  intros Hop w r w' Hw. unfold store_call.
  destruct (faults w) as [|[e|] rest].
  - specialize (Hop w Hw). destruct (op w) as [a w1]. intros [= _ <-]. exact Hop.
  - intros [= _ <-]. exact Hw.
  - specialize (Hop (mkWorld (users w) (tasks w) rest) Hw).
    destruct (op _) as [a w1]. intros [= _ <-]. exact Hop.
Qed.

Lemma keeps_coherent_Promise_all {A} (ps : list (Promise A)) :
  Forall keeps_coherent ps → keeps_coherent (Promise_all ps).
Proof.
  induction 1 as [|p ps Hp _ IH]; intros w r w' Hw.
  - intros [= _ <-]. exact Hw.
  - cbn [Promise_all].
    destruct (p w) as [r1 w1] eqn:E1.
    destruct (Promise_all ps w1) as [rs w2] eqn:E2.
    intros [= _ <-]. exact (IH _ _ _ (Hp _ _ _ Hw E1) E2).
Qed.

Lemma keeps_coherent_User_findById (id : string) :
  keeps_coherent (User_findById id).
Proof. apply keeps_coherent_store_call. intros w Hw. exact Hw. Qed.

Lemma keeps_coherent_Task_findById (id : string) :
  keeps_coherent (Task_findById id).
Proof. apply keeps_coherent_store_call. intros w Hw. exact Hw. Qed.

Lemma keeps_coherent_User_save (u : User) : keeps_coherent (User_save u).
Proof.
  apply keeps_coherent_store_call. intros w [Hcu Hct]. split; [|exact Hct].
  apply (coherent_insert u_id), Hcu.
Qed.

Lemma keeps_coherent_Task_save (t : Task) : keeps_coherent (Task_save t).
Proof.
  apply keeps_coherent_store_call. intros w [Hcu Hct]. split; [exact Hcu|].
  apply (coherent_insert t_id), Hct.
Qed.

Lemma keeps_coherent_User_findByIdAndDelete (id : string) :
  keeps_coherent (User_findByIdAndDelete id).
Proof.
  apply keeps_coherent_store_call. intros w [Hcu Hct]. split; [|exact Hct].
  apply (coherent_delete u_id), Hcu.
Qed.

Lemma keeps_coherent_Task_findByIdAndDelete (id : string) :
  keeps_coherent (Task_findByIdAndDelete id).
Proof.
  apply keeps_coherent_store_call. intros w [Hcu Hct]. split; [exact Hcu|].
  apply (coherent_delete t_id), Hct.
Qed.

Lemma keeps_coherent_updateMany (uid newName : string) :
  keeps_coherent (Task_updateMany_assignedUserName uid newName).
Proof.
  apply keeps_coherent_store_call. intros w [Hcu Hct]. split; [exact Hcu|].
  intros k t. cbn [snd tasks]. rewrite lookup_fmap.
  destruct (tasks w !! k) as [t0|] eqn:Hk; [|discriminate].
  cbn. intros [= <-].
  rewrite (proj1 (rename_assigned_fields uid newName t0)). exact (Hct _ _ Hk).
Qed.

Create HintDb coherent.
#[local] Hint Resolve keeps_coherent_resolve keeps_coherent_User_findById
  keeps_coherent_Task_findById keeps_coherent_User_save
  keeps_coherent_Task_save keeps_coherent_User_findByIdAndDelete
  keeps_coherent_Task_findByIdAndDelete keeps_coherent_updateMany : coherent.

(** One step of a chain: a [then], a [catch], a branch on a lookup or on a
    condition, or a batch. *)
Ltac coherent_step :=
  match goal with
  | |- keeps_coherent (then_ _ _) => apply keeps_coherent_then; [|intros ?]
  | |- keeps_coherent (catch_ _ _) => apply keeps_coherent_catch; [|intros ?]
  | |- keeps_coherent (match ?x with _ => _ end) => destruct x
  | |- keeps_coherent (Promise_all (map _ _)) =>
      apply keeps_coherent_Promise_all, Forall_map_all; intros ?
  | |- keeps_coherent (Promise_all (_ ++ _)) =>
      apply keeps_coherent_Promise_all; rewrite ?Forall_app; repeat split
  | |- Forall keeps_coherent (map _ _) => apply Forall_map_all; intros ?
  | |- Forall keeps_coherent [_] => apply Forall_cons; split; [|constructor]
  | |- Forall keeps_coherent [] => constructor
  | |- Forall keeps_coherent (if ?c then _ else _) => destruct c
  | |- keeps_coherent _ => solve [auto with coherent]
  end.

Lemma keeps_coherent_push_pending (uid taskId : string) :
  keeps_coherent (push_pending uid taskId).
Proof. unfold push_pending. repeat coherent_step. Qed.

Lemma keeps_coherent_pull_pending (uid taskId : string) :
  keeps_coherent (pull_pending uid taskId).
Proof. unfold pull_pending. repeat coherent_step. Qed.

Lemma keeps_coherent_assign_task (user : User) (taskId : string) :
  keeps_coherent (assign_task user taskId).
Proof. unfold assign_task. repeat coherent_step. Qed.

Lemma keeps_coherent_unassign_task (taskId : string) :
  keeps_coherent (unassign_task taskId).
Proof. unfold unassign_task. repeat coherent_step. Qed.

Lemma keeps_coherent_fetchUserName (assigned : string) (b : TaskBody) :
  keeps_coherent (fetchUserName assigned b).
Proof. unfold fetchUserName. repeat coherent_step. Qed.

#[local] Hint Resolve keeps_coherent_push_pending keeps_coherent_pull_pending
  keeps_coherent_assign_task keeps_coherent_unassign_task
  keeps_coherent_fetchUserName : coherent.

(** ** The lists only hold pending tasks of their user *)

Section Members.

Variable us : gmap string User.
Hypothesis Hcoh : ∀ k u, us !! k = Some u → u_id u = k.

(** An id in a list after a push is the pushed one or was there before. *)
Lemma pushed_member (uid taskId k x : string) (u : User) :
  pushed uid taskId us !! k = Some u → x ∈ pendingTasks u →
  (x = taskId ∧ k = uid)
  ∨ (∃ u0, us !! k = Some u0 ∧ x ∈ pendingTasks u0).
Proof.
  destruct (decide (k = uid)) as [->|Hk].
  - destruct (us !! uid) as [u0|] eqn:Hu.
    + rewrite (pushed_lookup us Hcoh _ _ _ Hu). intros [= <-].
      cbn [pendingTasks set_pendingTasks].
      destruct (decide (taskId ∈ pendingTasks u0)); [eauto|].
      intros Hx. apply elem_of_app in Hx as [Hx|Hx]; [eauto|].
      apply list_elem_of_singleton in Hx. auto.
    + rewrite (pushed_missing us _ _ Hu), Hu. discriminate.
  - rewrite (pushed_lookup_ne us Hcoh) by exact Hk. eauto.
Qed.

(** An id in a list after a pull was there before, and is not the pulled
    one in the list of the user it was pulled from. *)
Lemma pulled_member (uid taskId k x : string) (u : User) :
  pulled uid taskId us !! k = Some u → x ∈ pendingTasks u →
  (∃ u0, us !! k = Some u0 ∧ x ∈ pendingTasks u0)
  ∧ (k = uid → x ≠ taskId).
Proof.
  destruct (decide (k = uid)) as [->|Hk].
  - destruct (us !! uid) as [u0|] eqn:Hu.
    + rewrite (pulled_lookup us Hcoh _ _ _ Hu). intros [= <-].
      cbn [pendingTasks set_pendingTasks]. intros Hx.
      apply list_elem_of_filter in Hx as [Hne Hx]. eauto.
    + unfold pulled. rewrite Hu, Hu. discriminate.
  - rewrite (pulled_lookup_ne us Hcoh) by exact Hk. intros Hu Hx.
    split; [eauto | contradiction].
Qed.

End Members.

Lemma post_tasks_listing (b : TaskBody) (newId : string) (now : Z) (w : World) :
  faults w = [] → ids_coherent w → listing_invariant w →
  tasks w !! newId = None →
  listing_invariant (post_tasks b newId now w).2.
Proof.
  destruct w as [us ts fs]. cbn [faults users tasks].
  intros -> [Hcu Hct] Hinv Hfree. cbn [users tasks] in Hcu, Hct.
  destruct (missing_name_or_deadline b) eqn:Hv.
  { unfold post_tasks. rewrite Hv. exact Hinv. }
  rewrite (post_tasks_ok b newId now us ts Hv). cbn [snd].
  intros k u x Hk Hx. cbn [users tasks] in Hk |- *.
  assert (Hold : ∀ u0, us !! k = Some u0 → x ∈ pendingTasks u0 →
            k ≠ "" ∧ ∃ t, <[newId := new_task b newId now us]> ts !! x = Some t
                          ∧ assignedUser t = k ∧ completed t = false).
  { intros u0 H0 Hx0. destruct (Hinv k u0 x H0 Hx0) as (Hk0 & t & Ht & Ha & Hc).
    cbn [tasks] in Ht. split; [exact Hk0|]. exists t.
    rewrite lookup_insert_ne; [auto|]. intros <-. congruence. }
  destruct (bool_decide (or_default (tb_assignedUser b) "" ≠ "")) eqn:Hb;
    destruct (coerce_completed (tb_completed b)) eqn:Hc;
    cbn [andb negb] in Hk; try exact (Hold u Hk Hx).
  apply (pushed_member us Hcu _ _ _ x) in Hk; [|exact Hx].
  destruct Hk as [[-> ->] | (u0 & H0 & Hx0)]; [|exact (Hold u0 H0 Hx0)].
  split; [apply bool_decide_eq_true in Hb; exact Hb|].
  eexists. rewrite lookup_insert_eq. split; [reflexivity|].
  cbn [new_task assignedUser completed]. split; [reflexivity | exact Hc].
Qed.

Lemma put_tasks_listing (id : string) (b : TaskBody) (w : World) :
  faults w = [] → ids_coherent w → listing_invariant w →
  listing_invariant (put_tasks id b w).2.
Proof.
  destruct w as [us ts fs]. cbn [faults users tasks].
  intros -> [Hcu Hct] Hinv. cbn [users tasks] in Hcu, Hct.
  destruct (missing_name_or_deadline b) eqn:Hv.
  { unfold put_tasks. rewrite Hv. exact Hinv. }
  destruct (ts !! id) as [task|] eqn:Hf.
  2:{ unfold put_tasks. rewrite Hv.
      unfold respond, then_, Task_findById, store_call.
      cbn [faults tasks]. rewrite Hf. exact Hinv. }
  pose proof (put_tasks_ok id b task us ts Hv Hf) as H. cbn zeta in H.
  rewrite H. clear H. cbn [snd]. rewrite (Hct _ _ Hf).
  set (oldU := assignedUser task).
  set (newU := or_default (tb_assignedUser b) "").
  set (newC := coerce_completed (tb_completed b)).
  set (c1 := bool_decide (oldU ≠ "")
             && (bool_decide (oldU ≠ newU) || (newC && negb (completed task)))).
  set (c2 := bool_decide (newU ≠ "") && negb newC && bool_decide (oldU ≠ newU)).
  set (us1 := if c1 then pulled oldU id us else us).
  assert (Hc1 : ∀ k u, us1 !! k = Some u → u_id u = k).
  { unfold us1. destruct c1; [apply pulled_coherent, Hcu | exact Hcu]. }
  intros k u x Hk Hx. cbn [users tasks] in Hk |- *.
  assert (H1 : ∀ u1, us1 !! k = Some u1 → x ∈ pendingTasks u1 →
            ∃ u0, us !! k = Some u0 ∧ x ∈ pendingTasks u0
                  ∧ (c1 = true → k = oldU → x ≠ id)).
  { intros u1 Hk1 Hx1. unfold us1 in Hk1. destruct c1.
    - destruct (pulled_member us Hcu _ _ _ x _ Hk1 Hx1)
        as [(u0 & H0 & Hx0) Hne].
      exists u0. auto.
    - exists u1. repeat split; try assumption. discriminate. }
  assert (Hfrom : (x = id ∧ k = newU ∧ c2 = true)
                  ∨ (∃ u0, us !! k = Some u0 ∧ x ∈ pendingTasks u0
                           ∧ (c1 = true → k = oldU → x ≠ id))).
  { destruct c2 eqn:H2.
    - destruct (pushed_member us1 Hc1 _ _ _ x _ Hk Hx)
        as [[-> ->] | (u1 & Hk1 & Hx1)]; [left; auto|].
      right. exact (H1 u1 Hk1 Hx1).
    - right. exact (H1 u Hk Hx). }
  destruct Hfrom as [(-> & -> & H2) | (u0 & H0 & Hx0 & Hne)].
  - unfold c2 in H2. apply andb_prop in H2 as [H2 _].
    apply andb_prop in H2 as [Hn Hc].
    apply bool_decide_eq_true in Hn. split; [exact Hn|].
    eexists. rewrite lookup_insert_eq. split; [reflexivity|].
    cbn [updated_task assignedUser completed]. split; [reflexivity|].
    fold newC. destruct newC; [discriminate Hc | reflexivity].
  - destruct (Hinv k u0 x H0 Hx0) as (Hk0 & t & Ht & Ha & Hc).
    cbn [tasks] in Ht. split; [exact Hk0|].
    destruct (decide (x = id)) as [->|Hxid].
    2:{ exists t. rewrite lookup_insert_ne by congruence. auto. }
    rewrite Hf in Ht. injection Ht as <-. fold oldU in Ha.
    destruct c1 eqn:E1.
    { exfalso. apply (Hne eq_refl); [symmetry; exact Ha | reflexivity]. }
    unfold c1 in E1. rewrite Hc in E1.
    rewrite bool_decide_true in E1 by congruence.
    cbn [andb negb] in E1. rewrite andb_true_r in E1.
    apply orb_false_elim in E1 as [E2 E3].
    apply bool_decide_eq_false in E2.
    assert (Heq : oldU = newU) by (destruct (decide (oldU = newU)); tauto).
    eexists. rewrite lookup_insert_eq. split; [reflexivity|].
    cbn [updated_task assignedUser completed]. fold newU newC.
    split; [congruence | exact E3].
Qed.

Lemma delete_tasks_listing (id : string) (w : World) :
  faults w = [] → ids_coherent w → listing_invariant w →
  listing_invariant (delete_tasks id w).2.
Proof.
  destruct w as [us ts fs]. cbn [faults users tasks].
  intros -> [Hcu Hct] Hinv. cbn [users tasks] in Hcu, Hct.
  destruct (ts !! id) as [task|] eqn:Hf.
  2:{ unfold delete_tasks, respond, then_, Task_findById, store_call.
      cbn [faults tasks]. rewrite Hf. exact Hinv. }
  rewrite (delete_tasks_ok id task us ts Hf). cbn [snd].
  rewrite (Hct _ _ Hf).
  intros k u x Hk Hx. cbn [users tasks] in Hk |- *.
  assert (H0 : ∃ u0, us !! k = Some u0 ∧ x ∈ pendingTasks u0
                     ∧ (assignedUser task ≠ "" → k = assignedUser task → x ≠ id)).
  { destruct (bool_decide (assignedUser task ≠ "")) eqn:Hb.
    - destruct (pulled_member us Hcu _ _ _ x _ Hk Hx)
        as [(u0 & H0 & Hx0) Hne].
      exists u0. auto.
    - apply bool_decide_eq_false in Hb. exists u.
      repeat split; try assumption. contradiction. }
  destruct H0 as (u0 & H0 & Hx0 & Hne).
  destruct (Hinv k u0 x H0 Hx0) as (Hk0 & t & Ht & Ha & Hc).
  cbn [tasks] in Ht. split; [exact Hk0|].
  destruct (decide (x = id)) as [->|Hxid].
  - exfalso. rewrite Hf in Ht. injection Ht as <-.
    apply Hne; congruence.
  - exists t. rewrite lookup_delete_ne by congruence. auto.
Qed.

Lemma delete_users_listing (id : string) (w : World) :
  faults w = [] → ids_coherent w → listing_invariant w →
  listing_invariant (delete_users id w).2.
Proof.
  destruct w as [us ts fs]. cbn [faults users tasks].
  intros -> [Hcu Hct] Hinv. cbn [users tasks] in Hcu, Hct.
  destruct (us !! id) as [user|] eqn:Hf.
  2:{ unfold delete_users, respond, then_. rewrite User_findById_ok, Hf.
      exact Hinv. }
  rewrite (delete_users_ok id user us ts Hf). cbn [snd].
  rewrite (Hcu _ _ Hf).
  intros k u x Hk Hx. cbn [users tasks] in Hk |- *.
  apply lookup_delete_Some in Hk as [Hne Hk].
  destruct (Hinv k u x Hk Hx) as (Hk0 & t & Ht & Ha & Hc).
  cbn [tasks] in Ht. split; [exact Hk0|].
  exists t. unfold unassigned_all.
  rewrite (reassigned_all_lookup _ _ _ ts x Hct), Ht. cbn.
  destruct (decide (x ∈ pendingTasks user)) as [Hin|Hin]; [|auto].
  exfalso. destruct (Hinv id user x Hf Hin) as (_ & t' & Ht' & Ha' & _).
  cbn [tasks] in Ht'. congruence.
Qed.

Lemma post_users_listing (b : UserBody) (newId : string) (now : Z) (w : World) :
  faults w = [] → listing_invariant w →
  default [] (ub_pendingTasks b) = [] →
  listing_invariant (post_users b newId now w).2.
Proof.
  destruct w as [us ts fs]. cbn [faults users tasks].
  intros -> Hinv Hempty.
  destruct (missing_name_or_email b) eqn:Hv.
  { unfold post_users. rewrite Hv. exact Hinv. }
  pose proof (post_users_ok b newId now us ts Hv) as H. cbn zeta in H.
  rewrite H. clear H. cbn [snd pendingTasks]. rewrite Hempty.
  cbn [assigned_all foldl].
  intros k u x Hk Hx. cbn [users tasks] in Hk |- *.
  apply lookup_insert_Some in Hk as [[<- <-] | [_ Hk]].
  - cbn [pendingTasks] in Hx. apply elem_of_nil in Hx. contradiction.
  - exact (Hinv k u x Hk Hx).
Qed.

Lemma put_users_listing (id : string) (b : UserBody) (w : World) :
  faults w = [] → ids_coherent w → listing_invariant w →
  (∀ u taskId, users w !! id = Some u →
     taskId ∈ default [] (ub_pendingTasks b) → taskId ∈ pendingTasks u) →
  listing_invariant (put_users id b w).2.
Proof.
  destruct w as [us ts fs]. cbn [faults users tasks].
  intros -> [Hcu Hct] Hinv Hsafe. cbn [users tasks] in Hcu, Hct.
  destruct (missing_name_or_email b) eqn:Hv.
  { unfold put_users. rewrite Hv. exact Hinv. }
  destruct (us !! id) as [user|] eqn:Hu.
  2:{ unfold put_users. rewrite Hv. unfold respond, then_.
      rewrite User_findById_ok, Hu. exact Hinv. }
  destruct (put_users_tasks id b user us ts Hcu Hct Hv Hu) as (ts' & E & Hl).
  rewrite E. clear E. cbn [snd].
  intros k u x Hk Hx. cbn [users tasks] in Hk |- *.
  assert (H0 : ∃ u0, us !! k = Some u0 ∧ x ∈ pendingTasks u0
                     ∧ (k = id → x ∈ default [] (ub_pendingTasks b))).
  { apply lookup_insert_Some in Hk as [[<- <-] | [Hne Hk]].
    - cbn [pendingTasks] in Hx. exists user. auto.
    - exists u. repeat split; try assumption. congruence. }
  destruct H0 as (u0 & H0 & Hx0 & Hnew).
  destruct (Hinv k u0 x H0 Hx0) as (Hk0 & t & Ht & Ha & Hc).
  cbn [tasks] in Ht. split; [exact Hk0|].
  assert (N1 : ¬ (x ∈ pendingTasks user
                  ∧ x ∉ default [] (ub_pendingTasks b))).
  { intros [Hold Hnot]. apply Hnot, Hnew.
    destruct (Hinv id user x Hu Hold) as (_ & t' & Ht' & Ha' & _).
    cbn [tasks] in Ht'. congruence. }
  assert (N2 : ¬ (x ∈ default [] (ub_pendingTasks b)
                  ∧ x ∉ pendingTasks user)).
  { intros [Hin Hnot]. apply Hnot, (Hsafe user x eq_refl Hin). }
  rewrite Hl, Ht. cbn [fmap option_fmap option_map].
  eexists. split; [reflexivity|]. cbv beta zeta.
  destruct (decide (x ∈ pendingTasks user ∧ _)); [contradiction|].
  destruct (decide (x ∈ default [] (ub_pendingTasks b) ∧ _)); [contradiction|].
  destruct (decide (u_name user ≠ default "" (ub_name b))); [|auto].
  destruct (rename_assigned_fields id (default "" (ub_name b)) t)
    as (_ & -> & ->). auto.
Qed.

(** X19: the converse invariant.  In a store where every id in a user's
    [pendingTasks] is a task assigned to that user and not completed, this
    still holds after POST /api/tasks under a free id, after PUT and DELETE
    /api/tasks/:id, after DELETE /api/users/:id, and after a user request
    that lists no task the user did not list before, when the store rejects
    nothing.  PUT /api/tasks/:id keeps it even where it reopens a task. *)
Theorem listing_invariant_kept (req : Request) (w : World) :
  faults w = [] → ids_coherent w → listing_invariant w → list_safe w req →
  listing_invariant (handle req w).2.
Proof.
  intros Hfs Hw Hinv Hsafe.
  destruct req as [b newId now|id b|id|b newId now|id b|id];
    cbn [handle list_safe] in *.
  - apply post_tasks_listing; assumption.
  - apply put_tasks_listing; assumption.
  - apply delete_tasks_listing; assumption.
  - apply post_users_listing; assumption.
  - apply put_users_listing; assumption.
  - apply delete_users_listing; assumption.
Qed.

Lemma busy_store_listing : listing_invariant busy_store.
Proof.
  intros k u x Hk Hx. unfold busy_store in Hk. cbn [users] in Hk.
  apply lookup_insert_Some in Hk as [[<- <-] | [_ Hk]].
  - cbn [pendingTasks set_pendingTasks] in Hx.
    apply list_elem_of_singleton in Hx as ->.
    split; [discriminate|]. eexists. split; [reflexivity|].
    split; reflexivity.
  - apply lookup_singleton_Some in Hk as [_ <-].
    cbn [pendingTasks bob] in Hx. apply elem_of_nil in Hx. contradiction.
Qed.

(** The theorem for the task of Ann, given to Bob. *)
Lemma listing_invariant_kept_witness :
  (faults busy_store = [] ∧ ids_coherent busy_store
   ∧ listing_invariant busy_store
   ∧ list_safe busy_store (PutTasks "t1" to_bob_body))
  ∧ users (handle (PutTasks "t1" to_bob_body) busy_store).2 !! "u1" = Some ann
  ∧ listing_invariant (handle (PutTasks "t1" to_bob_body) busy_store).2.
Proof.
  assert (H1 : faults busy_store = []) by reflexivity.
  assert (H4 : list_safe busy_store (PutTasks "t1" to_bob_body)) by exact I.
  split; [|split; [reflexivity|]].
  - split; [exact H1|]. split; [apply busy_store_coherent|].
    split; [apply busy_store_listing | exact H4].
  - exact (listing_invariant_kept (PutTasks "t1" to_bob_body) busy_store H1
             busy_store_coherent busy_store_listing H4).
Defined.

(** ** The name stored with an assignment *)




(** ** A request that keeps the invariant of pending tasks *)

Lemma busy_store_settled : settled busy_store.
Proof.
  split; [reflexivity|]. split; [apply busy_store_coherent|].
  intros k t Hk _ _. unfold busy_store in Hk |- *. cbn [tasks users] in Hk |- *.
  apply lookup_singleton_Some in Hk as [<- <-].
  exists (set_pendingTasks ["t1"] ann). split; [reflexivity|].
  apply list_elem_of_singleton. reflexivity.
Qed.

(** The invariant is kept where the task of Ann is given to Bob: it leaves
    the list of Ann and enters the list of Bob. *)
Lemma pending_invariant_kept_witness :
  (settled busy_store ∧ regular busy_store (PutTasks "t1" to_bob_body))
  ∧ users (handle (PutTasks "t1" to_bob_body) busy_store).2 !! "u2"
    = Some (set_pendingTasks ["t1"] bob)
  ∧ settled (handle (PutTasks "t1" to_bob_body) busy_store).2.
Proof.
  assert (H2 : regular busy_store (PutTasks "t1" to_bob_body)).
  { split.
    - right. right. eexists. reflexivity.
    - intros (task & Hk & Hc & _). unfold busy_store in Hk. cbn [tasks] in Hk.
      apply lookup_singleton_Some in Hk as [_ <-]. discriminate Hc. }
  split; [split; [apply busy_store_settled | exact H2]|].
  split; [reflexivity|].
  exact (pending_invariant_kept (PutTasks "t1" to_bob_body) busy_store
           busy_store_settled H2).
Defined.

(** ** The two list routes side by side *)

Lemma parse_count_true (q : Query) :
  parse_count q = true ↔ q_count q = Some "true".
Proof.
  unfold parse_count. destruct (q_count q) as [s|]; [|split; discriminate].
  destruct (String.eqb_spec s "true") as [->|Hs]; split; try reflexivity;
    try discriminate. intros [= H]. contradiction.
Qed.

(** X21: GET /api/tasks and GET /api/users read the query string alike.
    They refuse the same requests with the same answer; where they go
    through, the queries they hand to the store agree in conditions, sort,
    projection, skip and in whether documents are counted, and in the limit
    when the request gives one; without a [limit] the tasks are limited to
    100 and the users are not, and that holds for a count as well.
    Documents are counted exactly when [count] is the text "true". *)
Theorem list_routes_differ_in_default_limit
    (JSON_parse : string -> option json) (JSON_stringify : json -> string)
    (q : Query) :
  (∀ r, get_tasks JSON_parse JSON_stringify q = inl r
        ↔ get_users JSON_parse JSON_stringify q = inl r)
  ∧ (∀ mt mu,
       get_tasks JSON_parse JSON_stringify q = inr mt →
       get_users JSON_parse JSON_stringify q = inr mu →
       mq_model mt = TaskModel ∧ mq_model mu = UserModel
       ∧ mq_conditions mt = mq_conditions mu
       ∧ mq_sort mt = mq_sort mu ∧ mq_select mt = mq_select mu
       ∧ mq_skip mt = mq_skip mu
       ∧ mq_countDocuments mt = mq_countDocuments mu
       ∧ (if truthy_s (q_limit q) then mq_limit mt = mq_limit mu
          else mq_limit mt = Some 100 ∧ mq_limit mu = None))
  ∧ (∀ mq,
       get_tasks JSON_parse JSON_stringify q = inr mq
       ∨ get_users JSON_parse JSON_stringify q = inr mq →
       (mq_countDocuments mq = true ↔ q_count q = Some "true")).
Proof.
  unfold get_tasks, get_users, parseQueryParams.
  destruct (parse_where_filter JSON_parse JSON_stringify q) as [e0|[qry o0]] eqn:H0.
  { split; [tauto|]. split; [discriminate|]. intros mq [H|H]; discriminate H. }
  destruct (parse_sort JSON_parse q o0) as [e1|o1] eqn:H1.
  { split; [tauto|]. split; [discriminate|]. intros mq [H|H]; discriminate H. }
  destruct (parse_select JSON_parse q o1) as [e2|o2] eqn:H2.
  { split; [tauto|]. split; [discriminate|]. intros mq [H|H]; discriminate H. }
  destruct (parse_skip q o2) as [e3|o3] eqn:H3.
  { split; [tauto|]. split; [discriminate|]. intros mq [H|H]; discriminate H. }
  assert (Hl : opt_limit o3 = None).
  { apply parse_where_filter_limit in H0. apply parse_sort_limit in H1.
    apply parse_select_limit in H2. apply parse_skip_limit in H3. congruence. }
  unfold parse_limit. destruct (truthy_s (q_limit q)).
  - destruct (parseInt (default "" (q_limit q))) as [n|].
    + split; [split; discriminate|]. split.
      * intros mt mu [= <-] [= <-]. repeat split.
      * intros mq [[= <-]|[= <-]]; apply parse_count_true.
    + split; [tauto|]. split; [discriminate|].
      intros mq [H|H]; discriminate H.
  - split; [split; discriminate|]. split.
    + intros mt mu [= <-] [= <-]. repeat split.
      cbn [build_query mq_limit options]. rewrite Hl. reflexivity.
    + intros mq [[= <-]|[= <-]]; apply parse_count_true.
Qed.

(** ** What a route leaves of the other collection *)

Lemma User_save_cases (u : User) (w : World) r w' :
  User_save u w = (r, w') →
  tasks w' = tasks w
  ∧ ((∃ e, r = Rejected e ∧ users w' = users w)
     ∨ (r = Resolved u ∧ users w' = <[u_id u := u]> (users w))).
Proof.
  unfold User_save, store_call.
  destruct (faults w) as [|[e|] rest]; intros [= <- <-]; cbn; eauto.
Qed.

Lemma coherent_same (w w' : World) :
  users w' = users w → tasks w' = tasks w → ids_coherent w → ids_coherent w'.
Proof. unfold ids_coherent. intros -> ->. auto. Qed.

Lemma frames_tasks_of_keeps {A} (p : Promise A) :
  keeps_tasks p → keeps_coherent p → frames_tasks p.
Proof.
  intros Hk Hc w r w' Hw E. split; [exact (Hc _ _ _ Hw E)|].
  intros k. rewrite (Hk _ _ _ E). reflexivity.
Qed.

Lemma frames_users_of_keeps {A} (p : Promise A) :
  keeps_users p → keeps_coherent p → frames_users p.
Proof.
  intros Hk Hc w r w' Hw E. split; [exact (Hc _ _ _ Hw E)|].
  intros k. rewrite (Hk _ _ _ E). reflexivity.
Qed.

Lemma frames_tasks_then {A B} (p : Promise A) (k : A -> Promise B) :
  frames_tasks p → (∀ a, frames_tasks (k a)) → frames_tasks (then_ p k).
Proof.
  intros Hp Hk w r w' Hw. unfold then_.
  destruct (p w) as [[a|e] w1] eqn:E.
  - intros E2. destruct (Hp _ _ _ Hw E) as [Hw1 H1].
    destruct (Hk a _ _ _ Hw1 E2) as [Hw2 H2].
    split; [exact Hw2|]. intros j. rewrite H2. apply H1.
  - intros [= _ <-]. exact (Hp _ _ _ Hw E).
Qed.

Lemma frames_users_then {A B} (p : Promise A) (k : A -> Promise B) :
  frames_users p → (∀ a, frames_users (k a)) → frames_users (then_ p k).
Proof.
  intros Hp Hk w r w' Hw. unfold then_.
  destruct (p w) as [[a|e] w1] eqn:E.
  - intros E2. destruct (Hp _ _ _ Hw E) as [Hw1 H1].
    destruct (Hk a _ _ _ Hw1 E2) as [Hw2 H2].
    split; [exact Hw2|]. intros j. rewrite H2. apply H1.
  - intros [= _ <-]. exact (Hp _ _ _ Hw E).
Qed.

Lemma frames_tasks_catch {A} (p : Promise A) (h : StoreError -> Promise A) :
  frames_tasks p → (∀ e, frames_tasks (h e)) → frames_tasks (catch_ p h).
Proof.
  intros Hp Hh w r w' Hw. unfold catch_.
  destruct (p w) as [[a|e] w1] eqn:E.
  - intros [= _ <-]. exact (Hp _ _ _ Hw E).
  - intros E2. destruct (Hp _ _ _ Hw E) as [Hw1 H1].
    destruct (Hh e _ _ _ Hw1 E2) as [Hw2 H2].
    split; [exact Hw2|]. intros j. rewrite H2. apply H1.
Qed.

Lemma frames_users_catch {A} (p : Promise A) (h : StoreError -> Promise A) :
  frames_users p → (∀ e, frames_users (h e)) → frames_users (catch_ p h).
Proof.
  intros Hp Hh w r w' Hw. unfold catch_.
  destruct (p w) as [[a|e] w1] eqn:E.
  - intros [= _ <-]. exact (Hp _ _ _ Hw E).
  - intros E2. destruct (Hp _ _ _ Hw E) as [Hw1 H1].
    destruct (Hh e _ _ _ Hw1 E2) as [Hw2 H2].
    split; [exact Hw2|]. intros j. rewrite H2. apply H1.
Qed.

Lemma frames_tasks_Promise_all {A} (ps : list (Promise A)) :
  Forall frames_tasks ps → frames_tasks (Promise_all ps).
Proof.
  induction 1 as [|p ps Hp _ IH]; intros w r w' Hw.
  - intros [= _ <-]. split; [exact Hw | reflexivity].
  - cbn [Promise_all].
    destruct (p w) as [r1 w1] eqn:E1.
    destruct (Promise_all ps w1) as [rs w2] eqn:E2.
    intros [= _ <-]. destruct (Hp _ _ _ Hw E1) as [Hw1 H1].
    destruct (IH _ _ _ Hw1 E2) as [Hw2 H2].
    split; [exact Hw2|]. intros j. rewrite H2. apply H1.
Qed.

(** The one write of a task that a user route makes: under the id of a task
    it has just read, with another assignment. *)
Lemma frames_tasks_reassign (a n taskId : string) :
  frames_tasks
    (then_ (Task_findById taskId)
       (fun found =>
          match found with
          | Some task => then_ (Task_save (set_assignment a n task))
                               (fun _ => resolve tt)
          | None => resolve tt
          end)).
Proof.
  intros w r w' Hw. unfold then_ at 1.
  destruct (Task_findById taskId w) as [[found|e] w1] eqn:E1.
  2:{ intros [= _ <-].
      apply Task_findById_cases in E1 as (Ht & Hu & _).
      split; [exact (coherent_same _ _ Hu Ht Hw)|].
      intros k. rewrite Ht. reflexivity. }
  apply Task_findById_cases in E1 as (Ht & Hu & [[e [=]] | [= ->]]).
  pose proof (coherent_same _ _ Hu Ht Hw) as Hw1.
  destruct (tasks w !! taskId) as [task|] eqn:Hf.
  2:{ intros [= _ <-]. split; [exact Hw1|]. intros k. rewrite Ht. reflexivity. }
  intros E2.
  assert (Hc : keeps_coherent
                 (then_ (Task_save (set_assignment a n task))
                        (fun _ => resolve tt)))
    by repeat coherent_step.
  split; [exact (Hc _ _ _ Hw1 E2)|].
  revert E2. unfold then_.
  destruct (Task_save _ w1) as [[t|e] w2] eqn:E3.
  - intros [= _ <-].
    apply Task_save_cases in E3 as [(e & [=] & _) | (_ & ->)].
    cbn [t_id set_assignment]. rewrite Ht.
    intros k. destruct (decide (k = t_id task)) as [->|Hk].
    + rewrite lookup_insert_eq. destruct Hw as [_ Hct].
      rewrite <- (Hct _ _ Hf) in Hf. rewrite Hf. reflexivity.
    + rewrite lookup_insert_ne by congruence. reflexivity.
  - intros [= _ <-].
    apply Task_save_cases in E3 as [(e' & _ & ->) | ([=] & _)].
    intros k. rewrite Ht. reflexivity.
Qed.

Lemma frames_tasks_updateMany (uid newName : string) :
  frames_tasks (Task_updateMany_assignedUserName uid newName).
Proof.
  intros w r w' Hw E.
  split; [exact (keeps_coherent_updateMany uid newName _ _ _ Hw E)|].
  revert E. unfold Task_updateMany_assignedUserName, store_call.
  destruct (faults w) as [|[e|] rest]; intros [= _ <-]; cbn [tasks];
    try reflexivity;
    intros k; rewrite lookup_fmap; destruct (tasks w !! k) as [t|];
    try reflexivity; cbn; f_equal; unfold rename_assigned;
    destruct (String.eqb (assignedUser t) uid); reflexivity.
Qed.

(** The one write of a user that a task route makes: under the id of a user
    it has just read, with another list. *)
Lemma frames_users_relist (uid : string) (f : User -> option (list string)) :
  frames_users
    (then_ (User_findById uid)
       (fun user =>
          match user with
          | Some u =>
              match f u with
              | Some l => then_ (User_save (set_pendingTasks l u))
                                (fun _ => resolve tt)
              | None => resolve tt
              end
          | None => resolve tt
          end)).
Proof.
  intros w r w' Hw. unfold then_ at 1.
  destruct (User_findById uid w) as [[found|e] w1] eqn:E1.
  2:{ intros [= _ <-].
      apply User_findById_cases in E1 as (Ht & Hu & _).
      split; [exact (coherent_same _ _ Hu Ht Hw)|].
      intros k. rewrite Hu. reflexivity. }
  apply User_findById_cases in E1 as (Ht & Hu & [[e [=]] | [= ->]]).
  pose proof (coherent_same _ _ Hu Ht Hw) as Hw1.
  destruct (users w !! uid) as [u|] eqn:Hf.
  2:{ intros [= _ <-]. split; [exact Hw1|]. intros k. rewrite Hu. reflexivity. }
  destruct (f u) as [l|].
  2:{ intros [= _ <-]. split; [exact Hw1|]. intros k. rewrite Hu. reflexivity. }
  intros E2.
  assert (Hc : keeps_coherent
                 (then_ (User_save (set_pendingTasks l u))
                        (fun _ => resolve tt)))
    by repeat coherent_step.
  split; [exact (Hc _ _ _ Hw1 E2)|].
  revert E2. unfold then_.
  destruct (User_save _ w1) as [[t|e] w2] eqn:E3.
  - intros [= _ <-].
    apply User_save_cases in E3 as (_ & [(e & [=] & _) | (_ & ->)]).
    cbn [u_id set_pendingTasks]. rewrite Hu.
    intros k. destruct (decide (k = u_id u)) as [->|Hk].
    + rewrite lookup_insert_eq. destruct Hw as [Hcu _].
      rewrite <- (Hcu _ _ Hf) in Hf. rewrite Hf. reflexivity.
    + rewrite lookup_insert_ne by congruence. reflexivity.
  - intros [= _ <-].
    apply User_save_cases in E3 as (_ & [(e' & _ & ->) | ([=] & _)]).
    intros k. rewrite Hu. reflexivity.
Qed.

Lemma frames_users_push_pending (uid taskId : string) :
  frames_users (push_pending uid taskId).
Proof.
  pose proof (frames_users_relist uid
                (fun u => if decide (taskId ∈ pendingTasks u) then None
                          else Some (pendingTasks u ++ [taskId])%list)) as H.
  intros w r w' Hw E. apply (H w r w' Hw). rewrite <- E.
  unfold push_pending, then_.
  destruct (User_findById uid w) as [[[u|]|e] w1]; try reflexivity.
  destruct (decide (taskId ∈ pendingTasks u)); reflexivity.
Qed.

Lemma frames_users_pull_pending (uid taskId : string) :
  frames_users (pull_pending uid taskId).
Proof.
  exact (frames_users_relist uid
           (fun u => Some (filter (fun id => id ≠ taskId) (pendingTasks u)))).
Qed.

Lemma keeps_users_fetchUserName (assigned : string) (b : TaskBody) :
  keeps_users (fetchUserName assigned b).
Proof.
  intros w r w' E.
  destruct (fetchUserName_resolves assigned b w) as (n & w1 & E1 & Hu & _).
  congruence.
Qed.

Create HintDb frames.
#[local] Hint Resolve keeps_tasks_resolve keeps_tasks_User_findById
  keeps_tasks_User_save keeps_users_resolve keeps_users_User_findById
  keeps_users_fetchUserName : frames.

Ltac frames_atom :=
  first
    [ apply frames_tasks_of_keeps;
        [ first [ solve [auto with frames]
                | apply keeps_tasks_store_call; reflexivity ]
        | solve [auto with coherent] ]
    | apply frames_users_of_keeps;
        [ first [ solve [auto with frames]
                | apply keeps_users_store_call; reflexivity ]
        | solve [auto with coherent] ] ].

Ltac frames_step :=
  match goal with
  | |- frames_tasks (assign_task _ _) => apply frames_tasks_reassign
  | |- frames_tasks (unassign_task _) => apply frames_tasks_reassign
  | |- frames_tasks (Task_updateMany_assignedUserName _ _) =>
      apply frames_tasks_updateMany
  | |- frames_users (push_pending _ _) => apply frames_users_push_pending
  | |- frames_users (pull_pending _ _) => apply frames_users_pull_pending
  | |- frames_tasks (then_ _ _) => apply frames_tasks_then; [|intros ?]
  | |- frames_users (then_ _ _) => apply frames_users_then; [|intros ?]
  | |- frames_tasks (catch_ _ _) => apply frames_tasks_catch; [|intros ?]
  | |- frames_users (catch_ _ _) => apply frames_users_catch; [|intros ?]
  | |- frames_tasks (match ?x with _ => _ end) => destruct x
  | |- frames_users (match ?x with _ => _ end) => destruct x
  | |- frames_tasks (Promise_all (map _ _)) =>
      apply frames_tasks_Promise_all, Forall_map_all; intros ?
  | |- frames_tasks (Promise_all (_ ++ _)) =>
      apply frames_tasks_Promise_all; rewrite ?Forall_app; repeat split
  | |- Forall frames_tasks (map _ _) => apply Forall_map_all; intros ?
  | |- Forall frames_tasks [_] => apply Forall_cons; split; [|constructor]
  | |- Forall frames_tasks [] => constructor
  | |- Forall frames_tasks (if ?c then _ else _) => destruct c
  | |- _ => frames_atom
  end.

Lemma respond_frames_tasks (p : Promise Response) (h : StoreError -> Response)
    (w : World) :
  frames_tasks p → ids_coherent w →
  ∀ k, without_assignment <$> tasks (respond p h w).2 !! k
       = without_assignment <$> tasks w !! k.
Proof.
  intros Hp Hw. unfold respond. destruct (p w) as [[r|e] w1] eqn:E;
    exact (proj2 (Hp _ _ _ Hw E)).
Qed.

Lemma respond_frames_users (p : Promise Response) (h : StoreError -> Response)
    (w : World) :
  frames_users p → ids_coherent w →
  ∀ k, without_list <$> users (respond p h w).2 !! k
       = without_list <$> users w !! k.
Proof.
  intros Hp Hw. unfold respond. destruct (p w) as [[r|e] w1] eqn:E;
    exact (proj2 (Hp _ _ _ Hw E)).
Qed.

(** X22: whatever the store rejects on the way, a user route neither adds
    nor removes a task and changes nothing of a task but [assignedUser] and
    [assignedUserName]; a task route neither adds nor removes a user and
    changes nothing of a user but [pendingTasks]. *)
Theorem routes_frame_the_other_collection (req : Request) (w : World) :
  ids_coherent w → framed req w (handle req w).2.
Proof.
  intros Hw.
  destruct req as [b newId now|id b|id|b newId now|id b|id];
    cbn [handle framed].
  - unfold post_tasks. destruct (missing_name_or_deadline b); [reflexivity|].
    apply respond_frames_users; [|exact Hw].
    unfold post_tasks_saved. repeat frames_step.
  - unfold put_tasks. destruct (missing_name_or_deadline b); [reflexivity|].
    apply respond_frames_users; [|exact Hw].
    unfold put_tasks_saved. repeat frames_step.
  - unfold delete_tasks. apply respond_frames_users; [|exact Hw].
    repeat frames_step.
  - unfold post_users. destruct (missing_name_or_email b); [reflexivity|].
    apply respond_frames_tasks; [|exact Hw].
    unfold post_users_saved. repeat frames_step.
  - unfold put_users. destruct (missing_name_or_email b); [reflexivity|].
    apply respond_frames_tasks; [|exact Hw].
    unfold put_users_saved. repeat frames_step.
  - unfold delete_users. apply respond_frames_tasks; [|exact Hw].
    repeat frames_step.
Qed.

(** The theorem for Carol, created with the task of Ann in her list: the
    task changes hands and is otherwise the task it was. *)
Lemma routes_frame_the_other_collection_witness :
  ids_coherent busy_store
  ∧ tasks (handle (PostUsers carol_body "u3" 7) busy_store).2 !! "t1"
    = Some (set_assignment "u3" "Carol" report)
  ∧ without_assignment
    <$> tasks (handle (PostUsers carol_body "u3" 7) busy_store).2 !! "t1"
    = without_assignment <$> tasks busy_store !! "t1".
Proof.
  split; [apply busy_store_coherent|]. split; [reflexivity|].
  exact (routes_frame_the_other_collection (PostUsers carol_body "u3" 7)
           busy_store busy_store_coherent "t1").
Defined.

(** ** A PUT repeated *)

Lemma fetched_name_frame (a : string) (b : TaskBody) (us us' : gmap string User) :
  (∀ k, without_list <$> us' !! k = without_list <$> us !! k) →
  fetched_name a b us' = fetched_name a b us.
Proof.
  intros H. unfold fetched_name. destruct (wants_user_name a b); [|reflexivity].
  specialize (H a). destruct (us' !! a) as [u'|]; destruct (us !! a) as [u|];
    cbn in H; try discriminate H; [|reflexivity].
  injection H as _ H _ _. exact H.
Qed.

Lemma put_tasks_frames_users (id : string) (b : TaskBody) (w : World) :
  ids_coherent w →
  ∀ k, without_list <$> users (put_tasks id b w).2 !! k
       = without_list <$> users w !! k.
Proof.
  intros Hw. unfold put_tasks.
  destruct (missing_name_or_deadline b); [reflexivity|].
  apply respond_frames_users; [|exact Hw].
  unfold put_tasks_saved. repeat frames_step.
Qed.

Lemma filter_not_in_self (l : list string) :
  filter (fun x => x ∉ l) l = [].
Proof.
  assert (H : ∀ l0, (∀ x, x ∈ l0 → x ∈ l) → filter (fun x => x ∉ l) l0 = []).
  { induction l0 as [|a l0 IH]; intros Hin; [reflexivity|].
    rewrite filter_cons_False.
    - apply IH. intros x Hx. apply Hin, elem_of_cons. auto.
    - intros Hn. apply Hn, Hin, elem_of_cons. auto. }
  apply H. auto.
Qed.

Lemma put_tasks_again (id : string) (b : TaskBody) (w : World) :
  faults w = [] → ids_coherent w →
  put_tasks id b (put_tasks id b w).2 = put_tasks id b w.
Proof.
  intros Hfs Hw.
  pose proof (put_tasks_frames_users id b w Hw) as Hframe. revert Hframe.
  destruct w as [us ts fs]. cbn [faults] in Hfs. subst fs.
  destruct Hw as [Hcu Hct]. cbn [users tasks] in Hcu, Hct.
  destruct (missing_name_or_deadline b) eqn:Hv.
  { intros _. unfold put_tasks. rewrite Hv. reflexivity. }
  destruct (ts !! id) as [task|] eqn:Hf.
  2:{ intros _. unfold put_tasks. rewrite Hv.
      unfold respond, then_, Task_findById, store_call.
      cbn [faults tasks]. rewrite Hf. cbn [fst snd resolve].
      cbn [faults tasks]. rewrite Hf. reflexivity. }
  pose proof (put_tasks_ok id b task us ts Hv Hf) as H. cbn zeta in H.
  rewrite H. clear H. cbn [snd users]. rewrite (Hct _ _ Hf).
  set (us2 := if _ && _ then pushed _ _ _ else _).
  intros Hframe.
  set (task1 := updated_task b task us).
  assert (Hf1 : <[id := task1]> ts !! id = Some task1) by apply lookup_insert_eq.
  pose proof (put_tasks_ok id b task1 us2 _ Hv Hf1) as H. cbn zeta in H.
  rewrite H. clear H.
  assert (Hid : t_id task1 = id) by exact (Hct _ _ Hf).
  assert (Hsame : updated_task b task1 us2 = task1).
  { unfold task1 at 2. unfold updated_task.
    rewrite (fetched_name_frame _ b us us2 Hframe). reflexivity. }
  rewrite Hsame, Hid, insert_insert_eq.
  change (assignedUser task1) with (or_default (tb_assignedUser b) "").
  change (completed task1) with (coerce_completed (tb_completed b)).
  rewrite (bool_decide_false (or_default (tb_assignedUser b) ""
                              ≠ or_default (tb_assignedUser b) ""))
    by (intros Hn; apply Hn; reflexivity).
  rewrite andb_negb_r, !andb_false_r. reflexivity.
Qed.

Lemma put_users_again (id : string) (b : UserBody) (w : World) :
  faults w = [] → ids_coherent w →
  put_users id b (put_users id b w).2 = put_users id b w.
Proof.
  destruct w as [us ts fs]. cbn [faults]. intros -> [Hcu Hct].
  cbn [users tasks] in Hcu, Hct.
  destruct (missing_name_or_email b) eqn:Hv.
  { unfold put_users. rewrite Hv. reflexivity. }
  destruct (us !! id) as [user|] eqn:Hu.
  2:{ unfold put_users. rewrite Hv. unfold respond, then_.
      rewrite User_findById_ok, Hu. cbn [fst snd resolve].
      rewrite User_findById_ok, Hu. reflexivity. }
  pose proof (put_users_ok id b user us ts Hv Hu) as H. cbn zeta in H.
  rewrite H. clear H. cbn [snd]. rewrite (Hcu _ _ Hu).
  set (updated := mkUser id _ _ _ _).
  set (ts1 := if bool_decide _ then _ else _).
  assert (Hu1 : <[id := updated]> us !! id = Some updated)
    by apply lookup_insert_eq.
  pose proof (put_users_ok id b updated _ ts1 Hv Hu1) as H. cbn zeta in H.
  rewrite H. clear H.
  cbn [u_id u_name pendingTasks u_dateCreated updated].
  rewrite filter_not_in_self.
  rewrite (bool_decide_false (default "" (ub_name b) ≠ default "" (ub_name b)))
    by (intros Hn; apply Hn; reflexivity).
  cbn [unassigned_all assigned_all foldl].
  rewrite insert_insert_eq. reflexivity.
Qed.

(** X23: a PUT is idempotent.  When the store rejects nothing, sending the
    same PUT /api/tasks/:id or PUT /api/users/:id a second time gives the
    answer of the first and leaves the store as the first left it: the
    second request finds nothing to move between lists and no task to
    reassign. *)
Theorem put_is_idempotent (w : World) :
  faults w = [] → ids_coherent w →
  (∀ id b, put_tasks id b (put_tasks id b w).2 = put_tasks id b w)
  ∧ (∀ id b, put_users id b (put_users id b w).2 = put_users id b w).
Proof.
  intros Hfs Hw. split; intros id b.
  - apply put_tasks_again; assumption.
  - apply put_users_again; assumption.
Qed.

(** The theorem for the task of Ann, given to Bob twice. *)
Lemma put_is_idempotent_witness :
  (faults busy_store = [] ∧ ids_coherent busy_store)
  ∧ users (put_tasks "t1" to_bob_body busy_store).2 !! "u2"
    = Some (set_pendingTasks ["t1"] bob)
  ∧ put_tasks "t1" to_bob_body (put_tasks "t1" to_bob_body busy_store).2
    = put_tasks "t1" to_bob_body busy_store.
Proof.
  assert (H1 : faults busy_store = []) by reflexivity.
  split; [split; [exact H1 | apply busy_store_coherent]|].
  split; [reflexivity|].
  exact (proj1 (put_is_idempotent busy_store H1 busy_store_coherent)
           "t1" to_bob_body).
Defined.

(** ** The invariants along a run *)

Lemma handle_settled (req : Request) (w : World) :
  settled w → regular w req → settled (handle req w).2.
Proof.
  intros Hw Hreg. destruct req as [b newId now|id b|id|b newId now|id b|id];
    cbn [handle regular] in *.
  - apply post_tasks_settled; assumption.
  - destruct Hreg. apply put_tasks_settled; assumption.
  - apply delete_tasks_settled, Hw.
  - apply post_users_settled; assumption.
  - apply put_users_settled, Hw.
  - apply delete_users_settled, Hw.
Qed.

Lemma handle_listing (req : Request) (w : World) :
  settled w → listing_invariant w → list_safe w req →
  listing_invariant (handle req w).2.
Proof.
  intros (Hfs & Hw & _) Hinv Hsafe.
  destruct req as [b newId now|id b|id|b newId now|id b|id];
    cbn [handle list_safe] in *.
  - apply post_tasks_listing; assumption.
  - apply put_tasks_listing; assumption.
  - apply delete_tasks_listing; assumption.
  - apply post_users_listing; assumption.
  - apply put_users_listing; assumption.
  - apply delete_users_listing; assumption.
Qed.

Lemma empty_store_consistent : consistent empty_store.
Proof.
  split; [split; [reflexivity|]; split; [split|]|].
  - apply (coherent_empty u_id).
  - apply (coherent_empty t_id).
  - intros k t Hk. cbn in Hk. rewrite lookup_empty in Hk. discriminate.
  - intros k u x Hk. cbn in Hk. rewrite lookup_empty in Hk. discriminate.
Qed.

(** X24: the two invariants hold along every admissible run.  From a store
    in which every pending task is listed with its user and every listed id
    is a pending task of that user, any number of requests served one
    after the other leads to such a store again, as long as the store
    rejects nothing and each request is regular and list-safe for the store
    it meets; the empty store is one to start from. *)
Theorem consistent_along_runs (reqs : list Request) (w : World) :
  consistent w → admissible reqs w → consistent (run reqs w).
Proof.
  revert w. induction reqs as [|req reqs IH]; intros w Hw Hadm.
  - exact Hw.
  - cbn [run]. destruct Hadm as (Hreg & Hsafe & Hrest).
    destruct Hw as [Hs Hl]. apply IH; [|exact Hrest]. split.
    + apply handle_settled; assumption.
    + apply handle_listing; assumption.
Qed.

(** The theorem for Ann: she is created, gets a task, and completes it. *)
Lemma consistent_along_runs_witness :
  (consistent empty_store
   ∧ admissible [PostUsers ann_body "u1" 0; PostTasks for_ann_body "t1" 1;
                 PutTasks "t1" done_body] empty_store)
  ∧ users (run [PostUsers ann_body "u1" 0; PostTasks for_ann_body "t1" 1]
             empty_store) !! "u1"
    = Some (set_pendingTasks ["t1"] ann)
  ∧ users (run [PostUsers ann_body "u1" 0; PostTasks for_ann_body "t1" 1;
                PutTasks "t1" done_body] empty_store) !! "u1"
    = Some ann
  ∧ consistent (run [PostUsers ann_body "u1" 0; PostTasks for_ann_body "t1" 1;
                     PutTasks "t1" done_body] empty_store).
Proof.
  assert (H2 : admissible [PostUsers ann_body "u1" 0;
                           PostTasks for_ann_body "t1" 1;
                           PutTasks "t1" done_body] empty_store).
  { split; [reflexivity|]. split; [reflexivity|].
    split; [right; right; eexists; reflexivity|].
    split; [reflexivity|].
    split; [|split; exact I].
    split; [right; left; reflexivity|].
    intros (task & Hk & Hc & _). vm_compute in Hk. injection Hk as <-.
    discriminate Hc. }
  split; [split; [apply empty_store_consistent | exact H2]|].
  split; [reflexivity|]. split; [reflexivity|].
  exact (consistent_along_runs _ empty_store empty_store_consistent H2).
Defined.

(** ** What a route writes in its own collection *)

Lemma keeps_users_catch {A} (p : Promise A) (h : StoreError -> Promise A) :
  keeps_users p → (∀ e, keeps_users (h e)) → keeps_users (catch_ p h).
Proof.
  intros Hp Hh w r w'. unfold catch_.
  destruct (p w) as [[a|e] w1] eqn:E.
  - intros [= _ <-]. exact (Hp _ _ _ E).
  - intros H. rewrite (Hh e _ _ _ H). exact (Hp _ _ _ E).
Qed.

Lemma keeps_users_assign_all (user : User) (l : list string) :
  keeps_users (Promise_all (map (assign_task user) l)).
Proof.
  apply keeps_users_Promise_all, Forall_map_all. intros taskId.
  apply keeps_users_reassign.
Qed.

Lemma keeps_users_post_users_saved (savedUser : User) :
  keeps_users (post_users_saved savedUser).
Proof.
  unfold post_users_saved. destruct (0 <? length _)%nat;
    [|apply keeps_users_resolve].
  apply keeps_users_catch; [|intros e; apply keeps_users_resolve].
  apply keeps_users_then; [apply keeps_users_assign_all|].
  intros _. apply keeps_users_resolve.
Qed.

Lemma keeps_users_put_users_saved oldP newP oldName newName (updatedUser : User) :
  keeps_users (put_users_saved oldP newP oldName newName updatedUser).
Proof.
  unfold put_users_saved.
  apply keeps_users_then; [|intros _; apply keeps_users_resolve].
  apply keeps_users_Promise_all. rewrite !Forall_app. repeat split.
  - apply Forall_map_all, keeps_users_unassign_task.
  - apply Forall_map_all. intros taskId. apply keeps_users_reassign.
  - destruct (bool_decide (oldName ≠ newName)); constructor; [|constructor].
    apply keeps_users_store_call. reflexivity.
Qed.

(** The tasks after POST /api/tasks: as before, or with the new task filed
    under the new id. *)
Lemma post_tasks_tasks (b : TaskBody) (newId : string) (now : Z) (w : World)
    r w' :
  post_tasks b newId now w = (r, w') →
  tasks w' = tasks w
  ∨ ∃ t, t_id t = newId ∧ t_dateCreated t = now
         ∧ tasks w' = <[newId := t]> (tasks w).
Proof.
  unfold post_tasks.
  destruct (missing_name_or_deadline b); [intros [= _ <-]; left; reflexivity|].
  unfold respond, then_ at 1.
  destruct (fetchUserName_resolves (or_default (tb_assignedUser b) "") b w)
    as (n & w1 & -> & _ & Ht1).
  unfold then_.
  destruct (Task_save _ w1) as [[t|e] w2] eqn:E2.
  - destruct (post_tasks_saved_resolves t w2) as (w3 & -> & H3).
    intros [= _ <-].
    apply Task_save_cases in E2 as [(e & [=] & _) | ([= ->] & H2)].
    cbn [t_id] in H2. right.
    match type of H2 with _ = <[_ := ?t]> _ => exists t end.
    split; [reflexivity|]. split; [reflexivity|].
    rewrite H3, H2, Ht1. reflexivity.
  - intros [= _ <-].
    apply Task_save_cases in E2 as [(e' & _ & H2) | ([=] & _)].
    left. congruence.
Qed.

(** The tasks after PUT /api/tasks/:id: as before, or with the task that
    was found replaced by one of the same id and date. *)
Lemma put_tasks_tasks (id : string) (b : TaskBody) (w : World) r w' :
  put_tasks id b w = (r, w') →
  tasks w' = tasks w
  ∨ ∃ task t', tasks w !! id = Some task
               ∧ t_id t' = t_id task ∧ t_dateCreated t' = t_dateCreated task
               ∧ tasks w' = <[t_id task := t']> (tasks w).
Proof.
  unfold put_tasks.
  destruct (missing_name_or_deadline b); [intros [= _ <-]; left; reflexivity|].
  unfold respond, then_ at 1.
  destruct (Task_findById id w) as [[found|e] w0] eqn:E0.
  2:{ intros [= _ <-].
      apply Task_findById_cases in E0 as (Ht0 & _). left. exact Ht0. }
  apply Task_findById_cases in E0 as (Ht0 & _ & [(e & [=]) | [= ->]]).
  destruct (tasks w !! id) as [task|] eqn:Hf;
    [|intros [= _ <-]; left; exact Ht0].
  unfold then_ at 1.
  destruct (fetchUserName_resolves (or_default (tb_assignedUser b) "") b w0)
    as (n & w1 & -> & _ & Ht1).
  unfold then_.
  destruct (Task_save _ w1) as [[t|e] w2] eqn:E2.
  2:{ intros [= _ <-].
      apply Task_save_cases in E2 as [(e' & _ & H2) | ([=] & _)].
      left. congruence. }
  apply Task_save_cases in E2 as [(e & [=] & _) | ([= ->] & H2)].
  cbn [t_id] in H2.
  destruct (put_tasks_saved _ _ _ _ _ w2) as [[r3|e3] w3] eqn:E3;
    apply put_tasks_saved_keeps_tasks in E3; intros [= _ <-];
    right; exists task;
    (match type of H2 with _ = <[_ := ?t]> _ => exists t end);
    (split; [reflexivity|]); (split; [reflexivity|]);
    (split; [reflexivity|]); rewrite E3, H2, Ht1, Ht0; reflexivity.
Qed.

(** The tasks after DELETE /api/tasks/:id: as before, or without the task
    that was found. *)
Lemma delete_tasks_tasks (id : string) (w : World) r w' :
  delete_tasks id w = (r, w') →
  tasks w' = tasks w
  ∨ ∃ task, tasks w !! id = Some task
            ∧ tasks w' = delete (t_id task) (tasks w).
Proof.
  unfold delete_tasks, respond, then_ at 1.
  destruct (Task_findById id w) as [[found|e] w1] eqn:E1.
  2:{ intros [= _ <-].
      apply Task_findById_cases in E1 as (Ht & _). left. exact Ht. }
  apply Task_findById_cases in E1 as (Ht1 & _ & [[e [=]] | [= ->]]).
  destruct (tasks w !! id) as [task|] eqn:Hf;
    [|intros [= _ <-]; left; exact Ht1].
  assert (Hdel : ∀ w2 r2 w3, tasks w2 = tasks w →
            then_ (Task_findByIdAndDelete (t_id task))
                  (fun _ => resolve (Send 204)) w2 = (r2, w3) →
            tasks w3 = tasks w ∨ tasks w3 = delete (t_id task) (tasks w)).
  { intros w2 r2 w3 H2. unfold then_.
    destruct (Task_findByIdAndDelete (t_id task) w2) as [[[]|e] w4] eqn:E4;
      apply Task_findByIdAndDelete_keeps in E4 as (_ & H4);
      intros [= _ <-].
    - right. destruct H4 as [(e' & [=] & _) | (_ & H)]. congruence.
    - left. destruct H4 as [(e' & _ & H) | ([=] & _)]. congruence. }
  destruct (bool_decide (assignedUser task ≠ "")).
  - unfold then_ at 1.
    destruct (pull_pending (assignedUser task) (t_id task) w1)
      as [[[]|e] w2] eqn:E2.
    + pose proof (keeps_tasks_pull_pending _ _ _ _ _ E2) as H2.
      destruct (then_ _ _ w2) as [[r3|e3] w3] eqn:E3; intros [= _ <-];
        (destruct (Hdel w2 _ w3 ltac:(congruence) E3) as [H|H];
         [left; exact H | right; exists task; split; [reflexivity | exact H]]).
    + intros [= _ <-]. left.
      rewrite (keeps_tasks_pull_pending _ _ _ _ _ E2). exact Ht1.
  - destruct (then_ _ _ w1) as [[r3|e3] w3] eqn:E3; intros [= _ <-];
      (destruct (Hdel w1 _ w3 Ht1 E3) as [H|H];
       [left; exact H | right; exists task; split; [reflexivity | exact H]]).
Qed.

Lemma post_users_users (b : UserBody) (newId : string) (now : Z) (w : World)
    r w' :
  post_users b newId now w = (r, w') →
  users w' = users w
  ∨ ∃ u, u_id u = newId ∧ u_dateCreated u = now
         ∧ users w' = <[newId := u]> (users w).
Proof.
  unfold post_users.
  destruct (missing_name_or_email b); [intros [= _ <-]; left; reflexivity|].
  unfold respond, then_.
  destruct (User_save _ w) as [[u|e] w1] eqn:E1.
  - apply User_save_cases in E1 as (_ & [(e & [=] & _) | ([= ->] & H1)]).
    cbn [u_id] in H1.
    destruct (post_users_saved _ w1) as [[r2|e2] w2] eqn:E2;
      apply keeps_users_post_users_saved in E2; intros [= _ <-];
      right; (match type of H1 with _ = <[_ := ?u]> _ => exists u end);
      (split; [reflexivity|]); (split; [reflexivity|]); congruence.
  - intros [= _ <-].
    apply User_save_cases in E1 as (_ & [(e' & _ & H1) | ([=] & _)]).
    left. exact H1.
Qed.

Lemma put_users_users (id : string) (b : UserBody) (w : World) r w' :
  put_users id b w = (r, w') →
  users w' = users w
  ∨ ∃ user u', users w !! id = Some user
               ∧ u_id u' = u_id user ∧ u_dateCreated u' = u_dateCreated user
               ∧ users w' = <[u_id user := u']> (users w).
Proof.
  unfold put_users.
  destruct (missing_name_or_email b); [intros [= _ <-]; left; reflexivity|].
  unfold respond, then_ at 1.
  destruct (User_findById id w) as [[found|e] w0] eqn:E0.
  2:{ intros [= _ <-].
      apply User_findById_cases in E0 as (_ & Hu0 & _). left. exact Hu0. }
  apply User_findById_cases in E0 as (_ & Hu0 & [(e & [=]) | [= ->]]).
  destruct (users w !! id) as [user|] eqn:Hf;
    [|intros [= _ <-]; left; exact Hu0].
  unfold then_ at 1.
  destruct (User_save _ w0) as [[u|e] w1] eqn:E1.
  2:{ intros [= _ <-].
      apply User_save_cases in E1 as (_ & [(e' & _ & H1) | ([=] & _)]).
      left. congruence. }
  apply User_save_cases in E1 as (_ & [(e & [=] & _) | ([= ->] & H1)]).
  cbn [u_id] in H1.
  destruct (put_users_saved _ _ _ _ _ w1) as [[r2|e2] w2] eqn:E2;
    apply keeps_users_put_users_saved in E2; intros [= _ <-];
    right; exists user;
    (match type of H1 with _ = <[_ := ?u]> _ => exists u end);
    (split; [reflexivity|]); (split; [reflexivity|]);
    (split; [reflexivity|]); rewrite E2, H1, Hu0; reflexivity.
Qed.

Lemma delete_users_users (id : string) (w : World) r w' :
  delete_users id w = (r, w') →
  users w' = users w
  ∨ ∃ user, users w !! id = Some user
            ∧ users w' = delete (u_id user) (users w).
Proof.
  unfold delete_users, respond, then_ at 1.
  destruct (User_findById id w) as [[found|e] w1] eqn:E1.
  2:{ intros [= _ <-].
      apply User_findById_cases in E1 as (_ & Hu & _). left. exact Hu. }
  apply User_findById_cases in E1 as (_ & Hu1 & [[e [=]] | [= ->]]).
  destruct (users w !! id) as [user|] eqn:Hf;
    [|intros [= _ <-]; left; exact Hu1].
  unfold then_ at 1.
  destruct (Promise_all (map unassign_task (pendingTasks user)) w1)
    as [[l|e] w2] eqn:E2.
  2:{ intros [= _ <-]. left. rewrite <- Hu1.
      refine (keeps_users_Promise_all _ _ _ _ _ E2).
      apply Forall_map_all, keeps_users_unassign_task. }
  assert (H2 : users w2 = users w1).
  { refine (keeps_users_Promise_all _ _ _ _ _ E2).
    apply Forall_map_all, keeps_users_unassign_task. }
  unfold then_.
  destruct (User_findByIdAndDelete (u_id user) w2) as [[[]|e] w3] eqn:E3;
    apply User_findByIdAndDelete_keeps in E3 as (_ & H3); intros [= _ <-].
  - right. exists user. split; [reflexivity|].
    destruct H3 as [(e' & [=] & _) | (_ & H)]. congruence.
  - left. destruct H3 as [(e' & _ & H) | ([=] & _)]. congruence.
Qed.

(** X17: in a store whose documents are filed under their own [_id], and
    whatever the store rejects on the way, a handler writes its own
    collection at the id of the request only.  POST creates at most the
    document under the new id, and that document carries the id and the
    date of the request; PUT leaves the [_id] and the [dateCreated] of the
    document it updates as they were, and creates nothing under an id that
    was free; DELETE removes at most the document of the id; and every
    other document of the collection is exactly what it was. *)
Theorem handlers_write_at_the_request_id (req : Request) (w : World) :
  ids_coherent w → own_frame req w (handle req w).2.
Proof.
  intros [Hcu Hct].
  destruct (handle req w) as [r w'] eqn:E. cbn [snd].
  destruct req as [b newId now|id b|id|b newId now|id b|id];
    cbn [handle own_frame] in E |- *.
  - destruct (post_tasks_tasks _ _ _ _ _ _ E) as [H|(t & Hi & Hd & H)];
      rewrite H.
    + split; [reflexivity | left; reflexivity].
    + split; [intros k Hk; apply lookup_insert_ne; congruence|].
      right. exists t. rewrite lookup_insert_eq. auto.
  - destruct (put_tasks_tasks _ _ _ _ _ E)
      as [H|(task & t' & Hf & Hi & Hd & H)]; rewrite H.
    + split; [reflexivity|]. destruct (tasks w !! id) as [t|]; eauto.
    + rewrite (Hct _ _ Hf), Hf.
      split; [intros k Hk; apply lookup_insert_ne; congruence|].
      exists t'. rewrite lookup_insert_eq. auto.
  - destruct (delete_tasks_tasks _ _ _ _ E) as [H|(task & Hf & H)]; rewrite H.
    + split; [reflexivity | left; reflexivity].
    + rewrite (Hct _ _ Hf).
      split; [intros k Hk; apply lookup_delete_ne; congruence|].
      right. apply lookup_delete_eq.
  - destruct (post_users_users _ _ _ _ _ _ E) as [H|(u & Hi & Hd & H)];
      rewrite H.
    + split; [reflexivity | left; reflexivity].
    + split; [intros k Hk; apply lookup_insert_ne; congruence|].
      right. exists u. rewrite lookup_insert_eq. auto.
  - destruct (put_users_users _ _ _ _ _ E)
      as [H|(user & u' & Hf & Hi & Hd & H)]; rewrite H.
    + split; [reflexivity|]. destruct (users w !! id) as [u|]; eauto.
    + rewrite (Hcu _ _ Hf), Hf.
      split; [intros k Hk; apply lookup_insert_ne; congruence|].
      exists u'. rewrite lookup_insert_eq. auto.
  - destruct (delete_users_users _ _ _ _ E) as [H|(user & Hf & H)]; rewrite H.
    + split; [reflexivity | left; reflexivity].
    + rewrite (Hcu _ _ Hf).
      split; [intros k Hk; apply lookup_delete_ne; congruence|].
      right. apply lookup_delete_eq.
Qed.

(** The theorem for a PUT whose update of the lists is rejected after the
    task was saved: the answer is 500, the task is the updated one with the
    id and the date it had, and the second task is untouched. *)
Lemma handlers_write_at_the_request_id_witness :
  ids_coherent (with_faults [None; None; None; Some connection_lost]
                  two_tasks_store)
  ∧ status_of (handle (PutTasks "t1" to_bob_body)
                 (with_faults [None; None; None; Some connection_lost]
                    two_tasks_store)).1 = 500%nat
  ∧ tasks (handle (PutTasks "t1" to_bob_body)
             (with_faults [None; None; None; Some connection_lost]
                two_tasks_store)).2 !! "t1"
    = Some (mkTask "t1" "Write report" "" "2025-01-01" false "u2" "unassigned" 0)
  ∧ own_frame (PutTasks "t1" to_bob_body)
      (with_faults [None; None; None; Some connection_lost] two_tasks_store)
      (handle (PutTasks "t1" to_bob_body)
         (with_faults [None; None; None; Some connection_lost]
            two_tasks_store)).2.
Proof.
  assert (H1 : ids_coherent
                 (with_faults [None; None; None; Some connection_lost]
                    two_tasks_store))
    by (destruct two_tasks_store_coherent as [Hu Ht]; split; assumption).
  split; [exact H1|]. split; [reflexivity|]. split; [reflexivity|].
  exact (handlers_write_at_the_request_id (PutTasks "t1" to_bob_body) _ H1).
Defined.
